(** * Resilience layer of the twitter-service: health monitor, account pool,
      failover orchestrator.

    Shallow embedding of
      - [src/twitter-service/health_monitor.py]        (Module [Health])
      - [src/twitter-service/account_pool.py]          (Module [Pool])
      - [src/twitter-service/unified_twitter_client.py] (Module [Unified])

    Conventions.
      - Python [int] counters are [Z]; [datetime] values are [Z] counts of
        microseconds (the resolution of [datetime]); a [timedelta] is a [Z]
        number of microseconds.
      - Every call of [datetime.now()] is an input of the operation that makes
        it: the functions below take one argument per clock read, in the order
        the reads happen in the source.  Nothing is assumed about the clock.
      - The [float] quantities of the health monitor (response times,
        success rates) are exact rationals [Q].  The thresholds [0.7] and
        [0.85] are the rationals 7/10 and 17/20; [float_thresholds_agree]
        checks on IEEE doubles that the comparisons of the source agree with
        the rational ones for every window of up to 300 events.
      - The health score of an account, which is the key that the selection
        sorts by, is the IEEE double that the source computes: every
        operation of [health_score] is the operation on doubles, in the
        order of the source.
      - A [str] is a [string] of bytes; [str.lower] is modelled on ASCII
        letters (the keywords of the source are ASCII).
      - Alerts: the monitor's [_trigger_alert] calls are returned as the list
        of alerts the operation emits, in order. *)

From Stdlib Require Import ZArith QArith List String Ascii Bool Lia Sorted.
From Stdlib Require Import Floats Permutation.
From Stdlib Require Uint63.
From stdpp Require Import base list strings gmap pretty.

From Stdlib Require Lqa.
From Stdlib Require OrderedTypeEx.

Local Open Scope string_scope.
Local Open Scope list_scope.
Local Open Scope Z_scope.

(** ** Strings as Python uses them here *)

Module PyStr.

(** [c.lower()] on one ASCII character. *)
Definition lower_ascii (c : ascii) : ascii :=
  let n := nat_of_ascii c in
  if (Nat.leb 65 n && Nat.leb n 90)%bool then ascii_of_nat (n + 32) else c.

(** [s.lower()] *)
Fixpoint lower (s : string) : string :=
  match s with
  | EmptyString => EmptyString
  | String c s' => String (lower_ascii c) (lower s')
  end.

(** [kw in s] : [kw] occurs in [s] as a contiguous substring. *)
Fixpoint contains (kw s : string) : bool :=
  String.prefix kw s ||
  match s with
  | EmptyString => false
  | String _ s' => contains kw s'
  end.

End PyStr.

(** ** health_monitor.py *)

Module Health.

Inductive HealthStatus := HEALTHY | DEGRADED | FAILING | FAILED.

Definition HealthStatus_eqb (a b : HealthStatus) : bool :=
  match a, b with
  | HEALTHY, HEALTHY | DEGRADED, DEGRADED
  | FAILING, FAILING | FAILED, FAILED => true
  | _, _ => false
  end.

Record HealthMetrics := mkMetrics {
  total_requests : Z;
  successful_requests : Z;
  failed_requests : Z;
  consecutive_failures : Z;
  last_success_time : option Z;
  last_failure_time : option Z;
  failure_reasons : list string;
  average_response_time : Q;
  response_times : list Q
}.

(** [HealthMetrics.__init__] *)
Definition new_metrics : HealthMetrics :=
  {| total_requests := 0; successful_requests := 0; failed_requests := 0;
     consecutive_failures := 0; last_success_time := None;
     last_failure_time := None; failure_reasons := [];
     average_response_time := 0; response_times := [] |}.

Inductive EventType := success | failure.

Record Event := mkEvent {
  timestamp : Z;
  type : EventType;
  response_time : Q;
  error_type : option string;
  error_message : option string
}.

(** What [_trigger_alert(alert_type, *args)] hands to every callback. *)
Inductive Alert :=
| critical_failure (error_type error_message : string)
| status_change (previous_status new_status : HealthStatus).

Record TwitterHealthMonitor := mkMonitor {
  metrics : HealthMetrics;
  status : HealthStatus;
  recent_events : list Event
}.

(** Thresholds: assigned once in [__init__], never reassigned. *)
Definition max_consecutive_failures : Z := 5.
Definition min_success_rate : Q := 7 # 10.
Definition degraded_threshold : Q := 85 # 100.
Definition time_window_minutes : Z := 15.

(** [timedelta(minutes=m)] in microseconds. *)
Definition timedelta_minutes (m : Z) : Z := m * 60 * 1000000.

(** [TwitterHealthMonitor.__init__] *)
Definition init : TwitterHealthMonitor :=
  {| metrics := new_metrics; status := HEALTHY; recent_events := [] |}.

Definition set_status (s : HealthStatus) (m : TwitterHealthMonitor) :=
  {| metrics := metrics m; status := s; recent_events := recent_events m |}.

Definition Qltb (x y : Q) : bool := negb (Qle_bool y x).

Definition is_success (e : Event) : bool :=
  match type e with success => true | failure => false end.

Definition is_failure (e : Event) : bool :=
  match type e with success => false | failure => true end.

(** [sum(1 for e in self.recent_events if e['type'] == 'success')] *)
Definition count_successes (evs : list Event) : nat :=
  length (List.filter is_success evs).

Definition count_failures (evs : list Event) : nat :=
  length (List.filter is_failure evs).

(** The first lines of [_update_status]. *)
Definition window_success_rate (m : TwitterHealthMonitor) : Q :=
  match length (recent_events m) with
  | O => 1%Q
  | S n => Z.of_nat (count_successes (recent_events m)) # Pos.of_succ_nat n
  end.

(** [_update_status] *)
Definition update_status (m : TwitterHealthMonitor)
  : TwitterHealthMonitor * list Alert :=
  let rate := window_success_rate m in
  let previous_status := status m in
  if HealthStatus_eqb (status m) FAILED then (m, [])
  else
    let new_status :=
      if max_consecutive_failures <=? consecutive_failures (metrics m)
      then FAILING
      else if Qltb rate min_success_rate then FAILING
      else if Qltb rate degraded_threshold then DEGRADED
      else HEALTHY in
    (set_status new_status m,
     if HealthStatus_eqb new_status previous_status then []
     else [status_change previous_status new_status]).

(** [_record_event]: [now_ev] is the clock read stored in the event,
    [now_cut] the one the cutoff is computed from. *)
Definition record_event (now_ev now_cut : Z) (ty : EventType) (rt : Q)
    (et em : option string) (m : TwitterHealthMonitor) : TwitterHealthMonitor :=
  let event := mkEvent now_ev ty rt et em in
  let cutoff := now_cut - timedelta_minutes time_window_minutes in
  {| metrics := metrics m; status := status m;
     recent_events :=
       List.filter (fun e => cutoff <? timestamp e) (recent_events m ++ [event]) |}.

Definition Qsum (l : list Q) : Q := fold_left Qplus l 0%Q.

(** [l.pop(0)] when [len(l) > cap]. *)
Definition trim {A} (cap : nat) (l : list A) : list A :=
  if Nat.ltb cap (length l) then tl l else l.

(** [record_success(response_time)]; [now_last], [now_ev], [now_cut] are its
    three clock reads. *)
Definition record_success (response_time : Q) (now_last now_ev now_cut : Z)
    (m : TwitterHealthMonitor) : TwitterHealthMonitor * list Alert :=
  let mt := metrics m in
  let rts := trim 100 (response_times mt ++ [response_time]) in
  let mt' :=
    {| total_requests := total_requests mt + 1;
       successful_requests := successful_requests mt + 1;
       failed_requests := failed_requests mt;
       consecutive_failures := 0;
       last_success_time := Some now_last;
       last_failure_time := last_failure_time mt;
       failure_reasons := failure_reasons mt;
       average_response_time := (Qsum rts / inject_Z (Z.of_nat (length rts)))%Q;
       response_times := rts |} in
  let m1 := {| metrics := mt'; status := status m;
               recent_events := recent_events m |} in
  let m2 := record_event now_ev now_cut success response_time None None m1 in
  update_status m2.

Definition critical_keywords : list string :=
  [ "suspended"; "banned"; "locked"; "account not found";
    "authorization failed"; "invalid credentials"; "forbidden"; "403" ].

(** [_is_critical_failure] *)
Definition is_critical_failure (error_type error_message : string) : bool :=
  let error_lower := PyStr.lower (error_type ++ " " ++ error_message)%string in
  existsb (fun keyword => PyStr.contains keyword error_lower) critical_keywords.

(** [record_failure(error_type, error_message)] *)
Definition record_failure (error_type error_message : string)
    (now_last now_ev now_cut : Z) (m : TwitterHealthMonitor)
  : TwitterHealthMonitor * list Alert :=
  let mt := metrics m in
  let mt' :=
    {| total_requests := total_requests mt + 1;
       successful_requests := successful_requests mt;
       failed_requests := failed_requests mt + 1;
       consecutive_failures := consecutive_failures mt + 1;
       last_success_time := last_success_time mt;
       last_failure_time := Some now_last;
       failure_reasons :=
         trim 50 (failure_reasons mt ++ [(error_type ++ ": " ++ error_message)%string]);
       average_response_time := average_response_time mt;
       response_times := response_times mt |} in
  let m1 := {| metrics := mt'; status := status m;
               recent_events := recent_events m |} in
  let m2 := record_event now_ev now_cut failure 0%Q
              (Some error_type) (Some error_message) m1 in
  let '(m3, alerts1) :=
    if is_critical_failure error_type error_message
    then (set_status FAILED m2, [critical_failure error_type error_message])
    else (m2, []) in
  let '(m4, alerts2) := update_status m3 in
  (m4, alerts1 ++ alerts2).

(** [should_failover] *)
Definition should_failover (m : TwitterHealthMonitor) : bool :=
  match status m with
  | FAILING | FAILED => true
  | _ => false
  end.

(** [reset] *)
Definition reset (m : TwitterHealthMonitor) : TwitterHealthMonitor :=
  {| metrics := new_metrics; status := HEALTHY; recent_events := [] |}.

(** The calls a client of the monitor can make that record an outcome. *)
Inductive Op :=
| RecordSuccess (response_time : Q) (now_last now_ev now_cut : Z)
| RecordFailure (error_type error_message : string) (now_last now_ev now_cut : Z).

Definition step (m : TwitterHealthMonitor) (o : Op)
  : TwitterHealthMonitor * list Alert :=
  match o with
  | RecordSuccess rt a b c => record_success rt a b c m
  | RecordFailure et em a b c => record_failure et em a b c m
  end.

(** Runs a sequence of calls, collecting the alerts in emission order. *)
Fixpoint run (m : TwitterHealthMonitor) (ops : list Op)
  : TwitterHealthMonitor * list Alert :=
  match ops with
  | [] => (m, [])
  | o :: ops' =>
      let '(m1, a1) := step m o in
      let '(m2, a2) := run m1 ops' in
      (m2, a1 ++ a2)
  end.

(** The two threshold tests of [_update_status] as the source computes
    them, on IEEE doubles: [successes / len(self.recent_events)] is one
    correctly rounded division, [0.7] and [0.85] are the nearest doubles. *)
Definition float_of_nat (n : nat) : float :=
  PrimFloat.of_uint63 (Uint63.of_Z (Z.of_nat n)).

Local Set Warnings "-inexact-float".
Definition float_tests (successes len : nat) : bool * bool :=
  let rate := PrimFloat.div (float_of_nat successes) (float_of_nat len) in
  (PrimFloat.ltb rate 0.7%float, PrimFloat.ltb rate 0.85%float).
Local Set Warnings "inexact-float".

(** The same two tests on the exact rational, as [update_status] has
    them. *)
Definition rational_tests (successes len : nat) : bool * bool :=
  let rate := Z.of_nat successes # Pos.of_nat len in
  (Qltb rate min_success_rate, Qltb rate degraded_threshold).

Definition same_tests (successes len : nat) : bool :=
  let '(f1, f2) := float_tests successes len in
  let '(r1, r2) := rational_tests successes len in
  Bool.eqb f1 r1 && Bool.eqb f2 r2.

(** All windows of 1 to [bound] events, with every number of successes. *)
Definition tests_agree_upto (bound : nat) : bool :=
  forallb (fun len => forallb (fun successes => same_tests successes len)
                              (seq 0 (S len)))
          (seq 1 bound).

End Health.

(** ** account_pool.py *)

Module Pool.

(** A logged-in [twikit.Client] object, known by its identity only. *)
Definition Client := nat.

Record TwitterAccount := mkAccount {
  username : string;
  email : string;
  password : string;
  client : option Client;
  cookies_path : string;
  is_active : bool;
  is_banned : bool;
  last_used : option Z;
  total_requests : Z;
  failed_requests : Z;
  created_at : Z
}.

(** [TwitterAccount.__init__] *)
Definition new_account (u e p : string) (now : Z) : TwitterAccount :=
  {| username := u; email := e; password := p; client := None;
     cookies_path := ("./cache/cookies_" ++ u ++ ".json")%string;
     is_active := false; is_banned := false; last_used := None;
     total_requests := 0; failed_requests := 0; created_at := now |}.

(** [mark_used] *)
Definition mark_used (now : Z) (a : TwitterAccount) : TwitterAccount :=
  {| username := username a; email := email a; password := password a;
     client := client a; cookies_path := cookies_path a;
     is_active := is_active a; is_banned := is_banned a;
     last_used := Some now;
     total_requests := total_requests a + 1;
     failed_requests := failed_requests a; created_at := created_at a |}.

(** [mark_failed] *)
Definition mark_failed (a : TwitterAccount) : TwitterAccount :=
  {| username := username a; email := email a; password := password a;
     client := client a; cookies_path := cookies_path a;
     is_active := is_active a; is_banned := is_banned a;
     last_used := last_used a;
     total_requests := total_requests a;
     failed_requests := failed_requests a + 1; created_at := created_at a |}.

(** [account.is_banned = True] *)
Definition set_banned (a : TwitterAccount) : TwitterAccount :=
  {| username := username a; email := email a; password := password a;
     client := client a; cookies_path := cookies_path a;
     is_active := is_active a; is_banned := true;
     last_used := last_used a;
     total_requests := total_requests a;
     failed_requests := failed_requests a; created_at := created_at a |}.

(** The double of a Python [int] as the arithmetic of [health_score]
    converts it: the nearest double, which is the integer itself up to
    2^53 in magnitude.  For two integers in that range [a / b] of the
    source, one correctly rounded quotient, is the division of their
    doubles.  The counters and the differences of timestamps in
    microseconds stay far below that bound, and the definition is meant
    for it: from 2^63 on [Uint63.of_Z] wraps around. *)
Definition float_of_int (z : Z) : float :=
  if z <? 0 then PrimFloat.opp (PrimFloat.of_uint63 (Uint63.of_Z (- z)))
  else PrimFloat.of_uint63 (Uint63.of_Z z).

(** [max(0, x)]: the first argument unless the second is greater. *)
Definition max_0 (x : float) : float :=
  if PrimFloat.ltb 0%float x then x else 0%float.

(** [min(1.0, x)]: the first argument unless the second is smaller. *)
Definition min_1 (x : float) : float :=
  if PrimFloat.ltb x 1%float then x else 1%float.

(** [success_rate] *)
Definition success_rate (a : TwitterAccount) : float :=
  if total_requests a =? 0 then 1%float
  else PrimFloat.sub 1%float
         (PrimFloat.div (float_of_int (failed_requests a))
                        (float_of_int (total_requests a))).

(** [(now - last_used).total_seconds() / 3600]; [total_seconds()] divides
    the microseconds of the difference by [10**6]. *)
Definition hours_between (now t : Z) : float :=
  PrimFloat.div (PrimFloat.div (float_of_int (now - t)) 1000000%float)
                3600%float.

Local Set Warnings "-inexact-float".
(** [health_score]; [now] is its clock read. *)
Definition health_score (now : Z) (a : TwitterAccount) : float :=
  if is_banned a then 0%float
  else
    let success_score := success_rate a in
    let usage_score :=
      if total_requests a =? 0 then 1%float
      else max_0 (PrimFloat.sub 1%float
                    (PrimFloat.div (float_of_int (total_requests a))
                                   1000%float)) in
    let recency_score :=
      match last_used a with
      | Some t => min_1 (PrimFloat.div (hours_between now t) 24%float)
      | None => 1%float
      end in
    PrimFloat.add
      (PrimFloat.add (PrimFloat.mul success_score 0.5%float)
                     (PrimFloat.mul usage_score 0.3%float))
      (PrimFloat.mul recency_score 0.2%float).
Local Set Warnings "inexact-float".

(** The pool.  An account is a mutable object shared between the list and
    the [current_account] reference: the reference is the index of the
    account in [accounts] (accounts are appended, never removed), and a
    write through it is a write into the list. *)
Record AccountPool := mkPool {
  accounts : list TwitterAccount;
  current_account : option nat;
  min_rest_minutes : Z
}.

(** [AccountPool.__init__] *)
Definition empty_pool : AccountPool :=
  {| accounts := []; current_account := None; min_rest_minutes := 30 |}.

(** [add_account] *)
Definition add_account (u e p : string) (now : Z) (pl : AccountPool)
  : AccountPool :=
  {| accounts := accounts pl ++ [new_account u e p now];
     current_account := current_account pl;
     min_rest_minutes := min_rest_minutes pl |}.

Definition usable (a : TwitterAccount) : bool :=
  is_active a && negb (is_banned a).

(** [[acc for acc in self.accounts if acc.is_active and not acc.is_banned]],
    every account with its index. *)
Definition available (accs : list TwitterAccount)
  : list (nat * TwitterAccount) :=
  List.filter (fun ia => usable (snd ia)) (imap (fun i a => (i, a)) accs).

(** [list.sort(key=..., reverse=True)] on the list of (key, value) pairs:
    descending by key, and stable (equal keys keep their order).  The keys
    are doubles and the sort compares them with [<]; the order of the
    result is determined by the keys when none of them is a NaN. *)
Fixpoint insert_desc {A} (x : float * A) (l : list (float * A))
  : list (float * A) :=
  match l with
  | [] => [x]
  | y :: l' =>
      if PrimFloat.ltb (fst x) (fst y) then y :: insert_desc x l' else x :: l
  end.

Definition sort_desc {A} (l : list (float * A)) : list (float * A) :=
  fold_right insert_desc [] l.

(** [_select_best_account]; [clk i] is the clock read of the [health_score]
    that the sort evaluates as the key of [accounts[i]]. *)
Definition select_best_account (clk : nat -> Z) (pl : AccountPool)
  : option nat :=
  let avail := available (accounts pl) in
  match sort_desc (map (fun ia => (health_score (clk (fst ia)) (snd ia), fst ia))
                       avail) with
  | [] => None
  | best :: _ => Some (snd best)
  end.

Definition set_current (c : option nat) (pl : AccountPool) : AccountPool :=
  {| accounts := accounts pl; current_account := c;
     min_rest_minutes := min_rest_minutes pl |}.

Definition update_account (f : TwitterAccount -> TwitterAccount) (i : nat)
    (pl : AccountPool) : AccountPool :=
  {| accounts := alter f i (accounts pl);
     current_account := current_account pl;
     min_rest_minutes := min_rest_minutes pl |}.

Definition option_nat_eqb (a b : option nat) : bool :=
  match a, b with
  | Some x, Some y => Nat.eqb x y
  | None, None => true
  | _, _ => false
  end.

(** The first step of [rotate_account]:
    [if self.current_account and reason != "manual":
        self.current_account.is_banned = True] *)
Definition mark_current_issues (reason : string) (pl : AccountPool)
  : AccountPool :=
  match current_account pl with
  | Some i =>
      if negb (String.eqb reason "manual")
      then update_account set_banned i pl else pl
  | None => pl
  end.

(** [rotate_account(reason)]: works on the pool and on the global
    [health_monitor]; returns the boolean it reports. *)
Definition rotate_account (reason : string) (clk : nat -> Z)
    (pl : AccountPool) (hm : Health.TwitterHealthMonitor)
  : bool * AccountPool * Health.TwitterHealthMonitor :=
  let pl1 := mark_current_issues reason pl in
  match select_best_account clk pl1 with
  | None => (false, pl1, hm)
  | Some j =>
      if option_nat_eqb (Some j) (current_account pl1)
      then (false, pl1, hm)
      else (true, set_current (Some j) pl1, Health.reset hm)
  end.

(** [get_current_client] *)
Definition get_current_client (now : Z) (pl : AccountPool)
  : option Client * AccountPool :=
  match current_account pl with
  | None => (None, pl)
  | Some i =>
      match accounts pl !! i with
      | Some a => (client a, update_account (mark_used now) i pl)
      | None => (None, pl)
      end
  end.

(** [mark_current_failed] *)
Definition mark_current_failed (pl : AccountPool) : AccountPool :=
  match current_account pl with
  | Some i => update_account mark_failed i pl
  | None => pl
  end.

End Pool.

(** ** unified_twitter_client.py *)

Module Unified.

Import Health.

(** An exception, as the handler of [search_token] sees it:
    [type(e).__name__] and [str(e)]. *)
Record Exn := mkExn { exn_type : string; exn_msg : string }.

(** How a call ends.  [OutOfFuel] is not a Python outcome: it marks a run
    whose recursion did not end within the fuel given to it. *)
Inductive outcome (A : Type) :=
| Ok (a : A)
| Raise (e : Exn)
| OutOfFuel.
Arguments Ok {A} a.
Arguments Raise {A} e.
Arguments OutOfFuel {A}.

(** How a call to a provider ends. *)
Inductive result (A : Type) :=
| Returns (a : A)
| Raises (e : Exn).
Arguments Returns {A} a.
Arguments Raises {A} e.

Definition outcome_of {A} (r : result A) : outcome A :=
  match r with
  | Returns a => Ok a
  | Raises e => Raise e
  end.

(** The attributes of a tweet that [search_token] reads. *)
Record User := mkUser { screen_name : string; followers_count : Z }.
Record Tweet := mkTweet {
  tweet_id : string;
  text : option string;
  created_at : option Z;
  favorite_count : option Z;
  retweet_count : option Z;
  user : option User
}.

Record KolMention := mkKol {
  kol_username : string; kol_followers : Z; kol_text : string }.
Record TopTweet := mkTop {
  top_text : string; top_author : string; top_engagement : Z; top_url : string }.

(** The result dict of a search. [source] and [error] are keys that may be
    absent. *)
Record SearchResult := mkResult {
  mention_count : Z;
  unique_authors : Z;
  engagement : Z;
  sentiment : string;
  sentiment_score : Z;
  kol_mentions : list KolMention;
  top_tweets : list TopTweet;
  source : option string;
  error : option string
}.

(** [result['source'] = s] *)
Definition set_source (s : string) (r : SearchResult) : SearchResult :=
  {| mention_count := mention_count r; unique_authors := unique_authors r;
     engagement := engagement r; sentiment := sentiment r;
     sentiment_score := sentiment_score r; kol_mentions := kol_mentions r;
     top_tweets := top_tweets r; source := Some s; error := error r |}.

(** The alert dict built by [UnifiedTwitterClient._trigger_alert]. *)
Record ClientAlert := mkAlert {
  alert_timestamp : Z;
  alert_type : string;
  alert_message : string;
  alert_health_status : HealthStatus;
  alert_using_grok : bool
}.

(** What the request handler works on: the module-level singletons
    [health_monitor], [account_pool], [grok_client.logged_in], and the fields
    of the client.  [alerts] is the sequence of alert dicts handed to
    [self.alert_callbacks], oldest first; [tasks] the reasons of the
    [rotate_account] coroutines scheduled with [asyncio.create_task] that
    have not run yet (they run when the event loop next gets control);
    [ticks] counts the clock reads made so far. *)
Record World := mkWorld {
  hm : TwitterHealthMonitor;
  pool : Pool.AccountPool;
  grok_logged_in : bool;
  use_grok : bool;
  cache : gmap string SearchResult;
  alerts : list ClientAlert;
  tasks : list string;
  ticks : nat
}.

(** The collaborators outside the module: the system clock ([clock n] is
    the value of the n-th read), the scraping provider
    ([client.search_tweet(query, product='Latest', count=20)]), the fallback
    provider ([grok_client.search_token]), and the tweet heuristics of
    [_analyze_tweets] on a non-empty list. *)
Record Env := mkEnv {
  clock : nat -> Z;
  search_tweet : Pool.Client -> string -> result (list Tweet);
  grok_search_token : list string -> Z -> result SearchResult;
  analyze_nonempty : list Tweet -> SearchResult
}.

(** State and exceptions: the state survives a raise, as in Python. *)
Definition M (A : Type) : Type := World -> outcome A * World.

#[global] Instance M_ret : MRet M := fun A a w => (Ok a, w).
#[global] Instance M_bind : MBind M := fun A B k c w =>
  match c w with
  | (Ok a, w') => k a w'
  | (Raise e, w') => (Raise e, w')
  | (OutOfFuel, w') => (OutOfFuel, w')
  end.

Definition ret {A} (a : A) : M A := mret a.
Definition raise {A} (e : Exn) : M A := fun w => (Raise e, w).

(** [try: c  except Exception as e: h e] *)
Definition try_except {A} (c : M A) (h : Exn -> M A) : M A :=
  fun w =>
    match c w with
    | (Raise e, w') => h e w'
    | r => r
    end.

Definition lift {A} (o : outcome A) : M A := fun w => (o, w).
Definition await {A} (r : result A) : M A := lift (outcome_of r).
Definition get {A} (f : World -> A) : M A := fun w => (Ok (f w), w).
Definition modify (f : World -> World) : M unit := fun w => (Ok tt, f w).


Definition with_hm (m : TwitterHealthMonitor) (w : World) : World :=
  mkWorld m (pool w) (grok_logged_in w) (use_grok w) (cache w) (alerts w)
          (tasks w) (ticks w).
Definition with_pool (p : Pool.AccountPool) (w : World) : World :=
  mkWorld (hm w) p (grok_logged_in w) (use_grok w) (cache w) (alerts w)
          (tasks w) (ticks w).
Definition with_use_grok (b : bool) (w : World) : World :=
  mkWorld (hm w) (pool w) (grok_logged_in w) b (cache w) (alerts w)
          (tasks w) (ticks w).
Definition with_cache (c : gmap string SearchResult) (w : World) : World :=
  mkWorld (hm w) (pool w) (grok_logged_in w) (use_grok w) c (alerts w)
          (tasks w) (ticks w).
Definition push_alert (a : ClientAlert) (w : World) : World :=
  mkWorld (hm w) (pool w) (grok_logged_in w) (use_grok w) (cache w)
          (alerts w ++ [a]) (tasks w) (ticks w).
Definition push_task (reason : string) (w : World) : World :=
  mkWorld (hm w) (pool w) (grok_logged_in w) (use_grok w) (cache w)
          (alerts w) (tasks w ++ [reason]) (ticks w).
Definition tick (w : World) : World :=
  mkWorld (hm w) (pool w) (grok_logged_in w) (use_grok w) (cache w)
          (alerts w) (tasks w) (S (ticks w)).

(** [UnifiedTwitterClient.__init__] with the singletons as they are when
    the modules are loaded; [grok] is [bool(XAI_API_KEY)]. *)
Definition init_world (grok : bool) : World :=
  mkWorld Health.init Pool.empty_pool grok false ∅ [] [] 0.

Section WithEnv.

Variable E : Env.

(** [datetime.now()] / [time.time()]: one read of the clock. *)
Definition now : M Z :=
  fun w => (Ok (clock E (ticks w)), tick w).

(** [HealthStatus.value] *)
Definition status_value (s : HealthStatus) : string :=
  match s with
  | HEALTHY => "healthy" | DEGRADED => "degraded"
  | FAILING => "failing" | FAILED => "failed"
  end.

(** [_trigger_alert(alert_type, message)] *)
Definition trigger_alert (ty msg : string) : M unit :=
  timestamp ← now;
  st ← get (fun w => status (hm w));
  ug ← get use_grok;
  modify (push_alert (mkAlert timestamp ty msg st ug)).

(** [_switch_to_grok(reason)] *)
Definition switch_to_grok (reason : string) : M unit :=
  ug ← get use_grok;
  if ug : bool then ret tt
  else
    li ← get grok_logged_in;
    if negb li then
      trigger_alert "failover_failed"
        "❌ 无法切换到Grok! API密钥未配置. 系统将继续尝试Twikit."
    else
      modify (with_use_grok true);;
      trigger_alert "switched_to_grok"
        ("✅ 已切换到Grok API备用方案. 原因: " ++ reason)%string.

(** [_switch_to_twikit] *)
Definition switch_to_twikit : M unit :=
  ug ← get use_grok;
  if negb ug then ret tt
  else
    modify (with_use_grok false);;
    modify (fun w => with_hm (Health.reset (hm w)) w);;
    trigger_alert "switched_to_twikit" "✅ 已恢复使用Twikit (免费方案)".

(** [_on_health_alert]: the callback the client registers with the monitor. *)
Definition on_health_alert (a : Health.Alert) : M unit :=
  match a with
  | critical_failure error_type error_message =>
      trigger_alert "twikit_critical_failure"
        ("⛔ Twikit账号可能被封: " ++ error_type ++ " - " ++ error_message
         ++ ". 切换到Grok备用方案!")%string;;
      switch_to_grok "账号被封或严重错误"
  | status_change old_status new_status =>
      match new_status with
      | FAILING =>
          trigger_alert "twikit_degraded"
            ("⚠️ Twikit服务状态变差: " ++ status_value old_status ++ " → "
             ++ status_value new_status ++ ". 考虑账号轮换或切换Grok.")%string;;
          ug ← get use_grok;
          if negb ug then modify (push_task "health_degraded") else ret tt
      | FAILED =>
          trigger_alert "twikit_failed"
            "🚨 Twikit完全失效! 自动切换到Grok API.";;
          switch_to_grok "健康检查失败"
      | _ => ret tt
      end
  end.

(** The monitor's [_trigger_alert] calls the registered callback for each
    alert, in emission order.  The callback never writes to the monitor and
    every alert is emitted after the monitor's last write to [status] and
    after its clock reads, so running the callbacks once the monitor's
    operation has returned gives the same final state. *)
Fixpoint dispatch (l : list Health.Alert) : M unit :=
  match l with
  | [] => ret tt
  | a :: l' => on_health_alert a;; dispatch l'
  end.

(** [health_monitor.record_success(response_time)] *)
Definition record_success (response_time : Q) : M unit :=
  t1 ← now; t2 ← now; t3 ← now;
  m ← get hm;
  let '(m', al) := Health.record_success response_time t1 t2 t3 m in
  modify (with_hm m');;
  dispatch al.

(** [health_monitor.record_failure(error_type, error_message)] *)
Definition record_failure (error_type error_message : string) : M unit :=
  t1 ← now; t2 ← now; t3 ← now;
  m ← get hm;
  let '(m', al) := Health.record_failure error_type error_message t1 t2 t3 m in
  modify (with_hm m');;
  dispatch al.

(** [account_pool.get_current_client()] *)
Definition get_current_client : M (option Pool.Client) :=
  t ← now;
  p ← get pool;
  let '(c, p') := Pool.get_current_client t p in
  modify (with_pool p');;
  ret c.

(** [_analyze_tweets]: the empty case is the source's; the heuristics on a
    non-empty list belong to the environment. *)
Definition analyze_tweets (tweets : list Tweet) : SearchResult :=
  match tweets with
  | [] =>
      {| mention_count := 0; unique_authors := 0; engagement := 0;
         sentiment := "neutral"; sentiment_score := 0; kol_mentions := [];
         top_tweets := []; source := None; error := None |}
  | _ => analyze_nonempty E tweets
  end.

(** The module imports [datetime] alone from [datetime]; the name
    [timedelta] is not bound in it, and evaluating it raises [NameError]. *)
Definition timedelta (minutes : Z) : M Z :=
  raise (mkExn "NameError" "name 'timedelta' is not defined").

(** The body of the [try] inside the loop over the queries: the tweets this
    query adds to [all_tweets]. *)
Definition search_query (c : Pool.Client) (timeframe_minutes : Z)
    (query : string) : M (list Tweet) :=
  tweets ← await (search_tweet E c query);
  t ← now;
  d ← timedelta timeframe_minutes;
  let cutoff_time := t - d in
  ret (List.filter
         (fun tw => match created_at tw with
                    | Some ct => cutoff_time <? ct
                    | None => false
                    end) tweets).

(** [for query in queries: try: ... except Exception as e: logger.warning] *)
Fixpoint search_queries (c : Pool.Client) (timeframe_minutes : Z)
    (queries : list string) (all_tweets : list Tweet) : M (list Tweet) :=
  match queries with
  | [] => ret all_tweets
  | query :: rest =>
      all_tweets1 ←
        try_except
          (found ← search_query c timeframe_minutes query;
           ret (all_tweets ++ found))
          (fun _ => ret all_tweets);
      search_queries c timeframe_minutes rest all_tweets1
  end.

(** [sorted(queries)] *)
Fixpoint insert_str (x : string) (l : list string) : list string :=
  match l with
  | [] => [x]
  | y :: l' => if String.leb x y then x :: l else y :: insert_str x l'
  end.
Definition sorted (l : list string) : list string :=
  fold_right insert_str [] l.

(** [f"search:{':'.join(sorted(queries))}:{timeframe_minutes}"] *)
Definition cache_key (queries : list string) (timeframe_minutes : Z)
  : string :=
  ("search:" ++ String.concat ":" (sorted queries) ++ ":"
   ++ pretty timeframe_minutes)%string.

(** The [try] block of [search_token]. *)
Definition attempt (key : string) (queries : list string)
    (timeframe_minutes : Z) (start_time : Z) : M SearchResult :=
  ug ← get use_grok;
  result ←
    (if ug : bool then
       r ← await (grok_search_token E queries timeframe_minutes);
       ret (set_source "grok_api" r)
     else
       client ← get_current_client;
       match client with
       | None => raise (mkExn "Exception" "No available Twikit accounts")
       | Some c =>
           all_tweets ← search_queries c timeframe_minutes queries [];
           ret (set_source "twikit" (analyze_tweets all_tweets))
       end);
  end_time ← now;
  record_success (inject_Z (end_time - start_time) / inject_Z 1000000)%Q;;
  modify (fun w => with_cache (<[key := result]> (cache w)) w);;
  ret result.

(** The [except Exception as e] block of [search_token]; [retry] is the
    recursive call [self.search_token(queries, timeframe_minutes)]. *)
Definition handle_failure (retry : M SearchResult) (e : Exn)
  : M SearchResult :=
  record_failure (exn_type e) (exn_msg e);;
  modify (fun w => with_pool (Pool.mark_current_failed (pool w)) w);;
  sf ← get (fun w => should_failover (hm w));
  ug ← get use_grok;
  if sf && negb ug then
    switch_to_grok ("连续失败: " ++ exn_type e)%string;;
    retry
  else raise e.

(** [search_token(queries, timeframe_minutes)].  [fuel] bounds the depth of
    the recursion. *)
Fixpoint search_token (fuel : nat) (queries : list string)
    (timeframe_minutes : Z) : M SearchResult :=
  match fuel with
  | O => lift OutOfFuel
  | S fuel' =>
      let key := cache_key queries timeframe_minutes in
      cached ← get (fun w => cache w !! key);
      match cached with
      | Some r => ret r
      | None =>
          start_time ← now;
          try_except
            (attempt key queries timeframe_minutes start_time)
            (handle_failure (search_token fuel' queries timeframe_minutes))
      end
  end.

(** A scheduled [rotate_account(reason)] coroutine, run by the event loop:
    it has no [await] inside and runs to its end at once. *)
Definition run_task (clk : nat -> Z) (reason : string) : M bool :=
  p ← get pool;
  m ← get hm;
  let '(ok, p', m') := Pool.rotate_account reason clk p m in
  modify (with_pool p');;
  modify (with_hm m');;
  ret ok.

End WithEnv.

End Unified.

(** ** The claims' own words *)

Module Spec.
Import Health.
Definition claimed_keywords : list string :=
  [ "suspended"; "banned"; "locked"; "account-not-found";
    "authorization-failed"; "invalid-credentials"; "forbidden"; "403" ].
(** A failure that the monitor does not classify as critical. *)
Definition noncritical_failure (o : Op) : Prop :=
  match o with
  | RecordFailure et em _ _ _ => is_critical_failure et em = false
  | RecordSuccess _ _ _ _ => False
  end.

Definition announces_failed (a : Alert) : Prop :=
  exists old, a = status_change old FAILED.
End Spec.

(** ** Notions the properties are stated with *)

Module Aux.

Import Health Unified.

(** Pairs of an index and an account, by index. *)
Definition by_index (x y : nat * Pool.TwitterAccount) : Prop := (fst x < fst y)%nat.


(** What the alert handling may change besides the monitor: nothing of the
    pool, the cache or the fallback's configuration; the provider flag only
    when the fallback is configured; the alert log only by appending alerts
    other than twikit_failed. *)
Definition frame (w w' : World) : Prop :=
  pool w' = pool w /\
  grok_logged_in w' = grok_logged_in w /\
  cache w' = cache w /\
  (grok_logged_in w = false -> use_grok w' = use_grok w) /\
  exists l, alerts w' = alerts w ++ l /\
            Forall (fun x => alert_type x <> "twikit_failed") l.

(** Two worlds that differ by the number of clock reads at most. *)
Definition only_ticks (w w' : World) : Prop :=
  hm w' = hm w /\ pool w' = pool w /\
  grok_logged_in w' = grok_logged_in w /\ use_grok w' = use_grok w /\
  cache w' = cache w /\ alerts w' = alerts w /\ tasks w' = tasks w.

(** The three clock reads of a monitor call made at world [w]. *)
Definition reads (E : Env) (w : World) : Z * Z * Z :=
  (clock E (ticks w), clock E (S (ticks w)), clock E (S (S (ticks w)))).


(** Case analysis on the comparisons of exponents and mantissas that the
    comparison of two doubles is made of. *)
Ltac sf_cases :=
  repeat match goal with
  | |- context [Z.compare ?a ?b] => destruct (Z.compare_spec a b)
  | |- context [Pos.compare_cont Eq ?a ?b] =>
      change (Pos.compare_cont Eq a b) with (Pos.compare a b);
      destruct (Pos.compare_spec a b)
  end.

Ltac frame_alerts :=
  first
    [ exists []; split; [simpl; now rewrite app_nil_r | constructor]
    | eexists; split;
      [ simpl; rewrite <- ?app_assoc; reflexivity
      | repeat constructor; discriminate ] ].

Ltac frame_done :=
  simpl; repeat split; try discriminate; try reflexivity; try frame_alerts.

End Aux.

(** ** Inputs the properties are evaluated at *)

Module Scenario.

Import Health Unified.

(** One read of the clock per millisecond. *)
Definition steady_clock (n : nat) : Z := 1000 * Z.of_nat n.

(** An identity that is logged in, holding the client object 7. *)
Definition alice : Pool.TwitterAccount :=
  Pool.mkAccount "alice" "alice@example.org" "pw" (Some 7%nat)
    "./cache/cookies_alice.json" true false None 0 0 0.

Definition one_account_pool : Pool.AccountPool :=
  Pool.mkPool [alice] (Some 0%nat) 30.

(** A service that has just started with [alice] as current identity;
    [grok] tells whether the fallback has its API key. *)
Definition started (grok : bool) : World :=
  mkWorld Health.init one_account_pool grok false ∅ [] [] 0.

Definition grok_result : SearchResult :=
  mkResult 12 9 340 "positive" 4 [] [] None None.

Definition a_tweet : Tweet :=
  mkTweet "1" (Some "to the moon") (Some 0) (Some 3) (Some 1)
    (Some (mkUser "bob" 20000)).

(** Heuristics standing for [_analyze_tweets] on a non-empty list. *)
Definition count_mentions (tweets : list Tweet) : SearchResult :=
  mkResult (Z.of_nat (length tweets)) 0 0 "neutral" 0 [] [] None None.

Definition suspended : Exn :=
  mkExn "Forbidden" "403 Forbidden: account suspended".

(** The scraping provider answers every search with the error of a
    suspended account; the fallback works. *)
Definition env_suspended : Env :=
  mkEnv steady_clock (fun _ _ => Raises suspended)
        (fun _ _ => Returns grok_result) count_mentions.

(** The scraping provider is rate limited on the query "$TKN" and returns
    a tweet for any other query. *)
Definition env_rate_limited : Env :=
  mkEnv steady_clock
        (fun _ query =>
           if String.eqb query "$TKN"
           then Raises (mkExn "TooManyRequests" "Rate limit exceeded")
           else Returns [a_tweet])
        (fun _ _ => Returns grok_result) count_mentions.

(** The result [_analyze_tweets([])] tagged by the scraping path. *)
Definition neutral_twikit : SearchResult :=
  mkResult 0 0 0 "neutral" 0 [] [] (Some "twikit") None.


(** An identity never used. *)
Definition fresh_identity : Pool.TwitterAccount :=
  Pool.mkAccount "fresh" "fresh@example.org" "pw" (Some 0%nat)
    "./cache/cookies_fresh.json" true false None 0 0 0.

(** Two days after the epoch of the timestamps. *)
Definition two_days : Z := 172800000000.

(** Identities whose health scores are close: 50 requests with 2 failures,
    and 100 requests with 1 failure, all last used at the epoch.  Two days
    later the first one scores 0.96499999999999986 and the other ones
    0.96500000000000008. *)
Definition light_identity : Pool.TwitterAccount :=
  Pool.mkAccount "light" "light@example.org" "pw" (Some 2%nat)
    "./cache/cookies_light.json" true false (Some 0) 50 2 0.

Definition steady_identity (u : string) : Pool.TwitterAccount :=
  Pool.mkAccount u "steady@example.org" "pw" (Some 3%nat)
    "./cache/cookies_steady.json" true false (Some 0) 100 1 0.

Definition close_scores_pool : Pool.AccountPool :=
  Pool.mkPool [light_identity; steady_identity "s"; steady_identity "t"]
              None 30.

(** Two usable identities, the first one current. *)
Definition used_identity : Pool.TwitterAccount :=
  Pool.mkAccount "a" "a@example.org" "pw" (Some 4%nat)
    "./cache/cookies_a.json" true false (Some 0) 10 1 0.

Definition two_accounts_pool : Pool.AccountPool :=
  Pool.mkPool [used_identity; fresh_identity] (Some 0%nat) 30.

(** One usable identity, current, and one that never logged in. *)
Definition offline_identity : Pool.TwitterAccount :=
  Pool.mkAccount "b" "b@example.org" "pw" None
    "./cache/cookies_b.json" false false None 0 0 0.

Definition last_account_pool : Pool.AccountPool :=
  Pool.mkPool [used_identity; offline_identity] (Some 0%nat) 30.

End Scenario.

(** ** More of the three modules and of their callers *)

(** *** health_monitor.py: the derived rates of [HealthMetrics] *)

Module HealthRates.

Import Health.

(** [HealthMetrics.success_rate] *)
Definition success_rate (mt : HealthMetrics) : Q :=
  if total_requests mt =? 0 then 1%Q
  else (inject_Z (successful_requests mt) / inject_Z (total_requests mt))%Q.

(** [HealthMetrics.failure_rate] *)
Definition failure_rate (mt : HealthMetrics) : Q :=
  (1 - success_rate mt)%Q.

End HealthRates.

(** *** account_pool.py: login and initialisation *)

Module PoolLogin.

Import Pool.

Definition ban_keywords : list string :=
  [ "suspended"; "banned"; "locked"; "forbidden"; "authorization" ].

(** [_check_if_banned] *)
Definition check_if_banned (error_message : string) : bool :=
  existsb (fun keyword => PyStr.contains keyword (PyStr.lower error_message))
          ban_keywords.

(** What the calls that [login] makes outside the module answer, for one
    account: [os.path.exists(self.cookies_path)],
    [self.client.load_cookies], [self.client.login],
    [self.client.save_cookies]. *)
Record Authenticator := mkAuth {
  cookies_exist : bool;
  load_cookies : Unified.result unit;
  client_login : Unified.result unit;
  save_cookies : Unified.result unit
}.

Definition set_client (c : Client) (a : TwitterAccount) : TwitterAccount :=
  {| username := username a; email := email a; password := password a;
     client := Some c; cookies_path := cookies_path a;
     is_active := is_active a; is_banned := is_banned a;
     last_used := last_used a; total_requests := total_requests a;
     failed_requests := failed_requests a; created_at := created_at a |}.

Definition set_active (a : TwitterAccount) : TwitterAccount :=
  {| username := username a; email := email a; password := password a;
     client := client a; cookies_path := cookies_path a;
     is_active := true; is_banned := is_banned a;
     last_used := last_used a; total_requests := total_requests a;
     failed_requests := failed_requests a; created_at := created_at a |}.

Definition set_is_banned (b : bool) (a : TwitterAccount) : TwitterAccount :=
  {| username := username a; email := email a; password := password a;
     client := client a; cookies_path := cookies_path a;
     is_active := is_active a; is_banned := b;
     last_used := last_used a; total_requests := total_requests a;
     failed_requests := failed_requests a; created_at := created_at a |}.

(** [login]; [c] is the object that [Client('en-US')] creates.  The result
    is the boolean returned and the account as [login] leaves it. *)
Definition login (c : Client) (auth : Authenticator) (a : TwitterAccount)
  : bool * TwitterAccount :=
  let a1 := set_client c a in
  let failed (e : Unified.Exn) :=
    (false, set_is_banned (check_if_banned (Unified.exn_msg e)) a1) in
  let fresh_login :=
    match client_login auth with
    | Unified.Raises e => failed e
    | Unified.Returns _ =>
        match save_cookies auth with
        | Unified.Raises e => failed e
        | Unified.Returns _ => (true, set_active a1)
        end
    end in
  if cookies_exist auth then
    match load_cookies auth with
    | Unified.Returns _ => (true, set_active a1)
    | Unified.Raises _ => fresh_login
    end
  else fresh_login.

(** [AccountPool.initialize]: logs every account in, in order, then selects
    the current one.  [mk i] is the client object created for
    [accounts[i]], [auth i] what the outside answers for it. *)
Definition initialize (mk : nat -> Client) (auth : nat -> Authenticator)
    (clk : nat -> Z) (pl : AccountPool) : AccountPool :=
  let pl1 :=
    {| accounts := imap (fun i a => snd (login (mk i) (auth i) a)) (accounts pl);
       current_account := current_account pl;
       min_rest_minutes := min_rest_minutes pl |} in
  set_current (select_best_account clk pl1) pl1.

End PoolLogin.

(** *** grok_client.py and unified_twitter_client.py: [validate_signal] *)

Module Validate.

Import Unified.

(** The dict that [validate_signal] returns.  [twitter_data] is [None] for
    the empty dict of the error case; [validation_source] is the key
    ['source']. *)
Record Validation := mkValidation {
  credibility_score : Z;
  verified : bool;
  reasons : list string;
  twitter_data : option SearchResult;
  validation_source : string
}.

(** [twitter_data['kol_mentions'][0]['username']], read only where the list
    is known not to be empty. *)
Definition first_kol_username (d : SearchResult) : string :=
  match kol_mentions d with
  | k :: _ => kol_username k
  | [] => ""
  end.

(** [GrokClient.validate_signal], lines 175-212: the score and the reasons
    before the cap. *)
Definition grok_credibility (twitter_data : SearchResult) : Z * list string :=
  let credibility_score := 0 in
  let reasons : list string := [] in
  (* Twitter activity score (max 40 points) *)
  let '(credibility_score, reasons) :=
    if 20 <=? mention_count twitter_data then
      (credibility_score + 40,
       reasons ++ [("High Twitter activity ("
                    ++ pretty (mention_count twitter_data) ++ " mentions)")%string])
    else if 10 <=? mention_count twitter_data then
      (credibility_score + 25,
       reasons ++ [("Moderate Twitter activity ("
                    ++ pretty (mention_count twitter_data) ++ " mentions)")%string])
    else if 5 <=? mention_count twitter_data then
      (credibility_score + 15,
       reasons ++ [("Some Twitter activity ("
                    ++ pretty (mention_count twitter_data) ++ " mentions)")%string])
    else (credibility_score, reasons) in
  (* KOL mentions (max 30 points) *)
  let kol_count := length (kol_mentions twitter_data) in
  let '(credibility_score, reasons) :=
    if (3 <=? kol_count)%nat then
      (credibility_score + 30,
       reasons ++ [("Multiple KOL mentions (" ++ pretty kol_count ++ " KOLs)")%string])
    else if (1 <=? kol_count)%nat then
      (credibility_score + 20,
       reasons ++ [("KOL mentioned: " ++ first_kol_username twitter_data)%string])
    else (credibility_score, reasons) in
  (* Engagement (max 20 points) *)
  let '(credibility_score, reasons) :=
    if 1000 <=? engagement twitter_data then
      (credibility_score + 20,
       reasons ++ [("High engagement (" ++ pretty (engagement twitter_data) ++ ")")%string])
    else if 500 <=? engagement twitter_data then
      (credibility_score + 15,
       reasons ++ [("Good engagement (" ++ pretty (engagement twitter_data) ++ ")")%string])
    else (credibility_score, reasons) in
  (* Sentiment (max 10 points) *)
  if String.eqb (sentiment twitter_data) "positive" then
    (credibility_score + 10, reasons ++ ["Positive sentiment"])
  else if String.eqb (sentiment twitter_data) "neutral" then
    (credibility_score + 5, reasons)
  else (credibility_score, reasons).

(** [UnifiedTwitterClient.validate_signal], lines 244-263: the score and the
    reasons of the scraping path before the cap. *)
Definition twikit_credibility (twitter_data : SearchResult) : Z * list string :=
  let credibility_score := 0 in
  let reasons : list string := [] in
  let '(credibility_score, reasons) :=
    if 20 <=? mention_count twitter_data then
      (credibility_score + 40,
       reasons ++ [("High Twitter activity ("
                    ++ pretty (mention_count twitter_data) ++ " mentions)")%string])
    else if 10 <=? mention_count twitter_data then
      (credibility_score + 25, reasons)
    else (credibility_score, reasons) in
  let kol_count := length (kol_mentions twitter_data) in
  let credibility_score :=
    if (3 <=? kol_count)%nat then credibility_score + 30
    else if (1 <=? kol_count)%nat then credibility_score + 20
    else credibility_score in
  let credibility_score :=
    if 1000 <=? engagement twitter_data then credibility_score + 20
    else credibility_score in
  let credibility_score :=
    if String.eqb (sentiment twitter_data) "positive" then credibility_score + 10
    else credibility_score in
  (credibility_score, reasons).

(** The dict built from a score, its reasons and the data. *)
Definition validation (scored : Z * list string) (twitter_data : SearchResult)
    (src : string) : Validation :=
  {| credibility_score := Z.min (fst scored) 100;
     verified := 50 <=? fst scored;
     reasons := snd scored;
     twitter_data := Some twitter_data;
     validation_source := src |}.

Section WithEnv.

Variable E : Env.

(** [GrokClient.search_token] as [GrokClient.validate_signal] calls it: it
    raises when the key is missing.  [api_key] is set wherever [logged_in]
    is ([GrokClient.__init__], [UnifiedTwitterClient.initialize]), so the
    flag stands for the key. *)
Definition grok_client_search_token (queries : list string)
    (timeframe_minutes : Z) : M SearchResult :=
  logged_in ← get grok_logged_in;
  if logged_in : bool then await (grok_search_token E queries timeframe_minutes)
  else raise (mkExn "Exception" "XAI_API_KEY not configured").

(** [GrokClient.validate_signal] *)
Definition grok_validate_signal (token_ca token_symbol tg_mention_time : string)
  : M Validation :=
  try_except
    (twitter_data ←
       grok_client_search_token [("$" ++ token_symbol)%string; token_ca] 15;
     ret (validation (grok_credibility twitter_data) twitter_data "grok_api"))
    (fun e =>
       ret {| credibility_score := 0; verified := false;
              reasons := [("Grok API error: " ++ exn_msg e)%string];
              twitter_data := None; validation_source := "grok_api" |}).

(** [UnifiedTwitterClient.validate_signal]; [fuel] bounds the recursion of
    the [search_token] it calls. *)
Definition validate_signal (fuel : nat)
    (token_ca token_symbol tg_mention_time : string) : M Validation :=
  try_except
    (ug ← get use_grok;
     if ug : bool then
       grok_validate_signal token_ca token_symbol tg_mention_time
     else
       twitter_data ←
         search_token E fuel [("$" ++ token_symbol)%string; token_ca] 15;
       ret (validation (twikit_credibility twitter_data) twitter_data "twikit"))
    (fun e => raise e).

End WithEnv.

End Validate.

(** *** main_v2.py: the endpoints *)

Module Service.

Import Unified.

(** [HTTPException(status_code, detail)] *)
Record HTTPException := mkHTTP { status_code : Z; detail : string }.

(** What an endpoint hands to the framework: the body it returns or the
    [HTTPException] it raises. *)
Inductive Response (A : Type) :=
| Body (a : A)
| HTTPError (e : HTTPException).
Arguments Body {A} a.
Arguments HTTPError {A} e.

(** [store_alert], the callback registered at startup: [alerts_history]
    after the call. *)
Definition store_alert (alert : ClientAlert)
    (alerts_history : list ClientAlert) : list ClientAlert :=
  Health.trim 100 (alerts_history ++ [alert]).

(** [alerts_history] after the alerts [emitted] were handed to the
    callback, oldest first. *)
Definition store_alerts (emitted alerts_history : list ClientAlert)
  : list ClientAlert :=
  fold_left (fun h a => store_alert a h) emitted alerts_history.

(** The slice [l[start:]]: a negative [start] counts from the end, and both
    ends are clipped to the list. *)
Definition slice_from {A} (start : Z) (l : list A) : list A :=
  let len := Z.of_nat (length l) in
  let first := if start <? 0 then Z.max 0 (start + len) else Z.min start len in
  skipn (Z.to_nat first) l.

(** [get_alerts(limit)]: ['total_alerts'] and ['recent_alerts']. *)
Definition get_alerts (limit : Z) (alerts_history : list ClientAlert)
  : nat * list ClientAlert :=
  (length alerts_history, slice_from (- limit) alerts_history).

Section WithEnv.

Variable E : Env.

(** [switch_provider(provider)]: the body is the pair of ['message'] and
    ['provider']. *)
Definition switch_provider (provider : string)
  : M (Response (string * string)) :=
  if String.eqb provider "grok" then
    switch_to_grok E "manual_switch";;
    ret (Body ("Switched to Grok API", "grok"))
  else if String.eqb provider "twikit" then
    switch_to_twikit E;;
    ret (Body ("Switched to Twikit", "twikit"))
  else
    ret (HTTPError (mkHTTP 400 "Invalid provider. Use 'twikit' or 'grok'")).

(** The endpoint [search_token(request)] of /api/search. *)
Definition api_search_token (fuel : nat) (queries : list string)
    (timeframe_minutes : Z) : M (Response SearchResult) :=
  try_except
    (result ← search_token E fuel queries timeframe_minutes;
     ret (Body result))
    (fun e => ret (HTTPError (mkHTTP 500 (exn_msg e)))).

(** The endpoint [validate_signal(request)] of /api/validate. *)
Definition api_validate_signal (fuel : nat)
    (token_ca token_symbol tg_mention_time : string)
  : M (Response Validate.Validation) :=
  try_except
    (result ← Validate.validate_signal E fuel token_ca token_symbol
                tg_mention_time;
     ret (Body result))
    (fun e => ret (HTTPError (mkHTTP 500 (exn_msg e)))).

End WithEnv.

End Service.

(** *** Notions the further properties are stated with *)

Module More.

Import Health.

(** The counters of the monitor are consistent. *)
Definition counters_ok (mt : HealthMetrics) : Prop :=
  0 <= successful_requests mt /\
  total_requests mt = successful_requests mt + failed_requests mt /\
  0 <= consecutive_failures mt <= failed_requests mt.

Definition is_failure_op (o : Op) : bool :=
  match o with
  | RecordFailure _ _ _ _ _ => true
  | RecordSuccess _ _ _ _ => false
  end.

(** The number of failures at the end of a sequence of calls, after the
    last success. *)
Fixpoint failures_at_end (rev_ops : list Op) : nat :=
  match rev_ops with
  | RecordFailure _ _ _ _ _ :: rest => S (failures_at_end rest)
  | _ => O
  end.

Definition trailing_failures (ops : list Op) : nat :=
  failures_at_end (rev ops).

(** The reasons and the response times that a sequence of calls records,
    in order. *)
Definition reasons_of (ops : list Op) : list string :=
  flat_map (fun o => match o with
                     | RecordFailure et em _ _ _ => [(et ++ ": " ++ em)%string]
                     | RecordSuccess _ _ _ _ => []
                     end) ops.

Definition times_of (ops : list Op) : list Q :=
  flat_map (fun o => match o with
                     | RecordSuccess rt _ _ _ => [rt]
                     | RecordFailure _ _ _ _ _ => []
                     end) ops.

(** The last [n] elements of a list. *)
Definition last_n {A} (n : nat) (l : list A) : list A :=
  skipn (length l - n) l.



(** The current reference, when set, points into the list of accounts. *)
Definition pool_wf (pl : Pool.AccountPool) : Prop :=
  match Pool.current_account pl with
  | Some i => (i < length (Pool.accounts pl))%nat
  | None => True
  end.

(** The number of identities that the selection considers. *)
Definition count_usable (accs : list Pool.TwitterAccount) : nat :=
  length (List.filter Pool.usable accs).

(** [a'] is the identity [a] later on: same credentials, client and
    activity, and banned if [a] was. *)
Definition same_identity (a a' : Pool.TwitterAccount) : Prop :=
  Pool.username a' = Pool.username a /\ Pool.email a' = Pool.email a /\
  Pool.password a' = Pool.password a /\ Pool.client a' = Pool.client a /\
  Pool.is_active a' = Pool.is_active a /\
  (Pool.is_banned a = true -> Pool.is_banned a' = true).

Definition same_identities (pl pl' : Pool.AccountPool) : Prop :=
  length (Pool.accounts pl') = length (Pool.accounts pl) /\
  forall i a, Pool.accounts pl !! i = Some a ->
    exists a', Pool.accounts pl' !! i = Some a' /\ same_identity a a'.

(** How a call may move the provider flag: the fallback's configuration
    is untouched, the flag is never cleared, and it is set only if the
    fallback is configured. *)
Definition flag_step (w w' : Unified.World) : Prop :=
  Unified.grok_logged_in w' = Unified.grok_logged_in w /\
  (Unified.use_grok w = true -> Unified.use_grok w' = true) /\
  (Unified.use_grok w' = true ->
   Unified.use_grok w = true \/ Unified.grok_logged_in w = true).

(** The order of [sorted] on strings. *)
Definition le_str (a b : string) : Prop := String.leb a b = true.

(** Primitive computations leave the flags alone. *)
Ltac flag_prim :=
  intros w; unfold flag_step; simpl; tauto.

(** A computation whose every run is related by [R] to its start. *)
Definition respects (R : Unified.World -> Unified.World -> Prop) {A}
    (c : Unified.M A) : Prop :=
  forall w, R w (snd (c w)).

(** A computation that ends within its fuel. *)
Definition ends {A} (c : Unified.M A) : Prop :=
  forall w, fst (c w) <> Unified.OutOfFuel.

(** The scraping path is in order: primary provider, HEALTHY monitor, no
    failure in the window, a current identity that holds a client. *)
Definition scraping_in_order (w : Unified.World) : Prop :=
  Unified.use_grok w = false /\
  Health.status (Unified.hm w) = Health.HEALTHY /\
  Health.count_failures (Health.recent_events (Unified.hm w)) = 0%nat /\
  exists i a c, Pool.current_account (Unified.pool w) = Some i /\
                Pool.accounts (Unified.pool w) !! i = Some a /\
                Pool.client a = Some c.

End More.

Module MoreScenario.

Import Health.

Definition three_calls : list Op :=
  [RecordFailure "Timeout" "slow" 0 1 2; RecordSuccess 1 3 4 5;
   RecordFailure "Timeout" "slow" 6 7 8].

Definition five_timeouts : list Op :=
  [RecordFailure "Timeout" "slow" 0 1 2; RecordFailure "Timeout" "slow" 3 4 5;
   RecordFailure "Timeout" "slow" 6 7 8; RecordFailure "Timeout" "slow" 9 10 11;
   RecordFailure "Timeout" "slow" 12 13 14].

(** The outside lets a login succeed through saved cookies. *)
Definition cookies_work : PoolLogin.Authenticator :=
  PoolLogin.mkAuth true (Unified.Returns tt) (Unified.Returns tt)
    (Unified.Returns tt).

(** The outside refuses the login of a suspended account. *)
Definition login_refused : PoolLogin.Authenticator :=
  PoolLogin.mkAuth false (Unified.Returns tt)
    (Unified.Raises (Unified.mkExn "Forbidden" "Account suspended"))
    (Unified.Returns tt).

(** Two accounts as [add_account] creates them. *)
Definition two_new_accounts : Pool.AccountPool :=
  Pool.add_account "b" "b@example.org" "pw" 1
    (Pool.add_account "a" "a@example.org" "pw" 0 Pool.empty_pool).

(** The first login is refused, the second works. *)
Definition second_works (i : nat) : PoolLogin.Authenticator :=
  match i with
  | O => login_refused
  | _ => cookies_work
  end.

End MoreScenario.

(** * Properties *)

(** ** The health monitor *)

Module HealthFacts.

Import Health.

Lemma Qltb_lt (x y : Q) : Qltb x y = true <-> (x < y)%Q.
Proof.
  unfold Qltb. rewrite negb_true_iff, <- not_true_iff_false, Qle_bool_iff.
  split; [apply Qnot_le_lt | apply Qlt_not_le].
Qed.


Lemma HealthStatus_eqb_eq (a b : HealthStatus) :
  HealthStatus_eqb a b = true <-> a = b.
Proof. destruct a, b; simpl; split; congruence. Qed.

Lemma HealthStatus_eqb_neq (a b : HealthStatus) :
  HealthStatus_eqb a b = false <-> a <> b.
Proof. destruct a, b; simpl; split; congruence. Qed.

(** Every event of the window is a success or a failure. *)
Lemma window_counts (evs : list Event) :
  (count_successes evs + count_failures evs = length evs)%nat.
Proof.
  unfold count_successes, count_failures.
  induction evs as [|e evs IH]; simpl; [reflexivity|].
  unfold is_success at 1, is_failure at 1.
  destruct (type e); simpl; lia.
Qed.

(** After [_record_event] the window holds exactly the events, old and new,
    stamped later than the cutoff. *)
Lemma record_event_window now_ev now_cut ty rt et em m e :
  In e (recent_events (record_event now_ev now_cut ty rt et em m)) <->
  (In e (recent_events m) \/ e = mkEvent now_ev ty rt et em) /\
  now_cut - timedelta_minutes time_window_minutes < timestamp e.
Proof.
  unfold record_event; simpl.
  rewrite filter_In, in_app_iff, Z.ltb_lt. simpl. intuition congruence.
Qed.

Lemma update_status_when_failed m :
  status m = FAILED -> update_status m = (m, []).
Proof. intros H. unfold update_status. now rewrite H. Qed.

Lemma update_status_keeps_failed m :
  status m = FAILED -> status (fst (update_status m)) = FAILED.
Proof. intros H. now rewrite update_status_when_failed. Qed.

Lemma record_event_status a b ty rt et em m :
  status (record_event a b ty rt et em m) = status m.
Proof. reflexivity. Qed.

Lemma step_keeps_failed m o :
  status m = FAILED -> status (fst (step m o)) = FAILED.
Proof.
  intros H. destruct o as [rt a b c|et em a b c]; simpl.
  - unfold record_success. apply update_status_keeps_failed. exact H.
  - unfold record_failure.
    destruct (is_critical_failure et em).
    + rewrite update_status_when_failed by reflexivity. reflexivity.
    + rewrite update_status_when_failed by exact H. exact H.
Qed.

Lemma run_cons m o ops :
  run m (o :: ops) =
  (fst (run (fst (step m o)) ops), snd (step m o) ++ snd (run (fst (step m o)) ops)).
Proof.
  simpl. destruct (step m o) as [m1 a1]. simpl.
  destruct (run m1 ops) as [m2 a2]. reflexivity.
Qed.

Lemma update_status_alerts m :
  Forall (fun a => ~ Spec.announces_failed a) (snd (update_status m)).
Proof.
  unfold update_status.
  destruct (HealthStatus_eqb (status m) FAILED); [constructor|].
  simpl.
  repeat match goal with
         | |- context [if ?c then _ else _] => destruct c; simpl
         end;
    repeat constructor; intros [old H]; discriminate H.
Qed.

Lemma step_alerts m o :
  Forall (fun a => ~ Spec.announces_failed a) (snd (step m o)).
Proof.
  destruct o as [rt a b c|et em a b c]; simpl.
  - apply update_status_alerts.
  - unfold record_failure.
    destruct (is_critical_failure et em).
    + rewrite update_status_when_failed by reflexivity. simpl.
      repeat constructor. intros [old H]; discriminate H.
    + match goal with
      | |- context [update_status ?x] =>
          pose proof (update_status_alerts x) as H;
          destruct (update_status x) as [m4 al]
      end. exact H.
Qed.

(** A step that enters [FAILED] emits [critical_failure]. *)
Lemma step_enters_failed m o :
  status m <> FAILED -> status (fst (step m o)) = FAILED ->
  exists et em, In (critical_failure et em) (snd (step m o)).
Proof.
  intros Hm Hf. destruct o as [rt a b c|et em a b c]; simpl in *.
  - exfalso. revert Hf. unfold record_success, update_status. simpl.
    destruct (HealthStatus_eqb (status m) FAILED) eqn:E.
    + apply HealthStatus_eqb_eq in E. contradiction.
    + simpl.
      repeat match goal with
             | |- context [if ?c then _ else _] => destruct c; simpl
             end; discriminate.
  - revert Hf. unfold record_failure.
    destruct (is_critical_failure et em).
    + intros _. exists et, em.
      rewrite update_status_when_failed by reflexivity. simpl. now left.
    + unfold update_status. simpl.
      destruct (HealthStatus_eqb (status m) FAILED) eqn:E.
      * apply HealthStatus_eqb_eq in E. contradiction.
      * simpl.
        repeat match goal with
               | |- context [if ?c then _ else _] => destruct c; simpl
               end; discriminate.
Qed.

Lemma count_successes_filter (p : Event -> bool) (evs : list Event) :
  count_successes evs = 0%nat -> count_successes (List.filter p evs) = 0%nat.
Proof.
  unfold count_successes. induction evs as [|e evs IH]; simpl; [reflexivity|].
  destruct (is_success e) eqn:Es; simpl; [discriminate|].
  intros H. destruct (p e); simpl; [rewrite Es|]; now apply IH.
Qed.

Lemma count_successes_app (l1 l2 : list Event) :
  count_successes (l1 ++ l2) = (count_successes l1 + count_successes l2)%nat.
Proof.
  unfold count_successes. now rewrite List.filter_app, length_app.
Qed.

Lemma rate_without_success (m : TwitterHealthMonitor) :
  count_successes (recent_events m) = 0%nat -> recent_events m <> [] ->
  Qltb (window_success_rate m) min_success_rate = true.
Proof.
  intros Hs Hne. unfold window_success_rate. rewrite Hs.
  destruct (recent_events m) as [|e evs]; [contradiction|]. reflexivity.
Qed.

(** A failure recorded into a window that holds no success, the clock not
    jumping by the length of the window between two reads: the monitor
    then asks for failover, and the window still holds no success. *)
Lemma failure_in_failing_window (et em : string) (t1 t2 t3 : Z)
    (m : TwitterHealthMonitor) :
  count_successes (recent_events m) = 0%nat ->
  t3 - timedelta_minutes time_window_minutes < t2 ->
  should_failover (fst (record_failure et em t1 t2 t3 m)) = true /\
  count_successes (recent_events (fst (record_failure et em t1 t2 t3 m)))
    = 0%nat.
Proof.
  intros Hs Ht. unfold record_failure.
  match goal with
  | |- context [record_event t2 t3 failure ?rt ?a ?b ?m1] =>
      set (m2 := record_event t2 t3 failure rt a b m1)
  end.
  assert (Hs2 : count_successes (recent_events m2) = 0%nat).
  { unfold m2, record_event. simpl. apply count_successes_filter.
    rewrite count_successes_app, Hs. reflexivity. }
  assert (Hne : recent_events m2 <> []).
  { intros Hnil.
    assert (Hin : In (mkEvent t2 failure 0 (Some et) (Some em))
                     (recent_events m2)).
    { unfold m2. apply record_event_window. split; [now right | exact Ht]. }
    rewrite Hnil in Hin. destruct Hin. }
  destruct (is_critical_failure et em).
  - rewrite update_status_when_failed by reflexivity. simpl.
    split; [reflexivity | exact Hs2].
  - unfold update_status.
    destruct (HealthStatus_eqb (status m2) FAILED) eqn:Ef.
    + apply HealthStatus_eqb_eq in Ef. simpl. unfold should_failover.
      rewrite Ef. split; [reflexivity | exact Hs2].
    + rewrite (rate_without_success m2 Hs2 Hne).
      destruct (max_consecutive_failures <=? _); simpl;
        (split; [reflexivity | exact Hs2]).
Qed.

(** A failure recorded when the monitor is FAILED or has seen four failures
    in a row: the monitor then asks for failover, and is FAILED or has seen
    at least four failures in a row. *)
Lemma failure_after_streak (et em : string) (t1 t2 t3 : Z)
    (m : TwitterHealthMonitor) :
  status m = FAILED \/ 4 <= consecutive_failures (metrics m) ->
  should_failover (fst (record_failure et em t1 t2 t3 m)) = true /\
  (status (fst (record_failure et em t1 t2 t3 m)) = FAILED \/
   4 <= consecutive_failures (metrics (fst (record_failure et em t1 t2 t3 m)))).
Proof.
  intros H. unfold record_failure.
  destruct (is_critical_failure et em).
  - rewrite update_status_when_failed by reflexivity. simpl.
    split; [reflexivity | now left].
  - unfold update_status. simpl.
    destruct (HealthStatus_eqb (status m) FAILED) eqn:Ef.
    + apply HealthStatus_eqb_eq in Ef. simpl. unfold should_failover. simpl.
      rewrite Ef. split; [reflexivity | now left].
    + destruct H as [H | H].
      { apply HealthStatus_eqb_neq in Ef. contradiction. }
      assert (Hge : (max_consecutive_failures <=?
                       consecutive_failures (metrics m) + 1) = true).
      { apply Z.leb_le. unfold max_consecutive_failures. lia. }
      rewrite Hge. simpl. split; [reflexivity | right; lia].
Qed.

Lemma update_status_metrics (m : TwitterHealthMonitor) :
  metrics (fst (update_status m)) = metrics m.
Proof.
  unfold update_status.
  destruct (HealthStatus_eqb (status m) FAILED); reflexivity.
Qed.

Lemma record_success_counts (rt : Q) (t1 t2 t3 : Z)
    (m : TwitterHealthMonitor) :
  successful_requests (metrics (fst (record_success rt t1 t2 t3 m)))
    = successful_requests (metrics m) + 1 /\
  failed_requests (metrics (fst (record_success rt t1 t2 t3 m)))
    = failed_requests (metrics m) /\
  consecutive_failures (metrics (fst (record_success rt t1 t2 t3 m))) = 0.
Proof.
  unfold record_success. rewrite update_status_metrics. simpl.
  repeat split.
Qed.

(** On windows of up to 300 events the tests of the source on doubles and
    the tests of the model on rationals give the same answers. *)
Lemma float_thresholds_agree : tests_agree_upto 300 = true.
Proof. vm_compute. reflexivity. Qed.

Lemma noncritical_failure_step (et em : string) (t1 t2 t3 : Z)
    (m : TwitterHealthMonitor) :
  is_critical_failure et em = false -> status m <> FAILED ->
  status (fst (record_failure et em t1 t2 t3 m)) <> FAILED /\
  consecutive_failures (metrics (fst (record_failure et em t1 t2 t3 m)))
    = consecutive_failures (metrics m) + 1 /\
  (5 <= consecutive_failures (metrics m) + 1 ->
   status (fst (record_failure et em t1 t2 t3 m)) = FAILING).
Proof.
  intros Hc Hs. unfold record_failure. rewrite Hc.
  unfold update_status. simpl.
  apply HealthStatus_eqb_neq in Hs. rewrite Hs. simpl.
  split; [|split; [reflexivity|]].
  - repeat match goal with
           | |- context [if ?c then _ else _] => destruct c; simpl
           end; discriminate.
  - intros H5.
    assert (Hge : (max_consecutive_failures <=?
                     consecutive_failures (metrics m) + 1) = true).
    { apply Z.leb_le. unfold max_consecutive_failures. lia. }
    now rewrite Hge.
Qed.

Lemma failures_streak (ops : list Op) (m : TwitterHealthMonitor) :
  Forall Spec.noncritical_failure ops -> status m <> FAILED ->
  status (fst (run m ops)) <> FAILED /\
  consecutive_failures (metrics (fst (run m ops)))
    = consecutive_failures (metrics m) + Z.of_nat (length ops) /\
  (ops <> [] ->
   5 <= consecutive_failures (metrics m) + Z.of_nat (length ops) ->
   status (fst (run m ops)) = FAILING).
Proof.
  revert m. induction ops as [|o ops IH]; intros m Hops Hs.
  - simpl. split; [exact Hs | split; [lia | congruence]].
  - apply Forall_cons in Hops as [Ho Hops].
    destruct o as [rt a b c | et em a b c]; [destruct Ho|].
    simpl in Ho. rewrite run_cons. cbn [fst step].
    destruct (noncritical_failure_step et em a b c m Ho Hs)
      as (Hs1 & Hc1 & Hf1).
    destruct (IH _ Hops Hs1) as (Hs2 & Hc2 & Hf2).
    split; [exact Hs2 | split].
    + rewrite Hc2, Hc1. cbn [length]. lia.
    + intros _ H5. destruct ops as [|o' ops'].
      * simpl. apply Hf1. simpl in H5. lia.
      * apply Hf2; [discriminate|]. rewrite Hc1.
        cbn [length] in *. lia.
Qed.

(** Five failures in a row, none of them critical, recorded in a state
    other than FAILED: the state is FAILING. *)
Lemma five_failures_give_failing (ops : list Op) (m : TwitterHealthMonitor) :
  Forall Spec.noncritical_failure ops -> length ops = 5%nat ->
  status m <> FAILED -> 0 <= consecutive_failures (metrics m) ->
  status (fst (run m ops)) = FAILING.
Proof.
  intros Hops Hlen Hs Hc.
  destruct (failures_streak ops m Hops Hs) as (_ & _ & H).
  apply H.
  - intros ->. discriminate Hlen.
  - rewrite Hlen. lia.
Qed.

Lemma critical_by_keyword (et em kw : string) :
  In kw critical_keywords ->
  PyStr.contains kw (PyStr.lower (et ++ " " ++ em)) = true ->
  is_critical_failure et em = true.
Proof.
  intros Hin Hc. unfold is_critical_failure.
  apply existsb_exists. exists kw. split; assumption.
Qed.

Lemma record_failure_critical (m : TwitterHealthMonitor) (et em : string)
    (t1 t2 t3 : Z) :
  is_critical_failure et em = true ->
  status (fst (record_failure et em t1 t2 t3 m)) = FAILED /\
  snd (record_failure et em t1 t2 t3 m) = [critical_failure et em].
Proof.
  intros Hc. unfold record_failure. rewrite Hc.
  rewrite update_status_when_failed by reflexivity.
  split; reflexivity.
Qed.

Lemma run_alerts (ops : list Op) (m : TwitterHealthMonitor) :
  Forall (fun a => ~ Spec.announces_failed a) (snd (run m ops)).
Proof.
  revert m. induction ops as [|o ops IH]; intros m.
  - constructor.
  - rewrite run_cons. simpl. apply Forall_app. split.
    + apply step_alerts.
    + apply IH.
Qed.

End HealthFacts.


Module StrFacts.
Import PyStr.

Lemma append_cons (c : ascii) (s t : string) :
  (String c s ++ t)%string = String c (s ++ t)%string.
Proof. reflexivity. Qed.

Lemma append_nil (t : string) : (EmptyString ++ t)%string = t.
Proof. reflexivity. Qed.

Lemma prefix_app (kw s : string) :
  String.prefix kw s = true <-> exists post, s = (kw ++ post)%string.
Proof.
  revert s. induction kw as [|c kw IH]; intros [|d s]; simpl.
  - split; [intros _; now exists EmptyString | reflexivity].
  - split; [intros _; now exists (String d s) | reflexivity].
  - split; [discriminate | intros [post H]; discriminate H].
  - destruct (Ascii.ascii_dec c d) as [->|Hne].
    + rewrite IH. split; intros [post H]; exists post;
        rewrite append_cons in *; congruence.
    + split; [discriminate |].
      intros [post H]. rewrite append_cons in H. congruence.
Qed.

Lemma contains_app (kw s : string) :
  contains kw s = true <->
  exists pre post, s = (pre ++ kw ++ post)%string.
Proof.
  induction s as [|d s IH].
  - change (contains kw "") with (String.prefix kw "" || false).
    rewrite orb_false_r, prefix_app. split.
    + intros [post H]. now exists EmptyString, post.
    + intros [[|c pre] [post H]].
      * now exists post.
      * rewrite append_cons in H. discriminate H.
  - change (contains kw (String d s))
      with (String.prefix kw (String d s) || contains kw s).
    rewrite orb_true_iff, IH, prefix_app. split.
    + intros [[post H] | (pre & post & H)].
      * now exists EmptyString, post.
      * exists (String d pre), post. rewrite append_cons. now rewrite H.
    + intros [[|c pre] [post H]].
      * left. now exists post.
      * right. exists pre, post. rewrite append_cons in H. congruence.
Qed.
End StrFacts.

Module HealthClaims.
Import Health HealthFacts.




(** C3, as amended: whatever the prior state and streak, one
    [record_failure] whose lower-cased "<kind> <message>" contains one of
    the keywords of the source (suspended, banned, locked,
    "account not found", "authorization failed", "invalid credentials",
    forbidden, 403; the phrases with spaces) leaves the state FAILED and
    emits the critical_failure alert and nothing else: the re-evaluation
    that follows is skipped. *)
Theorem critical_failure_forces_failed
    (m : TwitterHealthMonitor) (et em kw : string) (t1 t2 t3 : Z) :
  In kw critical_keywords ->
  PyStr.contains kw (PyStr.lower (et ++ " " ++ em)) = true ->
  status (fst (record_failure et em t1 t2 t3 m)) = FAILED /\
  snd (record_failure et em t1 t2 t3 m) = [critical_failure et em].
Proof.
  intros Hin Hc. apply record_failure_critical.
  exact (critical_by_keyword et em kw Hin Hc).
Qed.

Lemma critical_failure_forces_failed_witness :
  In "403" critical_keywords /\
  PyStr.contains "403" (PyStr.lower ("Forbidden" ++ " " ++ "403 Suspended"))
    = true /\
  status (fst (record_failure "Forbidden" "403 Suspended" 10 11 12 init))
    = FAILED /\
  snd (record_failure "Forbidden" "403 Suspended" 10 11 12 init)
    = [critical_failure "Forbidden" "403 Suspended"].
Proof.
  assert (Hin : In "403" critical_keywords) by (simpl; tauto).
  assert (Hc : PyStr.contains "403"
                 (PyStr.lower ("Forbidden" ++ " " ++ "403 Suspended")) = true)
    by reflexivity.
  split; [exact Hin | split; [exact Hc |]].
  exact (critical_failure_forces_failed init "Forbidden" "403 Suspended"
           "403" 10 11 12 Hin Hc).
Defined.

(** C3 as the claim words its keywords (account-not-found and the like,
    with hyphens) does not hold: a failure whose message is
    "account-not-found" contains that keyword and leaves a fresh monitor
    FAILING, not FAILED. *)
Lemma hyphenated_keyword_is_not_critical :
  ~ (forall (m : TwitterHealthMonitor) (et em kw : string) (t1 t2 t3 : Z),
        In kw Spec.claimed_keywords ->
        PyStr.contains kw (PyStr.lower (et ++ " " ++ em)) = true ->
        status (fst (record_failure et em t1 t2 t3 m)) = FAILED).
Proof.
  intros H.
  specialize (H init "Error" "account-not-found" "account-not-found" 0 0 0).
  assert (Hs : status (fst (record_failure "Error" "account-not-found"
                              0 0 0 init)) = FAILING) by reflexivity.
  rewrite H in Hs; [discriminate Hs | simpl; tauto | reflexivity].
Qed.

Lemma run_keeps_failed (ops : list Op) (m : TwitterHealthMonitor) :
  status m = FAILED -> status (fst (run m ops)) = FAILED.
Proof.
  revert m. induction ops as [|o ops IH]; intros m H.
  - exact H.
  - rewrite run_cons. simpl. apply IH, step_keeps_failed, H.
Qed.

(** C4: the monitor starts HEALTHY; from FAILED, no sequence of
    record_success and record_failure calls leaves FAILED; reset gives
    HEALTHY, fresh (zeroed) metrics and an empty event window, whatever the
    state before. *)
Theorem failed_is_sticky :
  status init = HEALTHY /\
  (forall (m : TwitterHealthMonitor) (ops : list Op),
      status m = FAILED -> status (fst (run m ops)) = FAILED) /\
  (forall m : TwitterHealthMonitor,
      status (reset m) = HEALTHY /\
      recent_events (reset m) = [] /\
      metrics (reset m) = new_metrics /\
      total_requests new_metrics = 0 /\
      successful_requests new_metrics = 0 /\
      failed_requests new_metrics = 0 /\
      consecutive_failures new_metrics = 0 /\
      failure_reasons new_metrics = [] /\
      response_times new_metrics = []).
Proof.
  split; [reflexivity | split].
  - intros m ops H. apply run_keeps_failed, H.
  - intros m. repeat split.
Qed.

Lemma failed_is_sticky_witness :
  status (set_status FAILED init) = FAILED /\
  status (fst (run (set_status FAILED init)
                 [RecordSuccess 1 0 1 2; RecordFailure "Timeout" "slow" 3 4 5;
                  RecordSuccess 1 6 7 8])) = FAILED.
Proof.
  split; [reflexivity |].
  apply (proj1 (proj2 failed_is_sticky)). reflexivity.
Defined.



End HealthClaims.

(** ** The account pool *)

Module PoolFacts.

Import Pool Aux.
Import HealthFacts.

Lemma indexed_In (n : nat) (accs : list TwitterAccount) (x : nat * TwitterAccount) :
  In x (imap (fun i a => ((n + i)%nat, a)) accs) <->
  exists i, fst x = (n + i)%nat /\ accs !! i = Some (snd x).
Proof.
  rewrite <- list_elem_of_In, elem_of_lookup_imap. split.
  - intros (i & a & -> & H). now exists i.
  - intros (i & Hf & H). exists i, (snd x). split; [|exact H].
    destruct x as [j b]; simpl in *. now subst.
Qed.

Lemma indexed_sorted (accs : list TwitterAccount) (n : nat) :
  StronglySorted by_index (imap (fun i a => ((n + i)%nat, a)) accs).
Proof.
  revert n. induction accs as [|a accs IH]; intros n.
  - constructor.
  - rewrite imap_cons.
    rewrite (imap_ext _ (fun i b => ((S n + i)%nat, b))).
    2:{ intros i b _. simpl. f_equal. lia. }
    constructor; [apply IH|].
    apply List.Forall_forall. intros x Hx.
    apply indexed_In in Hx as (i & Hi & _).
    unfold by_index. simpl. lia.
Qed.

Lemma filter_sorted {A} (R : A -> A -> Prop) (p : A -> bool) (l : list A) :
  StronglySorted R l -> StronglySorted R (List.filter p l).
Proof.
  induction 1 as [|x l Hs IH Hf]; simpl; [constructor|].
  destruct (p x); [|exact IH].
  constructor; [exact IH|].
  rewrite List.Forall_forall in *. intros y Hy.
  apply filter_In in Hy as [Hy _]. now apply Hf.
Qed.

Lemma sorted_split {A} (R : A -> A -> Prop) (pre post : list A) (x : A) :
  StronglySorted R (pre ++ x :: post) ->
  Forall (fun y => R y x) pre /\ Forall (R x) post.
Proof.
  induction pre as [|y pre IH]; simpl; intros H.
  - apply StronglySorted_inv in H as [_ H]. split; [constructor | exact H].
  - apply StronglySorted_inv in H as [Hs Hf].
    destruct (IH Hs) as [H1 H2]. split; [|exact H2].
    constructor; [|exact H1].
    rewrite List.Forall_forall in Hf. apply Hf.
    apply in_or_app. right. now left.
Qed.

Lemma available_In (accs : list TwitterAccount) (i : nat) (a : TwitterAccount) :
  In (i, a) (available accs) <-> accs !! i = Some a /\ usable a = true.
Proof.
  unfold available. rewrite filter_In. simpl.
  rewrite (indexed_In 0 accs (i, a)). simpl. split.
  - intros [(j & -> & H) Hu]. now split.
  - intros [H Hu]. split; [now exists i | exact Hu].
Qed.

Lemma available_sorted (accs : list TwitterAccount) :
  StronglySorted by_index (available accs).
Proof. apply filter_sorted, (indexed_sorted accs 0). Qed.

(** Doubles that are not NaN are totally preordered by [<=], and [<] is
    the strict part of it. *)
Lemma SFleb_refl (a : spec_float) : a <> S754_nan -> SFleb a a = true.
Proof.
  destruct a as [s | s | | s m e]; intros H; try (now destruct s); [easy|].
  unfold SFleb, SFcompare.
  destruct s; rewrite Z.compare_refl;
    change (Pos.compare_cont Eq m m) with (Pos.compare m m);
    now rewrite Pos.compare_refl.
Qed.

Lemma SFltb_leb (a b : spec_float) : SFltb a b = true -> SFleb a b = true.
Proof.
  unfold SFltb, SFleb. destruct (SFcompare a b) as [[| |]|]; easy.
Qed.

Lemma SFleb_total (a b : spec_float) :
  a <> S754_nan -> b <> S754_nan -> SFltb a b = false -> SFleb b a = true.
Proof.
  unfold SFltb, SFleb.
  destruct a as [sa | sa | | sa ma ea], b as [sb | sb | | sb mb eb];
    intros Ha Hb; try easy;
    try destruct sa; try destruct sb; simpl; try easy;
    sf_cases; simpl; try easy; try lia.
Qed.

Lemma SFleb_trans (a b c : spec_float) :
  SFleb a b = true -> SFleb b c = true -> SFleb a c = true.
Proof.
  unfold SFleb.
  destruct a as [sa | sa | | sa ma ea], b as [sb | sb | | sb mb eb],
    c as [sc | sc | | sc mc ec];
    try destruct sa; try destruct sb; try destruct sc; simpl; try easy;
    sf_cases; simpl; try easy; try lia.
Qed.

Lemma SFleb_not_ltb (a b : spec_float) :
  SFleb a b = true -> SFltb b a = false.
Proof.
  unfold SFltb, SFleb.
  destruct a as [sa | sa | | sa ma ea], b as [sb | sb | | sb mb eb];
    try easy;
    try destruct sa; try destruct sb; simpl; try easy;
    sf_cases; simpl; try easy; try lia.
Qed.

Lemma is_nan_false (x : float) :
  PrimFloat.is_nan x = false -> Prim2SF x <> S754_nan.
Proof.
  unfold PrimFloat.is_nan. intros H E.
  apply negb_false_iff in H. rewrite FloatAxioms.eqb_spec, E in H.
  discriminate H.
Qed.

Lemma float_leb_refl (x : float) :
  PrimFloat.is_nan x = false -> PrimFloat.leb x x = true.
Proof.
  intros H. rewrite FloatAxioms.leb_spec. now apply SFleb_refl, is_nan_false.
Qed.

Lemma float_ltb_leb (x y : float) :
  PrimFloat.ltb x y = true -> PrimFloat.leb x y = true.
Proof. rewrite FloatAxioms.ltb_spec, FloatAxioms.leb_spec. apply SFltb_leb. Qed.

Lemma float_leb_total (x y : float) :
  PrimFloat.is_nan x = false -> PrimFloat.is_nan y = false ->
  PrimFloat.ltb x y = false -> PrimFloat.leb y x = true.
Proof.
  intros Hx Hy. rewrite FloatAxioms.ltb_spec, FloatAxioms.leb_spec.
  apply SFleb_total; now apply is_nan_false.
Qed.

Lemma float_leb_trans (x y z : float) :
  PrimFloat.leb x y = true -> PrimFloat.leb y z = true ->
  PrimFloat.leb x z = true.
Proof. rewrite !FloatAxioms.leb_spec. apply SFleb_trans. Qed.

Lemma float_leb_not_ltb (x y : float) :
  PrimFloat.leb x y = true -> PrimFloat.ltb y x = false.
Proof.
  rewrite FloatAxioms.ltb_spec, FloatAxioms.leb_spec. apply SFleb_not_ltb.
Qed.

(** The head of the sorted list is the first element of the input among
    those of greatest key. *)
Lemma insert_desc_not_nil {A} (x : float * A) (l : list (float * A)) :
  insert_desc x l <> [].
Proof.
  destruct l as [|y l]; simpl; [|destruct (PrimFloat.ltb _ _)]; discriminate.
Qed.

Lemma sort_desc_nil {A} (l : list (float * A)) : sort_desc l = [] -> l = [].
Proof.
  destruct l as [|x l]; [reflexivity|]. simpl. intros H.
  now apply insert_desc_not_nil in H.
Qed.

Lemma sort_desc_head {A} (l : list (float * A)) (x : float * A)
    (rest : list (float * A)) :
  Forall (fun y => PrimFloat.is_nan (fst y) = false) l ->
  sort_desc l = x :: rest ->
  exists pre post,
    l = pre ++ x :: post /\
    Forall (fun y => PrimFloat.ltb (fst y) (fst x) = true) pre /\
    Forall (fun y => PrimFloat.leb (fst y) (fst x) = true) post.
Proof.
  revert x rest. induction l as [|a l IH]; intros x rest Hn; [discriminate|].
  apply Forall_cons_iff in Hn as [Hna Hnl].
  simpl. destruct (sort_desc l) as [|y ys] eqn:Es.
  - apply sort_desc_nil in Es. subst l. simpl. intros [= <- _].
    exists [], []. repeat split; constructor.
  - destruct (IH y ys Hnl eq_refl) as (pre & post & -> & Hpre & Hpost).
    assert (Hny : PrimFloat.is_nan (fst y) = false).
    { rewrite List.Forall_forall in Hnl. apply Hnl.
      apply in_or_app. right. now left. }
    simpl. destruct (PrimFloat.ltb (fst a) (fst y)) eqn:Elt.
    + intros [= <- _].
      exists (a :: pre), post. repeat split; [|exact Hpost].
      constructor; assumption.
    + intros [= <- _].
      assert (Hya : PrimFloat.leb (fst y) (fst a) = true)
        by now apply float_leb_total.
      exists [], (pre ++ y :: post). repeat split; [constructor|].
      apply Forall_app. split.
      * eapply List.Forall_impl; [|exact Hpre]. simpl. intros z Hz.
        eapply float_leb_trans; [apply float_ltb_leb, Hz | exact Hya].
      * constructor; [exact Hya|].
        eapply List.Forall_impl; [|exact Hpost]. simpl. intros z Hz.
        eapply float_leb_trans; eassumption.
Qed.

(** [sort_desc] sorts: its result is a rearrangement of its argument, in
    descending order of keys. *)
Lemma insert_desc_perm {A} (x : float * A) (l : list (float * A)) :
  Permutation (x :: l) (insert_desc x l).
Proof.
  induction l as [|y l IH]; simpl; [reflexivity|].
  destruct (PrimFloat.ltb (fst x) (fst y)); [|reflexivity].
  rewrite perm_swap. now apply perm_skip.
Qed.

Lemma sort_desc_perm {A} (l : list (float * A)) : Permutation l (sort_desc l).
Proof.
  induction l as [|x l IH]; simpl; [reflexivity|].
  rewrite <- insert_desc_perm. now apply perm_skip.
Qed.

Lemma insert_desc_sorted {A} (x : float * A) (l : list (float * A)) :
  PrimFloat.is_nan (fst x) = false ->
  Forall (fun y => PrimFloat.is_nan (fst y) = false) l ->
  StronglySorted (fun a b => PrimFloat.leb (fst b) (fst a) = true) l ->
  StronglySorted (fun a b => PrimFloat.leb (fst b) (fst a) = true)
    (insert_desc x l).
Proof.
  intros Hx Hn. induction 1 as [|y l Hs IH Hf]; simpl.
  - repeat constructor.
  - apply Forall_cons_iff in Hn as [Hy Hn].
    destruct (PrimFloat.ltb (fst x) (fst y)) eqn:Elt.
    + constructor; [exact (IH Hn)|].
      apply List.Forall_forall. intros z Hz.
      apply (Permutation_in _ (Permutation_sym (insert_desc_perm x l))) in Hz.
      destruct Hz as [<- | Hz]; [now apply float_ltb_leb|].
      rewrite List.Forall_forall in Hf. now apply Hf.
    + assert (Hyx : PrimFloat.leb (fst y) (fst x) = true)
        by now apply float_leb_total.
      constructor; [now constructor|].
      constructor; [exact Hyx|].
      eapply List.Forall_impl; [|exact Hf]. simpl. intros z Hz.
      eapply float_leb_trans; eassumption.
Qed.

Lemma sort_desc_sorted {A} (l : list (float * A)) :
  Forall (fun y => PrimFloat.is_nan (fst y) = false) l ->
  StronglySorted (fun a b => PrimFloat.leb (fst b) (fst a) = true)
    (sort_desc l).
Proof.
  induction l as [|x l IH]; simpl; intros Hn; [constructor|].
  apply Forall_cons_iff in Hn as [Hx Hn].
  apply insert_desc_sorted; [exact Hx | | now apply IH].
  eapply Permutation_Forall; [apply sort_desc_perm | exact Hn].
Qed.

Lemma select_best_account_cases (clk : nat -> Z) (pl : AccountPool) :
  match select_best_account clk pl with
  | None => forall i a, accounts pl !! i = Some a -> usable a = false
  | Some i => exists a, accounts pl !! i = Some a /\ usable a = true
  end.
Proof.
  unfold select_best_account.
  set (key := fun ia : nat * TwitterAccount =>
                (health_score (clk (fst ia)) (snd ia), fst ia)).
  destruct (sort_desc (map key (available (accounts pl)))) as [|best rest] eqn:Es.
  - apply sort_desc_nil, map_eq_nil in Es.
    intros i a Hi. destruct (usable a) eqn:Hu; [|reflexivity].
    assert (Hin : In (i, a) (available (accounts pl))) by now apply available_In.
    rewrite Es in Hin. destruct Hin.
  - assert (Hin : In best (map key (available (accounts pl)))).
    { eapply Permutation_in; [symmetry; apply sort_desc_perm|].
      rewrite Es. now left. }
    apply in_map_iff in Hin as ([i a] & <- & Hin).
    apply available_In in Hin. simpl. now exists a.
Qed.

(** When no key is a NaN, the selected identity has the greatest key, and
    every usable identity before it has a smaller one. *)
Lemma select_best_account_max (clk : nat -> Z) (pl : AccountPool) (i : nat)
    (a : TwitterAccount) :
  (forall j b, accounts pl !! j = Some b -> usable b = true ->
               PrimFloat.is_nan (health_score (clk j) b) = false) ->
  select_best_account clk pl = Some i -> accounts pl !! i = Some a ->
  forall j b, accounts pl !! j = Some b -> usable b = true ->
    PrimFloat.leb (health_score (clk j) b) (health_score (clk i) a) = true /\
    ((j < i)%nat ->
     PrimFloat.ltb (health_score (clk j) b) (health_score (clk i) a) = true).
Proof.
  intros Hnan. unfold select_best_account.
  set (key := fun ia : nat * TwitterAccount =>
                (health_score (clk (fst ia)) (snd ia), fst ia)).
  destruct (sort_desc (map key (available (accounts pl)))) as [|best rest] eqn:Es;
    [discriminate|].
  intros [= <-] Hi.
  assert (Hn : Forall (fun y => PrimFloat.is_nan (fst y) = false)
                 (map key (available (accounts pl)))).
  { apply List.Forall_forall. intros y Hy.
    apply in_map_iff in Hy as ([j b] & <- & Hy).
    apply available_In in Hy as [Hj Hb]. simpl. now apply (Hnan j b). }
  apply (sort_desc_head _ _ _ Hn) in Es as (pre & post & Hl & Hpre & Hpost).
  apply map_eq_app in Hl as (pre' & tl' & Hav & <- & Htl).
  apply map_eq_cons in Htl as ([i' a'] & post' & -> & <- & <-).
  simpl in Hi.
  assert (Hin : In (i', a') (available (accounts pl))).
  { rewrite Hav. apply in_or_app. right. now left. }
  apply available_In in Hin as [Hi' Hu]. simpl in *.
  rewrite Hi' in Hi. injection Hi as <-.
  intros j b Hj Hub.
  assert (Hjb : In (j, b) (available (accounts pl))) by now apply available_In.
  pose proof (available_sorted (accounts pl)) as Hs. rewrite Hav in Hs.
  apply sorted_split in Hs as [Hlt Hgt].
  rewrite List.Forall_forall in Hlt, Hgt, Hpre, Hpost.
  rewrite Hav in Hjb. apply in_app_or in Hjb as [Hjb | [Hjb | Hjb]].
  + specialize (Hpre (key (j, b)) (in_map key _ _ Hjb)). simpl in Hpre.
    split; [now apply float_ltb_leb | intros _; exact Hpre].
  + injection Hjb as <- <-.
    split; [apply float_leb_refl; now apply (Hnan i' a') | lia].
  + specialize (Hpost (key (j, b)) (in_map key _ _ Hjb)). simpl in Hpost.
    split; [exact Hpost |].
    specialize (Hgt _ Hjb). unfold by_index in Hgt. simpl in Hgt. lia.
Qed.

Lemma usable_spec (a : TwitterAccount) :
  usable a = true <-> is_active a = true /\ is_banned a = false.
Proof.
  unfold usable. rewrite andb_true_iff, negb_true_iff. reflexivity.
Qed.

Lemma usable_banned (a : TwitterAccount) : usable (set_banned a) = false.
Proof. unfold usable. simpl. apply andb_false_r. Qed.

Lemma select_best_usable (clk : nat -> Z) (pl : AccountPool) (i : nat) :
  select_best_account clk pl = Some i ->
  exists a, accounts pl !! i = Some a /\ usable a = true.
Proof.
  intros H. pose proof (select_best_account_cases clk pl) as Hc.
  rewrite H in Hc. exact Hc.
Qed.

Lemma select_best_none (clk : nat -> Z) (pl : AccountPool) :
  (forall i a, accounts pl !! i = Some a -> usable a = false) ->
  select_best_account clk pl = None.
Proof.
  intros H. destruct (select_best_account clk pl) as [i|] eqn:E; [|reflexivity].
  apply select_best_usable in E as (a & Ha & Hu).
  rewrite (H i a Ha) in Hu. discriminate Hu.
Qed.


Lemma mark_current_issues_auto (reason : string) (pl : AccountPool) (i : nat) :
  reason <> "manual" -> current_account pl = Some i ->
  mark_current_issues reason pl = update_account set_banned i pl.
Proof.
  intros Hr Hc. unfold mark_current_issues. rewrite Hc.
  apply String.eqb_neq in Hr. now rewrite Hr.
Qed.


Lemma mark_current_issues_current (reason : string) (pl : AccountPool) :
  current_account (mark_current_issues reason pl) = current_account pl.
Proof.
  unfold mark_current_issues.
  destruct (current_account pl) as [i|] eqn:E; [|exact E].
  destruct (negb _); simpl; exact E.
Qed.


End PoolFacts.

Module PoolClaims.

Import Pool PoolFacts.

(** C7: the selection returns an identity of the pool that is active and
    not banned; when no identity is active and unbanned it returns none.
    The health scores are the doubles that the source sorts by: when none
    of them is a NaN, no active, unbanned identity of the pool has a
    greater health score than the selected one, and every such identity
    that was added earlier has a strictly smaller one (ties go to the
    earliest added). *)
Theorem select_best_account_spec (clk : nat -> Z) (pl : AccountPool) :
  match select_best_account clk pl with
  | None =>
      forall i a, accounts pl !! i = Some a ->
                  ~ (is_active a = true /\ is_banned a = false)
  | Some i =>
      exists a, accounts pl !! i = Some a /\
        is_active a = true /\ is_banned a = false /\
        ((forall j b, accounts pl !! j = Some b ->
            is_active b = true -> is_banned b = false ->
            PrimFloat.is_nan (health_score (clk j) b) = false) ->
         forall j b, accounts pl !! j = Some b ->
           is_active b = true -> is_banned b = false ->
           PrimFloat.leb (health_score (clk j) b) (health_score (clk i) a)
             = true /\
           ((j < i)%nat ->
            PrimFloat.ltb (health_score (clk j) b) (health_score (clk i) a)
              = true))
  end.
Proof.
  pose proof (select_best_account_cases clk pl) as H.
  destruct (select_best_account clk pl) as [i|] eqn:Es.
  - destruct H as (a & Ha & Hu). exists a.
    pose proof Hu as Hu'. apply usable_spec in Hu' as [Hact Hban].
    split; [exact Ha | split; [exact Hact | split; [exact Hban |]]].
    intros Hnan j b Hj Hb1 Hb2.
    apply (select_best_account_max clk pl i a); try assumption.
    + intros j' b' Hj' Hu'. apply usable_spec in Hu' as [H1 H2].
      now apply (Hnan j' b').
    + apply usable_spec. now split.
  - intros i a Hi Hu. apply usable_spec in Hu.
    rewrite (H i a Hi) in Hu. discriminate Hu.
Qed.

Lemma select_best_account_spec_witness :
  select_best_account (fun _ => Scenario.two_days)
    Scenario.close_scores_pool = Some 1%nat /\
  (forall j b, accounts Scenario.close_scores_pool !! j = Some b ->
     is_active b = true -> is_banned b = false ->
     PrimFloat.is_nan (health_score Scenario.two_days b) = false) /\
  exists a, accounts Scenario.close_scores_pool !! 1%nat = Some a /\
    is_active a = true /\ is_banned a = false /\
    forall j b, accounts Scenario.close_scores_pool !! j = Some b ->
      is_active b = true -> is_banned b = false ->
      PrimFloat.leb (health_score Scenario.two_days b)
                    (health_score Scenario.two_days a) = true /\
      ((j < 1)%nat ->
       PrimFloat.ltb (health_score Scenario.two_days b)
                     (health_score Scenario.two_days a) = true).
Proof.
  pose proof (select_best_account_spec (fun _ => Scenario.two_days)
                Scenario.close_scores_pool) as H.
  assert (E : select_best_account (fun _ => Scenario.two_days)
                Scenario.close_scores_pool = Some 1%nat)
    by (vm_compute; reflexivity).
  assert (Hnan : forall j b,
             accounts Scenario.close_scores_pool !! j = Some b ->
             is_active b = true -> is_banned b = false ->
             PrimFloat.is_nan (health_score Scenario.two_days b) = false).
  { intros j b Hj _ _.
    do 3 (destruct j as [|j]; [injection Hj as <-; vm_compute; reflexivity|]).
    discriminate Hj. }
  rewrite E in H. destruct H as (a & Ha & Hact & Hban & Hmax).
  split; [exact E | split; [exact Hnan |]].
  exists a. split; [exact Ha | split; [exact Hact | split; [exact Hban |]]].
  exact (Hmax Hnan).
Defined.



(** C9: when an automatic rotation finds no other identity active and
    unbanned, it reports failure, the identity it has just banned stays the
    current one and the health monitor is untouched; get_current_client
    then still returns that identity's client, stamps its last_used and
    adds one to its total_requests, the identity being banned all along. *)
Theorem banned_current_keeps_serving (reason : string) (clk : nat -> Z)
    (pl : AccountPool) (hm : Health.TwitterHealthMonitor)
    (i : nat) (a : TwitterAccount) (now : Z) :
  reason <> "manual" ->
  current_account pl = Some i ->
  accounts pl !! i = Some a ->
  (forall j b, j <> i -> accounts pl !! j = Some b ->
               ~ (is_active b = true /\ is_banned b = false)) ->
  exists pl1 a1,
    rotate_account reason clk pl hm = (false, pl1, hm) /\
    current_account pl1 = Some i /\
    accounts pl1 !! i = Some (set_banned a) /\
    is_banned (set_banned a) = true /\
    fst (get_current_client now pl1) = client a /\
    current_account (snd (get_current_client now pl1)) = Some i /\
    accounts (snd (get_current_client now pl1)) !! i = Some a1 /\
    is_banned a1 = true /\
    last_used a1 = Some now /\
    total_requests a1 = total_requests a + 1.
Proof.
  intros Hr Hc Ha Hothers.
  set (pl1 := mark_current_issues reason pl).
  assert (Hpl1 : pl1 = update_account set_banned i pl)
    by now apply mark_current_issues_auto.
  assert (Hi : accounts pl1 !! i = Some (set_banned a)).
  { rewrite Hpl1. simpl. now rewrite list_lookup_alter_eq, Ha. }
  assert (Hcur : current_account pl1 = Some i).
  { unfold pl1. now rewrite mark_current_issues_current. }
  assert (Hnone : select_best_account clk pl1 = None).
  { apply select_best_none. intros j b Hj.
    destruct (Nat.eq_dec j i) as [->|Hne].
    - rewrite Hi in Hj. injection Hj as <-. apply usable_banned.
    - rewrite Hpl1 in Hj. simpl in Hj.
      rewrite list_lookup_alter_ne in Hj by congruence.
      destruct (usable b) eqn:Hu; [|reflexivity].
      apply usable_spec in Hu. now destruct (Hothers j b Hne Hj). }
  exists pl1, (mark_used now (set_banned a)).
  split.
  { unfold rotate_account. fold pl1. now rewrite Hnone. }
  split; [exact Hcur | split; [exact Hi | split; [reflexivity |]]].
  unfold get_current_client. rewrite Hcur, Hi. simpl.
  rewrite list_lookup_alter_eq, Hi. simpl.
  repeat split; assumption.
Qed.

Lemma banned_current_keeps_serving_witness :
  exists pl1 a',
    rotate_account "health_degraded" (fun _ => 5)
      Scenario.last_account_pool Health.init
      = (false, pl1, Health.init) /\
    current_account pl1 = Some 0%nat /\
    accounts pl1 !! 0%nat = Some (set_banned Scenario.used_identity) /\
    is_banned (set_banned Scenario.used_identity) = true /\
    fst (get_current_client 9 pl1) = client Scenario.used_identity /\
    current_account (snd (get_current_client 9 pl1)) = Some 0%nat /\
    accounts (snd (get_current_client 9 pl1)) !! 0%nat = Some a' /\
    is_banned a' = true /\ last_used a' = Some 9 /\
    total_requests a' = total_requests Scenario.used_identity + 1.
Proof.
  apply (banned_current_keeps_serving "health_degraded" (fun _ => 5)
           Scenario.last_account_pool Health.init 0%nat
           Scenario.used_identity 9).
  - discriminate.
  - reflexivity.
  - reflexivity.
  - intros [|[|j]] b Hne Hj [Hact Hban].
    + now apply Hne.
    + injection Hj as <-. discriminate Hact.
    + discriminate Hj.
Defined.

End PoolClaims.

(** ** The failover orchestrator *)

Module UnifiedFacts.

Import Health Unified HealthFacts Aux.

Lemma frame_refl (w : World) : frame w w.
Proof.
  repeat split; try reflexivity. exists []. split; [|constructor].
  now rewrite app_nil_r.
Qed.

Lemma frame_trans (w1 w2 w3 : World) : frame w1 w2 -> frame w2 w3 -> frame w1 w3.
Proof.
  intros (Hp & Hg & Hc & Hu & l & Hl & Hf) (Hp' & Hg' & Hc' & Hu' & l' & Hl' & Hf').
  repeat split; try congruence.
  - intros H. rewrite Hu', Hu; congruence.
  - exists (l ++ l'). split.
    + rewrite Hl', Hl. now rewrite app_assoc.
    + apply Forall_app. now split.
Qed.

Lemma frame_tick (w : World) : frame w (tick w).
Proof. apply (frame_refl (tick w)). Qed.

Lemma frame_with_hm (m : TwitterHealthMonitor) (w : World) : frame w (with_hm m w).
Proof. apply (frame_refl (with_hm m w)). Qed.

Section WithEnv.

Variable E : Env.

Lemma trigger_alert_run (ty msg : string) (w : World) :
  trigger_alert E ty msg w =
  (Ok tt, push_alert (mkAlert (clock E (ticks w)) ty msg (status (hm w))
                        (use_grok w)) (tick w)).
Proof. reflexivity. Qed.

Lemma trigger_alert_frame (ty msg : string) (w : World) :
  ty <> "twikit_failed" ->
  exists w', trigger_alert E ty msg w = (Ok tt, w') /\
             hm w' = hm w /\ use_grok w' = use_grok w /\ frame w w'.
Proof.
  intros Hty. eexists. split; [apply trigger_alert_run|].
  repeat split. eexists. split; [reflexivity|].
  repeat constructor. exact Hty.
Qed.

Lemma switch_to_grok_frame (reason : string) (w : World) :
  exists w', switch_to_grok E reason w = (Ok tt, w') /\
             hm w' = hm w /\ frame w w' /\
             (use_grok w = false -> grok_logged_in w = true ->
              use_grok w' = true).
Proof.
  unfold switch_to_grok.
  destruct w as [m p li ug c al ts tk].
  destruct ug; [|destruct li].
  - eexists. split; [reflexivity|]. simpl.
    split; [reflexivity|]. split; [apply frame_refl | discriminate].
  - eexists. split; [reflexivity|]. simpl.
    repeat split; try discriminate.
    eexists. split; [reflexivity|]. repeat constructor. discriminate.
  - eexists. split; [reflexivity|]. simpl.
    repeat split; try discriminate.
    eexists. split; [reflexivity|]. repeat constructor. discriminate.
Qed.

Lemma bind_run {A B} (c : M A) (k : A -> M B) (w w' : World) (a : A) :
  c w = (Ok a, w') -> (c ≫= k) w = k a w'.
Proof. intros H. unfold mbind, M_bind. now rewrite H. Qed.

Lemma on_health_alert_frame (a : Health.Alert) (w : World) :
  ~ Spec.announces_failed a ->
  exists w', on_health_alert E a w = (Ok tt, w') /\
             hm w' = hm w /\ frame w w' /\
             (tasks w' = tasks w \/
              tasks w' = tasks w ++ ["health_degraded"]) /\
             (forall et em, a = critical_failure et em ->
                use_grok w = false -> grok_logged_in w = true ->
                use_grok w' = true).
Proof.
  intros Hna. destruct w as [m p li ug c al ts tk].
  destruct a as [et em | old new].
  - destruct ug, li; (eexists; split; [reflexivity|]); frame_done;
      try (now left).
  - destruct new.
    + eexists; split; [reflexivity|]. frame_done; try (now left).
    + eexists; split; [reflexivity|]. frame_done; try (now left).
    + destruct ug; (eexists; split; [reflexivity|]); frame_done;
        try (now left); try (now right).
    + exfalso. apply Hna. now exists old.
Qed.

Lemma dispatch_frame (al : list Health.Alert) (w : World) :
  Forall (fun a => ~ Spec.announces_failed a) al ->
  exists w', dispatch E al w = (Ok tt, w') /\ hm w' = hm w /\ frame w w'.
Proof.
  revert w. induction al as [|a al IH]; intros w Hal.
  - exists w. split; [reflexivity|]. split; [reflexivity | apply frame_refl].
  - apply Forall_cons in Hal as [Ha Hal].
    destruct (on_health_alert_frame a w Ha) as (w1 & H1 & Hm1 & Hf1 & _).
    destruct (IH w1 Hal) as (w2 & H2 & Hm2 & Hf2).
    exists w2. split.
    + simpl. rewrite (bind_run _ _ _ _ _ H1). exact H2.
    + split; [congruence | eapply frame_trans; eassumption].
Qed.

Lemma record_failure_run (et em : string) (w : World) :
  record_failure E et em w =
  let '(t1, t2, t3) := reads E w in
  let r := Health.record_failure et em t1 t2 t3 (hm w) in
  dispatch E (snd r) (with_hm (fst r) (tick (tick (tick w)))).
Proof.
  unfold record_failure, reads. simpl.
  unfold mbind, M_bind, now, get, modify. simpl.
  destruct (Health.record_failure et em _ _ _ (hm w)) as [m' al].
  reflexivity.
Qed.

Lemma record_success_run (rt : Q) (w : World) :
  record_success E rt w =
  let '(t1, t2, t3) := reads E w in
  let r := Health.record_success rt t1 t2 t3 (hm w) in
  dispatch E (snd r) (with_hm (fst r) (tick (tick (tick w)))).
Proof.
  unfold record_success, reads. simpl.
  unfold mbind, M_bind, now, get, modify. simpl.
  destruct (Health.record_success rt _ _ _ (hm w)) as [m' al].
  reflexivity.
Qed.

Lemma record_failure_frame (et em : string) (w : World) :
  let '(t1, t2, t3) := reads E w in
  exists w', record_failure E et em w = (Ok tt, w') /\
             hm w' = fst (Health.record_failure et em t1 t2 t3 (hm w)) /\
             frame w w'.
Proof.
  rewrite record_failure_run. unfold reads. cbv zeta iota beta.
  set (r := Health.record_failure et em _ _ _ (hm w)).
  destruct (dispatch_frame (snd r) (with_hm (fst r) (tick (tick (tick w)))))
    as (w' & Hd & Hm & Hf).
  { apply (step_alerts (hm w) (RecordFailure et em _ _ _)). }
  exists w'. split; [exact Hd | split; [exact Hm |]].
  eapply frame_trans; [|exact Hf].
  apply (frame_refl (with_hm (fst r) (tick (tick (tick w))))).
Qed.

Lemma record_success_frame (rt : Q) (w : World) :
  let '(t1, t2, t3) := reads E w in
  exists w', record_success E rt w = (Ok tt, w') /\
             hm w' = fst (Health.record_success rt t1 t2 t3 (hm w)) /\
             frame w w'.
Proof.
  rewrite record_success_run. unfold reads. cbv zeta iota beta.
  set (r := Health.record_success rt _ _ _ (hm w)).
  destruct (dispatch_frame (snd r) (with_hm (fst r) (tick (tick (tick w)))))
    as (w' & Hd & Hm & Hf).
  { apply (step_alerts (hm w) (RecordSuccess rt _ _ _)). }
  exists w'. split; [exact Hd | split; [exact Hm |]].
  eapply frame_trans; [|exact Hf].
  apply (frame_refl (with_hm (fst r) (tick (tick (tick w))))).
Qed.

(** A critical error that reaches the handler of [search_token] while the
    fallback is configured: the alert callback has set the provider flag
    before the handler tests it, so the handler does not retry and raises
    the error again. *)
Lemma critical_error_is_reraised (retry : M SearchResult) (e : Exn)
    (w : World) :
  is_critical_failure (exn_type e) (exn_msg e) = true ->
  use_grok w = false -> grok_logged_in w = true ->
  exists w', handle_failure E retry e w = (Raise e, w') /\
             use_grok w' = true /\ status (hm w') = FAILED.
Proof.
  intros Hc Hug Hli.
  pose proof (record_failure_run (exn_type e) (exn_msg e) w) as Hrun.
  unfold reads in Hrun. cbv zeta iota beta in Hrun.
  destruct (record_failure_critical (hm w) (exn_type e) (exn_msg e)
              (clock E (ticks w)) (clock E (S (ticks w)))
              (clock E (S (S (ticks w)))) Hc) as [Hst Hal].
  rewrite Hal in Hrun.
  set (w1 := with_hm _ (tick (tick (tick w)))) in Hrun.
  destruct (on_health_alert_frame
              (critical_failure (exn_type e) (exn_msg e)) w1)
    as (w2 & H2 & Hm2 & Hf2 & _ & Hflag).
  { intros [old H]. discriminate H. }
  assert (Hrf : record_failure E (exn_type e) (exn_msg e) w = (Ok tt, w2)).
  { rewrite Hrun. simpl. now rewrite (bind_run _ _ _ _ _ H2). }
  assert (Hug2 : use_grok w2 = true).
  { apply (Hflag _ _ eq_refl); [exact Hug | exact Hli]. }
  assert (Hst2 : status (hm w2) = FAILED).
  { rewrite Hm2. exact Hst. }
  eexists. split.
  - unfold handle_failure. rewrite (bind_run _ _ _ _ _ Hrf).
    unfold mbind, M_bind, modify, get. simpl.
    unfold should_failover. rewrite Hst2, Hug2. simpl. reflexivity.
  - simpl. split; assumption.
Qed.

(** A failure that warrants failover while the fallback is not configured:
    the handler emits failover_failed, leaves the flag unset, and calls
    [search_token] again. *)
Lemma handle_failure_retries (retry : M SearchResult) (e : Exn) (w : World) :
  use_grok w = false -> grok_logged_in w = false ->
  should_failover
    (fst (Health.record_failure (exn_type e) (exn_msg e)
            (clock E (ticks w)) (clock E (S (ticks w)))
            (clock E (S (S (ticks w)))) (hm w))) = true ->
  exists w',
    handle_failure E retry e w = retry w' /\
    hm w' = fst (Health.record_failure (exn_type e) (exn_msg e)
                   (clock E (ticks w)) (clock E (S (ticks w)))
                   (clock E (S (S (ticks w)))) (hm w)) /\
    pool w' = Pool.mark_current_failed (pool w) /\
    use_grok w' = false /\ grok_logged_in w' = false /\
    cache w' = cache w /\
    exists l a, alerts w' = alerts w ++ l ++ [a] /\
                alert_type a = "failover_failed".
Proof.
  intros Hug Hli Hsf.
  pose proof (record_failure_frame (exn_type e) (exn_msg e) w) as Hrf.
  unfold reads in Hrf. cbv zeta iota beta in Hrf.
  destruct Hrf as (w1 & Hrf & Hm1 & Hp1 & Hg1 & Hc1 & Hu1 & l & Hl & _).
  rewrite <- Hm1 in Hsf.
  eexists. split.
  - unfold handle_failure. rewrite (bind_run _ _ _ _ _ Hrf).
    unfold mbind, M_bind, modify, get. simpl.
    rewrite Hsf, (Hu1 Hli), Hug. simpl.
    unfold switch_to_grok, mbind, M_bind, get. simpl.
    rewrite (Hu1 Hli), Hug. simpl. rewrite Hg1, Hli. simpl.
    reflexivity.
  - simpl. rewrite Hp1, Hc1, Hg1, (Hu1 Hli), Hl.
    repeat split; try assumption.
    eexists l, _. split; [now rewrite app_assoc | reflexivity].
Qed.

Lemma search_token_unfold (fuel : nat) (queries : list string) (tf : Z) :
  search_token E (S fuel) queries tf =
  (cached ← get (fun w => cache w !! cache_key queries tf);
   match cached with
   | Some r => ret r
   | None =>
       start_time ← now E;
       try_except
         (attempt E (cache_key queries tf) queries tf start_time)
         (handle_failure E (search_token E fuel queries tf))
   end).
Proof. reflexivity. Qed.

Lemma attempt_no_account (key : string) (queries : list string) (tf st : Z)
    (w : World) :
  use_grok w = false -> Pool.current_account (pool w) = None ->
  attempt E key queries tf st w =
  (Raise (mkExn "Exception" "No available Twikit accounts"),
   with_pool (pool w) (tick w)).
Proof.
  intros Hug Hc.
  unfold attempt, get_current_client, Pool.get_current_client,
    mbind, M_bind, get, now, modify, raise, ret, mret, M_ret.
  simpl. rewrite Hug. simpl. rewrite Hc. reflexivity.
Qed.

Lemma get_current_client_run (w : World) :
  get_current_client E w =
  (Ok (fst (Pool.get_current_client (clock E (ticks w)) (pool w))),
   with_pool (snd (Pool.get_current_client (clock E (ticks w)) (pool w)))
     (tick w)).
Proof.
  unfold get_current_client, mbind, M_bind, get, now, modify. simpl.
  destruct (Pool.get_current_client (clock E (ticks w)) (pool w)).
  reflexivity.
Qed.

Lemma only_ticks_refl (w : World) : only_ticks w w.
Proof. repeat split. Qed.

Lemma only_ticks_trans (w1 w2 w3 : World) :
  only_ticks w1 w2 -> only_ticks w2 w3 -> only_ticks w1 w3.
Proof. unfold only_ticks. intuition congruence. Qed.

(** One turn of the loop over the queries adds nothing to [all_tweets]:
    an error of the provider is caught by the inner handler, and so is the
    NameError that follows when the provider returns. *)
Lemma search_query_caught (c : Pool.Client) (tf : Z) (query : string)
    (all_tweets : list Tweet) (w : World) :
  exists w',
    try_except
      (found ← search_query E c tf query; ret (all_tweets ++ found))
      (fun _ => ret all_tweets) w = (Ok all_tweets, w') /\
    only_ticks w w'.
Proof.
  unfold try_except, search_query, await, lift, mbind, M_bind, now,
    timedelta, raise.
  destruct (search_tweet E c query) as [tweets | e]; simpl.
  - eexists. split; [reflexivity|]. repeat split.
  - eexists. split; [reflexivity|]. repeat split.
Qed.

Lemma search_queries_nothing (c : Pool.Client) (tf : Z)
    (queries : list string) (w : World) :
  exists w', search_queries E c tf queries [] w = (Ok [], w') /\
             only_ticks w w'.
Proof.
  revert w. induction queries as [|query rest IH]; intros w.
  - exists w. split; [reflexivity | apply only_ticks_refl].
  - destruct (search_query_caught c tf query [] w) as (w1 & H1 & Ht1).
    destruct (IH w1) as (w2 & H2 & Ht2).
    exists w2. split.
    + simpl. rewrite (bind_run _ _ _ _ _ H1). exact H2.
    + eapply only_ticks_trans; eassumption.
Qed.

(** On the scraping path with an identity at hand, whatever the provider
    does for each query (return tweets or raise any error), the request
    returns the empty neutral result tagged twikit and the monitor records
    a success. *)
Lemma primary_request_swallows (fuel : nat) (queries : list string) (tf : Z)
    (w : World) (c : Pool.Client) :
  use_grok w = false ->
  cache w !! cache_key queries tf = None ->
  fst (Pool.get_current_client (clock E (S (ticks w))) (pool w)) = Some c ->
  exists w',
    search_token E (S fuel) queries tf w
      = (Ok (set_source "twikit" (analyze_tweets E [])), w') /\
    successful_requests (metrics (hm w'))
      = successful_requests (metrics (hm w)) + 1 /\
    failed_requests (metrics (hm w')) = failed_requests (metrics (hm w)) /\
    cache w' !! cache_key queries tf
      = Some (set_source "twikit" (analyze_tweets E [])).
Proof.
  intros Hug Hcache Hc.
  set (res := set_source "twikit" (analyze_tweets E [])).
  set (w1 := tick w).
  set (w2 := with_pool (snd (Pool.get_current_client (clock E (ticks w1))
                               (pool w1))) (tick w1)).
  destruct (search_queries_nothing c tf queries w2)
    as (w3 & H3 & Hm3 & Hp3 & Hg3 & Hu3 & Hc3 & Ha3 & Ht3).
  assert (Hinner :
    (client ← get_current_client E;
     match client with
     | None => raise (mkExn "Exception" "No available Twikit accounts")
     | Some c =>
         all_tweets ← search_queries E c tf queries [];
         ret (set_source "twikit" (analyze_tweets E all_tweets))
     end) w1 = (Ok res, w3)).
  { rewrite (bind_run _ _ _ _ _ (get_current_client_run w1)).
    change (ticks w1) with (S (ticks w)). change (pool w1) with (pool w).
    rewrite Hc. rewrite (bind_run _ _ _ _ _ H3). reflexivity. }
  pose proof (record_success_frame
                (inject_Z (clock E (ticks w3) - clock E (ticks w))
                 / inject_Z 1000000)%Q (tick w3)) as Hrs.
  unfold reads in Hrs. cbv zeta iota beta in Hrs.
  destruct Hrs as (w4 & Hrs & Hm4 & Hp4 & Hg4 & Hc4 & _).
  exists (with_cache (<[cache_key queries tf := res]> (cache w4)) w4).
  split; [|split; [|split]].
  - rewrite search_token_unfold.
    unfold mbind at 1, M_bind at 1, get at 1. rewrite Hcache.
    unfold mbind at 1, M_bind at 1, now at 1. fold w1.
    unfold try_except, attempt.
    unfold mbind at 1, M_bind at 1, get at 1.
    change (use_grok w1) with (use_grok w). rewrite Hug.
    rewrite (bind_run _ _ _ _ _ Hinner).
    unfold mbind at 1, M_bind at 1, now at 1.
    rewrite (bind_run _ _ _ _ _ Hrs).
    reflexivity.
  - simpl. rewrite Hm4. simpl.
    destruct (record_success_counts
                (inject_Z (clock E (ticks w3) - clock E (ticks w))
                 / inject_Z 1000000)%Q
                (clock E (S (ticks w3))) (clock E (S (S (ticks w3))))
                (clock E (S (S (S (ticks w3))))) (hm w3)) as (Hs & _ & _).
    rewrite Hs, Hm3. reflexivity.
  - simpl. rewrite Hm4. simpl.
    destruct (record_success_counts
                (inject_Z (clock E (ticks w3) - clock E (ticks w))
                 / inject_Z 1000000)%Q
                (clock E (S (ticks w3))) (clock E (S (S (ticks w3))))
                (clock E (S (S (S (ticks w3))))) (hm w3)) as (_ & Hf & _).
    rewrite Hf, Hm3. reflexivity.
  - simpl. apply lookup_insert_eq.
Qed.

Section Doomed.

(** [Inv] holds of the monitor and is kept by every failed attempt, after
    which failover is warranted. *)
Variable Inv : TwitterHealthMonitor -> Prop.
Hypothesis Inv_step : forall (m : TwitterHealthMonitor) (k : nat),
  Inv m ->
  should_failover
    (fst (Health.record_failure "Exception" "No available Twikit accounts"
            (clock E k) (clock E (S k)) (clock E (S (S k))) m)) = true /\
  Inv (fst (Health.record_failure "Exception" "No available Twikit accounts"
              (clock E k) (clock E (S k)) (clock E (S (S k))) m)).

(** With no usable identity and no fallback configured, every failed
    attempt is followed by another attempt: the recursion of
    [search_token] has no end. *)
Lemma retry_never_ends (fuel : nat) (queries : list string) (tf : Z)
    (w : World) :
  use_grok w = false -> grok_logged_in w = false ->
  Pool.current_account (pool w) = None ->
  cache w !! cache_key queries tf = None ->
  Inv (hm w) ->
  fst (search_token E fuel queries tf w) = OutOfFuel.
Proof.
  revert w. induction fuel as [|fuel IH]; intros w Hug Hli Hcur Hcache Hinv.
  - reflexivity.
  - rewrite search_token_unfold.
    unfold mbind at 1, M_bind at 1, get at 1. rewrite Hcache.
    unfold mbind at 1, M_bind at 1, now at 1.
    unfold try_except.
    rewrite attempt_no_account by assumption.
    set (w2 := with_pool (pool (tick w)) (tick (tick w))).
    destruct (Inv_step (hm w) (ticks w2) Hinv) as [Hsf Hinv'].
    destruct (handle_failure_retries (search_token E fuel queries tf)
                (mkExn "Exception" "No available Twikit accounts") w2
                Hug Hli Hsf)
      as (w' & Heq & Hm & Hp & Hug' & Hli' & Hc' & _).
    rewrite Heq. apply IH; try assumption.
    + rewrite Hp. unfold Pool.mark_current_failed. simpl.
      now rewrite Hcur.
    + now rewrite Hc'.
    + rewrite Hm. exact Hinv'.
Qed.

End Doomed.

End WithEnv.

End UnifiedFacts.

Module UnifiedClaims.

Import Health Unified HealthFacts UnifiedFacts Aux Scenario.

(** C1, evaluated on the code.  The service has just started on the
    scraping path with one usable identity and a configured fallback; the
    provider answers the search with the error of a suspended account,
    which the monitor classifies as critical.  The request returns the
    empty neutral result of the scraping path: the provider flag is not
    switched, the monitor has recorded a success and stays HEALTHY, no alert
    is emitted, and the fallback's result is not what the caller gets.  And
    when that same error is handed to the handler of the request directly,
    the flag is switched by the alert callback and the error is raised to
    the caller instead of the request being retried on the fallback. *)
Theorem critical_provider_error_is_swallowed (fuel : nat) :
  is_critical_failure (exn_type suspended) (exn_msg suspended) = true /\
  grok_logged_in (started true) = true /\
  fst (search_token env_suspended (S fuel) ["$TKN"] 15 (started true))
    = Ok neutral_twikit /\
  neutral_twikit <> set_source "grok_api" grok_result /\
  use_grok (snd (search_token env_suspended (S fuel) ["$TKN"] 15
                   (started true))) = false /\
  status (hm (snd (search_token env_suspended (S fuel) ["$TKN"] 15
                     (started true)))) = HEALTHY /\
  successful_requests
    (metrics (hm (snd (search_token env_suspended (S fuel) ["$TKN"] 15
                         (started true))))) = 1 /\
  alerts (snd (search_token env_suspended (S fuel) ["$TKN"] 15
                 (started true))) = [] /\
  fst (handle_failure env_suspended
         (search_token env_suspended fuel ["$TKN"] 15) suspended
         (started true)) = Raise suspended /\
  use_grok (snd (handle_failure env_suspended
                   (search_token env_suspended fuel ["$TKN"] 15) suspended
                   (started true))) = true.
Proof.
  repeat split; try (vm_compute; reflexivity).
  discriminate.
Qed.

(** C2, evaluated on the code.  The service has just started with no
    identity logged in and no fallback configured.  A request fails on the
    scraping path, failover is warranted, the switch fails with a
    failover_failed alert and the flag stays unset; but the handler then
    calls [search_token] again, and so does every later attempt: after
    three attempts three failover_failed alerts have been emitted and the
    request is still running, and no depth of recursion lets it return or
    raise to the caller. *)
Theorem retry_without_fallback_never_returns :
  (forall fuel : nat,
      fst (search_token env_suspended fuel ["$TKN"] 15 (init_world false))
        = OutOfFuel) /\
  map alert_type
      (alerts (snd (search_token env_suspended 3 ["$TKN"] 15
                      (init_world false))))
    = ["twikit_degraded"; "failover_failed"; "failover_failed";
       "failover_failed"] /\
  use_grok (snd (search_token env_suspended 3 ["$TKN"] 15
                   (init_world false))) = false /\
  consecutive_failures
    (metrics (hm (snd (search_token env_suspended 3 ["$TKN"] 15
                         (init_world false))))) = 3.
Proof.
  split; [|repeat split; vm_compute; reflexivity].
  intros fuel.
  apply (retry_never_ends env_suspended
           (fun m => count_successes (recent_events m) = 0%nat)).
  - intros m k Hm. apply failure_in_failing_window; [exact Hm|].
    simpl. unfold steady_clock, timedelta_minutes, time_window_minutes. lia.
  - reflexivity.
  - reflexivity.
  - reflexivity.
  - apply lookup_empty.
  - reflexivity.
Qed.

(** C8, evaluated on the code.  On the scraping path the provider is rate
    limited for one query and returns a tweet for the other.  The rate
    limit error is neither recorded as a failure nor raised: the request
    returns the empty neutral result, which carries no error mark, the
    monitor has recorded one success and no failure, and that result is
    stored in the cache. *)
Theorem provider_errors_are_swallowed (fuel : nat) :
  search_tweet env_rate_limited 7%nat "$TKN"
    = Raises (mkExn "TooManyRequests" "Rate limit exceeded") /\
  search_tweet env_rate_limited 7%nat "0xabc" = Returns [a_tweet] /\
  fst (search_token env_rate_limited (S fuel) ["$TKN"; "0xabc"] 15
         (started true)) = Ok neutral_twikit /\
  error neutral_twikit = None /\
  successful_requests
    (metrics (hm (snd (search_token env_rate_limited (S fuel)
                         ["$TKN"; "0xabc"] 15 (started true))))) = 1 /\
  failed_requests
    (metrics (hm (snd (search_token env_rate_limited (S fuel)
                         ["$TKN"; "0xabc"] 15 (started true))))) = 0 /\
  cache (snd (search_token env_rate_limited (S fuel) ["$TKN"; "0xabc"] 15
                (started true)))
    !! cache_key ["$TKN"; "0xabc"] 15 = Some neutral_twikit.
Proof.
  repeat split; vm_compute; reflexivity.
Qed.

(** C10: no sequence of monitor calls emits a status_change alert whose new
    state is FAILED; a call that takes the monitor from another state into
    FAILED emits a critical_failure alert; and the branch of the client's
    callback that handles a status_change to FAILED never runs: the alerts
    that a record_failure or a record_success made through the client adds
    to its log never include twikit_failed, the alert of that branch. *)
Theorem failed_only_by_critical_failure :
  (forall (m : TwitterHealthMonitor) (ops : list Op) (a : Alert),
      In a (snd (run m ops)) ->
      forall old, a <> status_change old FAILED) /\
  (forall (m : TwitterHealthMonitor) (o : Op),
      status m <> FAILED -> status (fst (step m o)) = FAILED ->
      exists et em, In (critical_failure et em) (snd (step m o))) /\
  (forall (E : Env) (w : World) (et em : string) (rt : Q),
      exists w1 w2 l1 l2,
        Unified.record_failure E et em w = (Ok tt, w1) /\
        Unified.record_success E rt w = (Ok tt, w2) /\
        alerts w1 = alerts w ++ l1 /\ alerts w2 = alerts w ++ l2 /\
        Forall (fun a => alert_type a <> "twikit_failed") (l1 ++ l2)).
Proof.
  split.
  - intros m ops a Hin old Heq.
    pose proof (run_alerts ops m) as H.
    rewrite List.Forall_forall in H. apply (H a Hin). now exists old.
  - split; [apply step_enters_failed|].
    intros E w et em rt.
    pose proof (record_failure_frame E et em w) as Hf.
    pose proof (record_success_frame E rt w) as Hs.
    unfold reads in Hf, Hs. cbv zeta iota beta in Hf, Hs.
    destruct Hf as (w1 & Hf & _ & _ & _ & _ & _ & l1 & Hl1 & Hn1).
    destruct Hs as (w2 & Hs & _ & _ & _ & _ & _ & l2 & Hl2 & Hn2).
    exists w1, w2, l1, l2.
    repeat split; try assumption. apply Forall_app. now split.
Qed.

Lemma failed_only_by_critical_failure_witness :
  status init <> FAILED /\
  status (fst (step init (RecordFailure "Forbidden" "banned" 0 0 0))) = FAILED /\
  exists et em,
    In (critical_failure et em)
       (snd (step init (RecordFailure "Forbidden" "banned" 0 0 0))).
Proof.
  assert (H1 : status init <> FAILED) by discriminate.
  assert (H2 : status (fst (step init (RecordFailure "Forbidden" "banned" 0 0 0)))
               = FAILED) by reflexivity.
  split; [exact H1 | split; [exact H2 |]].
  exact (proj1 (proj2 failed_only_by_critical_failure) init _ H1 H2).
Defined.

End UnifiedClaims.

(** * Further properties *)

(** ** The health monitor *)

Module HealthMore.

Import Health HealthFacts HealthRates More.

Lemma run_app (ops1 ops2 : list Op) (m : TwitterHealthMonitor) :
  fst (run m (ops1 ++ ops2)) = fst (run (fst (run m ops1)) ops2).
Proof.
  revert m. induction ops1 as [|o ops1 IH]; intros m; [reflexivity|].
  rewrite <- app_comm_cons, !run_cons. simpl. apply IH.
Qed.

Lemma step_metrics (m : TwitterHealthMonitor) (o : Op) :
  metrics (fst (step m o)) =
  match o with
  | RecordSuccess rt a _ _ =>
      let rts := trim 100 (response_times (metrics m) ++ [rt]) in
      mkMetrics (total_requests (metrics m) + 1)
        (successful_requests (metrics m) + 1) (failed_requests (metrics m))
        0 (Some a) (last_failure_time (metrics m))
        (failure_reasons (metrics m))
        (Qsum rts / inject_Z (Z.of_nat (length rts)))%Q rts
  | RecordFailure et em a _ _ =>
      mkMetrics (total_requests (metrics m) + 1)
        (successful_requests (metrics m)) (failed_requests (metrics m) + 1)
        (consecutive_failures (metrics m) + 1)
        (last_success_time (metrics m)) (Some a)
        (trim 50 (failure_reasons (metrics m) ++ [(et ++ ": " ++ em)%string]))
        (average_response_time (metrics m)) (response_times (metrics m))
  end.
Proof.
  destruct o as [rt a b c | et em a b c]; simpl.
  - unfold record_success. rewrite update_status_metrics. reflexivity.
  - unfold record_failure. destruct (is_critical_failure et em).
    + rewrite update_status_when_failed by reflexivity. reflexivity.
    + match goal with
      | |- context [update_status ?x] =>
          pose proof (update_status_metrics x) as H;
          destruct (update_status x) as [m4 al]
      end. simpl in *. exact H.
Qed.

Lemma step_counters (m : TwitterHealthMonitor) (o : Op) :
  counters_ok (metrics m) -> counters_ok (metrics (fst (step m o))).
Proof.
  unfold counters_ok. rewrite step_metrics.
  destruct o; simpl; lia.
Qed.

Lemma run_counters (ops : list Op) (m : TwitterHealthMonitor) :
  counters_ok (metrics m) -> counters_ok (metrics (fst (run m ops))).
Proof.
  revert m. induction ops as [|o ops IH]; intros m H; [exact H|].
  rewrite run_cons. simpl. apply IH, step_counters, H.
Qed.

(** X1: the counters stay consistent.  If the number of successes is not
    negative, the total is successes plus failures, and the streak lies
    between 0 and the number of failures, then the same holds after any
    sequence of record_success and record_failure calls. *)
Theorem counters_stay_consistent (ops : list Op) (m : TwitterHealthMonitor) :
  counters_ok (metrics m) -> counters_ok (metrics (fst (run m ops))).
Proof. apply run_counters. Qed.

Lemma counters_stay_consistent_witness :
  counters_ok (metrics init) /\
  counters_ok (metrics (fst (run init MoreScenario.three_calls))).
Proof.
  assert (H : counters_ok (metrics init)) by (unfold counters_ok; simpl; lia).
  split; [exact H |].
  exact (counters_stay_consistent MoreScenario.three_calls init H).
Defined.

Lemma trim_last_n {A} (cap : nat) (l : list A) (x : A) :
  (length l <= cap)%nat -> trim cap (l ++ [x]) = last_n cap (l ++ [x]).
Proof.
  intros H. unfold trim, last_n. rewrite length_app. simpl.
  destruct (Nat.ltb_spec cap (length l + 1)) as [Hlt | Hge].
  - replace (length l + 1 - cap)%nat with 1%nat by lia.
    destruct l; reflexivity.
  - replace (length l + 1 - cap)%nat with 0%nat by lia. reflexivity.
Qed.

Lemma last_n_length {A} (n : nat) (l : list A) :
  (length (last_n n l) <= n)%nat.
Proof. unfold last_n. rewrite length_skipn. lia. Qed.

Lemma last_n_short {A} (n : nat) (l : list A) :
  (length l <= n)%nat -> last_n n l = l.
Proof.
  intros H. unfold last_n.
  replace (length l - n)%nat with 0%nat by lia. reflexivity.
Qed.

Lemma last_n_app {A} (n : nat) (l l' : list A) :
  last_n n (last_n n l ++ l') = last_n n (l ++ l').
Proof.
  destruct (Nat.le_gt_cases (length l) n) as [Hle | Hgt].
  - now rewrite (last_n_short n l Hle).
  - unfold last_n at 1 3. rewrite !length_app.
    unfold last_n. rewrite length_skipn.
    replace (length l - (length l - n) + length l' - n)%nat
      with (length l')%nat by lia.
    replace (length l + length l' - n)%nat
      with ((length l - n) + length l')%nat by lia.
    rewrite <- drop_drop, (drop_app_le l l') by lia. reflexivity.
Qed.

Lemma reasons_ring (ops : list Op) (m : TwitterHealthMonitor) :
  (length (failure_reasons (metrics m)) <= 50)%nat ->
  failure_reasons (metrics (fst (run m ops)))
    = last_n 50 (failure_reasons (metrics m) ++ reasons_of ops).
Proof.
  revert m. induction ops as [|o ops IH]; intros m H.
  - simpl. rewrite app_nil_r. symmetry. now apply last_n_short.
  - rewrite run_cons. cbn [fst]. rewrite IH.
    + rewrite step_metrics. destruct o as [rt a b c | et em a b c]; simpl.
      * reflexivity.
      * rewrite trim_last_n by exact H. rewrite last_n_app.
        now rewrite <- app_assoc.
    + rewrite step_metrics. destruct o as [rt a b c | et em a b c]; simpl.
      * exact H.
      * rewrite trim_last_n by exact H. apply last_n_length.
Qed.

Lemma times_ring (ops : list Op) (m : TwitterHealthMonitor) :
  (length (response_times (metrics m)) <= 100)%nat ->
  response_times (metrics (fst (run m ops)))
    = last_n 100 (response_times (metrics m) ++ times_of ops).
Proof.
  revert m. induction ops as [|o ops IH]; intros m H.
  - simpl. rewrite app_nil_r. symmetry. now apply last_n_short.
  - rewrite run_cons. cbn [fst]. rewrite IH.
    + rewrite step_metrics. destruct o as [rt a b c | et em a b c]; simpl.
      * rewrite trim_last_n by exact H. rewrite last_n_app.
        now rewrite <- app_assoc.
      * reflexivity.
    + rewrite step_metrics. destruct o as [rt a b c | et em a b c]; simpl.
      * rewrite trim_last_n by exact H. apply last_n_length.
      * exact H.
Qed.

(** X2: the two bounded buffers are rings.  After any sequence of calls on
    a new monitor, failure_reasons holds the last 50 reasons recorded, in
    order, and response_times the last 100 response times; neither ever
    grows beyond its cap. *)
Theorem buffers_keep_the_latest (ops : list Op) :
  failure_reasons (metrics (fst (run init ops))) = last_n 50 (reasons_of ops) /\
  response_times (metrics (fst (run init ops))) = last_n 100 (times_of ops) /\
  (length (failure_reasons (metrics (fst (run init ops)))) <= 50)%nat /\
  (length (response_times (metrics (fst (run init ops)))) <= 100)%nat.
Proof.
  assert (H1 := reasons_ring ops init (Nat.le_0_l _)).
  assert (H2 := times_ring ops init (Nat.le_0_l _)).
  simpl in H1, H2. rewrite H1, H2.
  repeat split; apply last_n_length.
Qed.

Lemma failures_at_end_all (l : list Op) :
  forallb is_failure_op l = true -> failures_at_end l = length l.
Proof.
  induction l as [|o l IH]; simpl; [reflexivity|].
  destruct o; simpl; [discriminate|]. intros H. now rewrite IH.
Qed.

Lemma streak_after (ops : list Op) (m : TwitterHealthMonitor) :
  consecutive_failures (metrics (fst (run m ops)))
    = Z.of_nat (trailing_failures ops)
      + (if forallb is_failure_op ops then consecutive_failures (metrics m)
         else 0).
Proof.
  unfold trailing_failures.
  induction ops as [|o ops IH] using rev_ind; [simpl; lia|].
  rewrite run_app, run_cons. cbn [fst run]. rewrite step_metrics, rev_unit.
  rewrite forallb_app. cbn [forallb failures_at_end].
  destruct o as [rt a b c | et em a b c]; simpl.
  - rewrite andb_false_r. reflexivity.
  - rewrite andb_true_r, IH.
    destruct (forallb is_failure_op ops); lia.
Qed.

(** X3: the streak counts the failures since the last success.  After any
    sequence of calls on a new monitor, consecutive_failures is the number
    of record_failure calls that follow the last record_success (all of
    them when there is none). *)
Theorem streak_counts_trailing_failures (ops : list Op) :
  consecutive_failures (metrics (fst (run init ops)))
    = Z.of_nat (trailing_failures ops).
Proof.
  rewrite streak_after. simpl. destruct (forallb is_failure_op ops); lia.
Qed.

(** X4: five failures in a row trip the monitor.  From any state but
    FAILED with a streak that is not negative, five or more successive
    failures, none of them critical, leave the monitor FAILING, whatever
    the window holds. *)
Theorem streak_of_five_trips (ops : list Op) (m : TwitterHealthMonitor) :
  Forall Spec.noncritical_failure ops -> (5 <= length ops)%nat ->
  status m <> FAILED -> 0 <= consecutive_failures (metrics m) ->
  status (fst (run m ops)) = FAILING /\
  should_failover (fst (run m ops)) = true.
Proof.
  intros Hops Hlen Hs Hc.
  destruct (failures_streak ops m Hops Hs) as (_ & _ & H).
  assert (Hf : status (fst (run m ops)) = FAILING).
  { apply H; [|lia]. intros ->. simpl in Hlen. lia. }
  split; [exact Hf |]. unfold should_failover. now rewrite Hf.
Qed.

Lemma streak_of_five_trips_witness :
  Forall Spec.noncritical_failure MoreScenario.five_timeouts /\
  (5 <= length MoreScenario.five_timeouts)%nat /\
  status init <> FAILED /\ 0 <= consecutive_failures (metrics init) /\
  status (fst (run init MoreScenario.five_timeouts)) = FAILING /\
  should_failover (fst (run init MoreScenario.five_timeouts)) = true.
Proof.
  assert (H1 : Forall Spec.noncritical_failure MoreScenario.five_timeouts)
    by (repeat constructor).
  assert (H2 : (5 <= length MoreScenario.five_timeouts)%nat) by (simpl; lia).
  assert (H3 : status init <> FAILED) by discriminate.
  assert (H4 : 0 <= consecutive_failures (metrics init)) by (simpl; lia).
  split; [exact H1 | split; [exact H2 | split; [exact H3 | split; [exact H4 |]]]].
  exact (streak_of_five_trips MoreScenario.five_timeouts init H1 H2 H3 H4).
Defined.

(** X5: one failure is enough when the window holds no success.  If no
    event of the window is a success (as in a new monitor) and the clock
    does not jump by the length of the window between the two reads of
    _record_event, then after one record_failure, critical or not, the
    monitor asks for failover. *)
Theorem lone_failure_warrants_failover (et em : string) (t1 t2 t3 : Z)
    (m : TwitterHealthMonitor) :
  count_successes (recent_events m) = 0%nat ->
  t3 - timedelta_minutes time_window_minutes < t2 ->
  should_failover (fst (record_failure et em t1 t2 t3 m)) = true.
Proof.
  intros Hs Ht. now apply failure_in_failing_window.
Qed.

Lemma lone_failure_warrants_failover_witness :
  count_successes (recent_events init) = 0%nat /\
  11 - timedelta_minutes time_window_minutes < 10 /\
  should_failover (fst (record_failure "Timeout" "slow" 9 10 11 init)) = true.
Proof.
  assert (H1 : count_successes (recent_events init) = 0%nat) by reflexivity.
  assert (H2 : 11 - timedelta_minutes time_window_minutes < 10)
    by (vm_compute; reflexivity).
  split; [exact H1 | split; [exact H2 |]].
  exact (lone_failure_warrants_failover "Timeout" "slow" 9 10 11 init H1 H2).
Defined.

Lemma update_status_events (m : TwitterHealthMonitor) :
  recent_events (fst (update_status m)) = recent_events m.
Proof.
  unfold update_status.
  destruct (HealthStatus_eqb (status m) FAILED); reflexivity.
Qed.



Lemma count_failures_filter (p : Event -> bool) (evs : list Event) :
  count_failures evs = 0%nat -> count_failures (List.filter p evs) = 0%nat.
Proof.
  unfold count_failures. induction evs as [|e evs IH]; simpl; [reflexivity|].
  destruct (is_failure e) eqn:Es; simpl; [discriminate|].
  intros H. destruct (p e); simpl; [rewrite Es|]; now apply IH.
Qed.

Lemma count_failures_app (l1 l2 : list Event) :
  count_failures (l1 ++ l2) = (count_failures l1 + count_failures l2)%nat.
Proof.
  unfold count_failures. now rewrite List.filter_app, length_app.
Qed.

Lemma rate_without_failure (m : TwitterHealthMonitor) :
  count_failures (recent_events m) = 0%nat ->
  Qltb (window_success_rate m) degraded_threshold = false /\
  Qltb (window_success_rate m) min_success_rate = false.
Proof.
  intros Hf. pose proof (window_counts (recent_events m)) as Hc.
  rewrite Hf, Nat.add_0_r in Hc.
  unfold window_success_rate. rewrite Hc.
  destruct (length (recent_events m)) as [|n]; [split; reflexivity|].
  unfold Qltb, Qle_bool, degraded_threshold, min_success_rate. simpl Qnum.
  simpl Qden. rewrite !negb_false_iff, !Z.leb_le.
  rewrite Zpos_P_of_succ_nat. lia.
Qed.

Lemma record_success_clean (rt : Q) (t1 t2 t3 : Z)
    (m : TwitterHealthMonitor) :
  status m <> FAILED -> count_failures (recent_events m) = 0%nat ->
  status (fst (record_success rt t1 t2 t3 m)) = HEALTHY /\
  consecutive_failures (metrics (fst (record_success rt t1 t2 t3 m))) = 0 /\
  snd (record_success rt t1 t2 t3 m)
    = (if HealthStatus_eqb (status m) HEALTHY then []
       else [status_change (status m) HEALTHY]) /\
  count_failures (recent_events (fst (record_success rt t1 t2 t3 m))) = 0%nat.
Proof.
  intros Hs Hf. unfold record_success.
  match goal with
  | |- context [update_status ?x] => set (m2 := x)
  end.
  assert (Hf2 : count_failures (recent_events m2) = 0%nat).
  { unfold m2, record_event. simpl. apply count_failures_filter.
    rewrite count_failures_app, Hf. reflexivity. }
  rewrite update_status_events.
  destruct (rate_without_failure m2 Hf2) as [Hd Hm].
  unfold update_status.
  replace (status m2) with (status m) by reflexivity.
  apply HealthStatus_eqb_neq in Hs. rewrite Hs, Hd, Hm.
  replace (consecutive_failures (metrics m2)) with 0 by reflexivity.
  simpl. repeat split. exact Hf2.
Qed.

(** X7: a success in a window without failures heals.  From any state but
    FAILED, a record_success made when no event of the window is a failure
    leaves the monitor HEALTHY, resets the streak, and emits a
    status_change alert exactly when the state was not HEALTHY before. *)
Theorem success_in_clean_window_heals (rt : Q) (t1 t2 t3 : Z)
    (m : TwitterHealthMonitor) :
  status m <> FAILED -> count_failures (recent_events m) = 0%nat ->
  status (fst (record_success rt t1 t2 t3 m)) = HEALTHY /\
  consecutive_failures (metrics (fst (record_success rt t1 t2 t3 m))) = 0 /\
  snd (record_success rt t1 t2 t3 m)
    = (if HealthStatus_eqb (status m) HEALTHY then []
       else [status_change (status m) HEALTHY]).
Proof.
  intros Hs Hf.
  destruct (record_success_clean rt t1 t2 t3 m Hs Hf) as (H1 & H2 & H3 & _).
  repeat split; assumption.
Qed.

Lemma success_in_clean_window_heals_witness :
  status (set_status FAILING init) <> FAILED /\
  count_failures (recent_events (set_status FAILING init)) = 0%nat /\
  status (fst (record_success 1 0 1 2 (set_status FAILING init))) = HEALTHY /\
  snd (record_success 1 0 1 2 (set_status FAILING init))
    = [status_change FAILING HEALTHY].
Proof.
  assert (H1 : status (set_status FAILING init) <> FAILED) by discriminate.
  assert (H2 : count_failures (recent_events (set_status FAILING init)) = 0%nat)
    by reflexivity.
  destruct (success_in_clean_window_heals 1 0 1 2 (set_status FAILING init)
              H1 H2) as (H3 & _ & H4).
  split; [exact H1 | split; [exact H2 | split; [exact H3 | exact H4]]].
Defined.

Lemma update_status_alert_shape (m : TwitterHealthMonitor) :
  snd (update_status m)
    = (if HealthStatus_eqb (status (fst (update_status m))) (status m)
       then [] else [status_change (status m) (status (fst (update_status m)))]).
Proof.
  unfold update_status.
  destruct (HealthStatus_eqb (status m) FAILED) eqn:E.
  - apply HealthStatus_eqb_eq in E. simpl. rewrite E. reflexivity.
  - reflexivity.
Qed.

(** X8: alerts mirror the transitions.  A call that is not a critical
    failure emits no alert when it leaves the status as it was, and
    otherwise exactly one status_change alert naming the old and the new
    status; a critical failure emits exactly the critical_failure alert. *)
Theorem alerts_mirror_transitions (m : TwitterHealthMonitor) (o : Op) :
  snd (step m o) =
  match o with
  | RecordFailure et em _ _ _ =>
      if is_critical_failure et em then [critical_failure et em]
      else if HealthStatus_eqb (status (fst (step m o))) (status m) then []
      else [status_change (status m) (status (fst (step m o)))]
  | RecordSuccess _ _ _ _ =>
      if HealthStatus_eqb (status (fst (step m o))) (status m) then []
      else [status_change (status m) (status (fst (step m o)))]
  end.
Proof.
  destruct o as [rt a b c | et em a b c]; simpl.
  - unfold record_success. now rewrite update_status_alert_shape.
  - unfold record_failure. destruct (is_critical_failure et em).
    + rewrite update_status_when_failed by reflexivity. reflexivity.
    + match goal with
      | |- context [update_status ?x] =>
          pose proof (update_status_alert_shape x) as H;
          destruct (update_status x) as [m4 al]
      end. simpl in *. exact H.
Qed.

Lemma success_rate_bounds (mt : HealthMetrics) :
  counters_ok mt ->
  (0 <= success_rate mt)%Q /\ (success_rate mt <= 1)%Q.
Proof.
  intros (Hs & Ht & Hc). unfold success_rate.
  destruct (Z.eqb_spec (total_requests mt) 0) as [E | E].
  - split; [discriminate | apply Qle_refl].
  - assert (Hpos : 0 < total_requests mt) by lia.
    split.
    + apply Qle_shift_div_l.
      * change 0%Q with (inject_Z 0). now rewrite <- Zlt_Qlt.
      * rewrite Qmult_0_l. change 0%Q with (inject_Z 0).
        now rewrite <- Zle_Qle.
    + apply Qle_shift_div_r.
      * change 0%Q with (inject_Z 0). now rewrite <- Zlt_Qlt.
      * rewrite Qmult_1_l, <- Zle_Qle. lia.
Qed.

(** X9: the success rate of the metrics is a proportion.  After any
    sequence of calls on a new monitor, success_rate lies between 0 and 1
    and failure_rate is its complement, between 0 and 1 as well. *)
Theorem rates_are_proportions (ops : list Op) :
  let mt := metrics (fst (run init ops)) in
  (0 <= success_rate mt)%Q /\ (success_rate mt <= 1)%Q /\
  (0 <= failure_rate mt)%Q /\ (failure_rate mt <= 1)%Q /\
  (success_rate mt + failure_rate mt == 1)%Q.
Proof.
  intros mt.
  assert (Hok : counters_ok mt).
  { apply run_counters. unfold counters_ok. simpl. lia. }
  destruct (success_rate_bounds mt Hok) as [H0 H1].
  unfold failure_rate. repeat split; try assumption; Lqa.lra.
Qed.

End HealthMore.

(** ** The account pool *)

Module PoolMore.

Import Pool PoolFacts PoolLogin More.

Lemma select_best_in_range (clk : nat -> Z) (pl : AccountPool) (j : nat) :
  select_best_account clk pl = Some j -> (j < length (accounts pl))%nat.
Proof.
  intros H. apply select_best_usable in H as (a & Ha & _).
  now apply lookup_lt_Some in Ha.
Qed.

Lemma mark_current_issues_length (reason : string) (pl : AccountPool) :
  length (accounts (mark_current_issues reason pl)) = length (accounts pl).
Proof.
  unfold mark_current_issues. destruct (current_account pl); [|reflexivity].
  destruct (negb _); [|reflexivity]. simpl. apply length_alter.
Qed.

Lemma rotate_account_wf (reason : string) (clk : nat -> Z) (pl : AccountPool)
    (hm : Health.TwitterHealthMonitor) :
  pool_wf pl -> pool_wf (snd (fst (rotate_account reason clk pl hm))) /\
  length (accounts (snd (fst (rotate_account reason clk pl hm))))
    = length (accounts pl).
Proof.
  intros Hwf. unfold rotate_account.
  set (pl1 := mark_current_issues reason pl).
  assert (Hlen : length (accounts pl1) = length (accounts pl))
    by apply mark_current_issues_length.
  assert (Hwf1 : pool_wf pl1).
  { unfold pool_wf, pl1. rewrite mark_current_issues_current.
    fold pl1. rewrite Hlen. exact Hwf. }
  destruct (select_best_account clk pl1) as [j|] eqn:Es; [|now split].
  destruct (option_nat_eqb _ _); [now split|]. simpl. split; [|exact Hlen].
  unfold pool_wf. simpl. now apply (select_best_in_range clk pl1).
Qed.

(** X12: the current reference never dangles.  If it is unset or points
    into the list of accounts, the same holds after add_account,
    rotate_account, get_current_client and mark_current_failed; and of
    these only add_account changes the number of accounts, by one. *)
Theorem current_reference_stays_valid (pl : AccountPool) :
  pool_wf pl ->
  (forall u e p now,
      pool_wf (add_account u e p now pl) /\
      length (accounts (add_account u e p now pl))
        = S (length (accounts pl))) /\
  (forall reason clk hm,
      pool_wf (snd (fst (rotate_account reason clk pl hm))) /\
      length (accounts (snd (fst (rotate_account reason clk pl hm))))
        = length (accounts pl)) /\
  (forall now,
      pool_wf (snd (get_current_client now pl)) /\
      length (accounts (snd (get_current_client now pl)))
        = length (accounts pl)) /\
  pool_wf (mark_current_failed pl) /\
  length (accounts (mark_current_failed pl)) = length (accounts pl).
Proof.
  intros Hwf. split; [|split; [|split]].
  - intros u e p now. unfold pool_wf, add_account in *. simpl.
    rewrite length_app. simpl. split; [|lia].
    destruct (current_account pl); [lia | exact I].
  - intros reason clk hm. now apply rotate_account_wf.
  - intros now. unfold get_current_client.
    destruct (current_account pl) as [i|] eqn:Ec; [|now split].
    destruct (accounts pl !! i); [|now split]. simpl.
    split; [|apply length_alter].
    unfold pool_wf in *. simpl. rewrite Ec in *. now rewrite length_alter.
  - unfold mark_current_failed.
    destruct (current_account pl) as [i|] eqn:Ec; [|now split].
    split; [|apply length_alter].
    unfold pool_wf in *. simpl. rewrite Ec in *. now rewrite length_alter.
Qed.

Lemma current_reference_stays_valid_witness :
  pool_wf Scenario.two_accounts_pool /\
  pool_wf (snd (fst (rotate_account "health_degraded" (fun _ => 5)
                       Scenario.two_accounts_pool Health.init))).
Proof.
  assert (H : pool_wf Scenario.two_accounts_pool)
    by (unfold pool_wf; simpl; lia).
  split; [exact H |].
  exact (proj1 (proj1 (proj2 (current_reference_stays_valid
                                Scenario.two_accounts_pool H))
                  "health_degraded" (fun _ => 5) Health.init)).
Defined.

Lemma same_identity_refl (a : TwitterAccount) : same_identity a a.
Proof. unfold same_identity. tauto. Qed.

Lemma alter_same_identities (f : TwitterAccount -> TwitterAccount) (i : nat)
    (pl : AccountPool) :
  (forall a, same_identity a (f a)) ->
  same_identities pl (update_account f i pl).
Proof.
  intros Hf. split; [simpl; apply length_alter|].
  intros j a Hj. simpl.
  destruct (Nat.eq_dec i j) as [<- | Hne].
  - rewrite list_lookup_alter_eq, Hj. simpl. now exists (f a).
  - rewrite list_lookup_alter_ne by exact Hne.
    exists a. split; [exact Hj | apply same_identity_refl].
Qed.

Lemma same_identities_refl (pl : AccountPool) : same_identities pl pl.
Proof.
  split; [reflexivity|]. intros i a Hi. exists a.
  split; [exact Hi | apply same_identity_refl].
Qed.

(** X13: inside the pool a ban is for good.  rotate_account,
    get_current_client and mark_current_failed keep every identity in its
    place with its credentials, client and active flag, and never clear a
    banned flag. *)
Theorem pool_operations_never_unban (pl : AccountPool) :
  (forall reason clk hm,
      same_identities pl (snd (fst (rotate_account reason clk pl hm)))) /\
  (forall now, same_identities pl (snd (get_current_client now pl))) /\
  same_identities pl (mark_current_failed pl).
Proof.
  split; [|split].
  - intros reason clk hm.
    assert (H1 : same_identities pl (mark_current_issues reason pl)).
    { unfold mark_current_issues.
      destruct (current_account pl) as [i|]; [|apply same_identities_refl].
      destruct (negb _); [|apply same_identities_refl].
      apply alter_same_identities. intros a. unfold same_identity. simpl. tauto. }
    unfold rotate_account.
    destruct (select_best_account clk _); [|exact H1].
    destruct (option_nat_eqb _ _); exact H1.
  - intros now. unfold get_current_client.
    destruct (current_account pl) as [i|]; [|apply same_identities_refl].
    destruct (accounts pl !! i); [|apply same_identities_refl]. simpl.
    apply alter_same_identities. intros a. unfold same_identity. simpl. tauto.
  - unfold mark_current_failed.
    destruct (current_account pl) as [i|]; [|apply same_identities_refl].
    apply alter_same_identities. intros a. unfold same_identity. simpl. tauto.
Qed.

Lemma count_usable_ban (l : list TwitterAccount) (i : nat) (a : TwitterAccount) :
  l !! i = Some a -> usable a = true ->
  S (count_usable (alter set_banned i l)) = count_usable l.
Proof.
  unfold count_usable. revert i.
  induction l as [|b l IH]; intros [|i] Hi Hu; try discriminate Hi.
  - injection Hi as ->. simpl. rewrite usable_banned, Hu. reflexivity.
  - simpl in Hi. simpl.
    change (alter set_banned i l) with (alter set_banned i l).
    destruct (usable b); simpl; rewrite <- (IH i Hi Hu); reflexivity.
Qed.

(** X14: an automatic rotation uses up an identity.  When the reason is
    not "manual" and the current identity is active and unbanned, the pool
    has exactly one usable identity less after rotate_account, whether the
    rotation succeeds or not. *)
Theorem automatic_rotation_uses_up_identity (reason : string)
    (clk : nat -> Z) (pl : AccountPool) (hm : Health.TwitterHealthMonitor)
    (i : nat) (a : TwitterAccount) :
  reason <> "manual" ->
  current_account pl = Some i -> accounts pl !! i = Some a ->
  usable a = true ->
  S (count_usable (accounts (snd (fst (rotate_account reason clk pl hm)))))
    = count_usable (accounts pl).
Proof.
  intros Hr Hc Ha Hu.
  assert (Hacc : accounts (snd (fst (rotate_account reason clk pl hm)))
                 = alter set_banned i (accounts pl)).
  { unfold rotate_account.
    rewrite (mark_current_issues_auto reason pl i Hr Hc).
    destruct (select_best_account clk _); [|reflexivity].
    destruct (option_nat_eqb _ _); reflexivity. }
  rewrite Hacc. now apply (count_usable_ban _ i a).
Qed.

Lemma automatic_rotation_uses_up_identity_witness :
  S (count_usable
       (accounts (snd (fst (rotate_account "health_degraded" (fun _ => 5)
                              Scenario.two_accounts_pool Health.init)))))
    = count_usable (accounts Scenario.two_accounts_pool).
Proof.
  apply (automatic_rotation_uses_up_identity "health_degraded" (fun _ => 5)
           Scenario.two_accounts_pool Health.init 0 Scenario.used_identity).
  - discriminate.
  - reflexivity.
  - reflexivity.
  - reflexivity.
Defined.

(** X15: a rotation that reports success lands on a usable identity.  If
    rotate_account returns True, the new current identity is another one
    than before, it is active and not banned, the health monitor is as new,
    and get_current_client hands out its client. *)
Theorem successful_rotation_is_usable (reason : string) (clk : nat -> Z)
    (pl pl' : AccountPool) (hm hm' : Health.TwitterHealthMonitor) (now : Z) :
  rotate_account reason clk pl hm = (true, pl', hm') ->
  exists j a,
    current_account pl' = Some j /\ current_account pl <> Some j /\
    accounts pl' !! j = Some a /\
    is_active a = true /\ is_banned a = false /\
    hm' = Health.init /\
    fst (get_current_client now pl') = client a.
Proof.
  unfold rotate_account.
  set (pl1 := mark_current_issues reason pl).
  destruct (select_best_account clk pl1) as [j|] eqn:Es; [|discriminate].
  destruct (option_nat_eqb (Some j) (current_account pl1)) eqn:Eq;
    [discriminate|].
  intros [= <- <-].
  apply select_best_usable in Es as (a & Ha & Hu).
  apply usable_spec in Hu as [Hact Hban].
  exists j, a. simpl. repeat split; try assumption.
  - intros Hc. unfold pl1 in Eq. rewrite mark_current_issues_current, Hc in Eq.
    simpl in Eq. now rewrite Nat.eqb_refl in Eq.
  - unfold get_current_client. simpl. now rewrite Ha.
Qed.

Lemma successful_rotation_is_usable_witness :
  exists j a,
    current_account
      (set_current (Some 1%nat)
         (update_account set_banned 0 Scenario.two_accounts_pool)) = Some j /\
    current_account Scenario.two_accounts_pool <> Some j /\
    accounts (set_current (Some 1%nat)
                (update_account set_banned 0 Scenario.two_accounts_pool))
      !! j = Some a /\
    is_active a = true /\ is_banned a = false /\
    Health.reset Health.init = Health.init /\
    fst (get_current_client 9
           (set_current (Some 1%nat)
              (update_account set_banned 0 Scenario.two_accounts_pool)))
      = client a.
Proof.
  apply (successful_rotation_is_usable "health_degraded" (fun _ => 5)
           Scenario.two_accounts_pool _ Health.init _ 9).
  vm_compute. reflexivity.
Defined.

Lemma login_client (c : Client) (auth : Authenticator) (a : TwitterAccount) :
  client (snd (login c auth a)) = Some c.
Proof.
  unfold login.
  destruct (cookies_exist auth), (load_cookies auth), (client_login auth),
    (save_cookies auth); reflexivity.
Qed.

Lemma login_new_account (c : Client) (auth : Authenticator)
    (a : TwitterAccount) :
  is_active a = false -> is_banned a = false ->
  usable (snd (login c auth a)) = fst (login c auth a).
Proof.
  intros Hact Hban. unfold login, usable.
  destruct (cookies_exist auth), (load_cookies auth), (client_login auth),
    (save_cookies auth); simpl; rewrite ?Hact, ?Hban; reflexivity.
Qed.

Lemma initialize_accounts (mk : nat -> Client) (auth : nat -> Authenticator)
    (clk : nat -> Z) (pl : AccountPool) (i : nat) :
  accounts (initialize mk auth clk pl) !! i
    = (fun a => snd (login (mk i) (auth i) a)) <$> accounts pl !! i.
Proof. unfold initialize. simpl. apply list_lookup_imap. Qed.

(** X16: initialize makes current an identity whose login worked.  For a
    pool of accounts as add_account creates them (inactive, unbanned):
    after initialize every account holds the client made for it; the
    accounts kept their places; if a current identity is set, its login
    returned True and get_current_client hands out its client; and no
    current identity is set exactly when every login returned False. *)
Theorem initialize_selects_logged_in (mk : nat -> Client)
    (auth : nat -> Authenticator) (clk : nat -> Z) (pl : AccountPool)
    (now : Z) :
  (forall i a, accounts pl !! i = Some a ->
               is_active a = false /\ is_banned a = false) ->
  length (accounts (initialize mk auth clk pl)) = length (accounts pl) /\
  (forall i a', accounts (initialize mk auth clk pl) !! i = Some a' ->
                client a' = Some (mk i)) /\
  (forall i, current_account (initialize mk auth clk pl) = Some i ->
     exists a, accounts pl !! i = Some a /\
               fst (login (mk i) (auth i) a) = true /\
               fst (get_current_client now (initialize mk auth clk pl))
                 = Some (mk i)) /\
  (current_account (initialize mk auth clk pl) = None <->
   forall i a, accounts pl !! i = Some a ->
               fst (login (mk i) (auth i) a) = false).
Proof.
  intros Hnew.
  set (pl1 := mkPool (imap (fun i a => snd (login (mk i) (auth i) a))
                           (accounts pl))
                     (current_account pl) (min_rest_minutes pl)).
  assert (Hlook : forall i, accounts pl1 !! i
                  = (fun a => snd (login (mk i) (auth i) a)) <$> accounts pl !! i).
  { intros i. apply list_lookup_imap. }
  assert (Hcur : current_account (initialize mk auth clk pl)
                 = select_best_account clk pl1) by reflexivity.
  split; [|split; [|split]].
  - unfold initialize. simpl. apply length_imap.
  - intros i a' Hi. rewrite initialize_accounts in Hi.
    destruct (accounts pl !! i) as [a|]; [|discriminate Hi].
    injection Hi as <-. apply login_client.
  - intros i Hi. pose proof Hi as Hsel. rewrite Hcur in Hsel.
    apply select_best_usable in Hsel as (a' & Ha' & Hu).
    rewrite Hlook in Ha'.
    destruct (accounts pl !! i) as [a|] eqn:Ea; [|discriminate Ha'].
    injection Ha' as <-.
    destruct (Hnew i a Ea) as [Hact Hban].
    rewrite (login_new_account _ _ _ Hact Hban) in Hu.
    exists a. split; [reflexivity | split; [exact Hu |]].
    unfold get_current_client. rewrite Hi, initialize_accounts, Ea. simpl.
    apply login_client.
  - rewrite Hcur. split.
    + intros Hnone i a Ha.
      pose proof (select_best_account_cases clk pl1) as H.
      rewrite Hnone in H.
      specialize (H i (snd (login (mk i) (auth i) a))).
      rewrite Hlook, Ha in H. specialize (H eq_refl).
      destruct (Hnew i a Ha) as [Hact Hban].
      now rewrite (login_new_account _ _ _ Hact Hban) in H.
    + intros Hall. apply select_best_none. intros i a' Ha'.
      rewrite Hlook in Ha'.
      destruct (accounts pl !! i) as [a|] eqn:Ea; [|discriminate Ha'].
      injection Ha' as <-.
      destruct (Hnew i a Ea) as [Hact Hban].
      rewrite (login_new_account _ _ _ Hact Hban). now apply Hall.
Qed.

Lemma initialize_selects_logged_in_witness :
  current_account (initialize (fun i => i) MoreScenario.second_works
                     (fun _ => 5) MoreScenario.two_new_accounts)
    = Some 1%nat /\
  exists a, accounts MoreScenario.two_new_accounts !! 1%nat = Some a /\
    fst (login 1%nat (MoreScenario.second_works 1) a) = true /\
    fst (get_current_client 9
           (initialize (fun i => i) MoreScenario.second_works (fun _ => 5)
              MoreScenario.two_new_accounts)) = Some 1%nat.
Proof.
  assert (Hnew : forall i a,
             accounts MoreScenario.two_new_accounts !! i = Some a ->
             is_active a = false /\ is_banned a = false).
  { intros [|[|i]] a Ha; try discriminate Ha;
      injection Ha as <-; split; reflexivity. }
  assert (Hc : current_account
                 (initialize (fun i => i) MoreScenario.second_works
                    (fun _ => 5) MoreScenario.two_new_accounts) = Some 1%nat)
    by (vm_compute; reflexivity).
  split; [exact Hc |].
  exact (proj1 (proj2 (proj2
           (initialize_selects_logged_in (fun i => i)
              MoreScenario.second_works (fun _ => 5)
              MoreScenario.two_new_accounts 9 Hnew))) 1%nat Hc).
Defined.

End PoolMore.

(** ** The failover orchestrator *)

Module UnifiedMore.

Import Health Unified HealthFacts UnifiedFacts Aux More.

Lemma flag_step_refl (w : World) : flag_step w w.
Proof. unfold flag_step. tauto. Qed.

Lemma flag_step_trans (w1 w2 w3 : World) :
  flag_step w1 w2 -> flag_step w2 w3 -> flag_step w1 w3.
Proof.
  unfold flag_step. intros (Hg & Hm & Hs) (Hg' & Hm' & Hs').
  split; [congruence | split; [tauto |]].
  intros H. destruct (Hs' H) as [H2 | H2]; [tauto | right; congruence].
Qed.

Lemma bind_inv {A B} (c : M A) (k : A -> M B) (w w' : World) (b : B) :
  (c ≫= k) w = (Ok b, w') ->
  exists a w1, c w = (Ok a, w1) /\ k a w1 = (Ok b, w').
Proof.
  unfold mbind, M_bind. destruct (c w) as [[a | e |] w1]; intros H;
    try discriminate H. now exists a, w1.
Qed.

Lemma respects_bind {A B} (R : World -> World -> Prop) (c : M A)
    (k : A -> M B) :
  (forall w, R w w) -> (forall a b c, R a b -> R b c -> R a c) ->
  respects R c -> (forall a, respects R (k a)) -> respects R (c ≫= k).
Proof.
  intros Hrefl Htrans Hc Hk w. specialize (Hc w).
  unfold mbind, M_bind. destruct (c w) as [[a | e |] w1]; simpl in *.
  - eapply Htrans; [exact Hc | apply Hk].
  - exact Hc.
  - exact Hc.
Qed.

Lemma respects_try {A} (R : World -> World -> Prop) (c : M A)
    (h : Exn -> M A) :
  (forall a b c, R a b -> R b c -> R a c) ->
  respects R c -> (forall e, respects R (h e)) -> respects R (try_except c h).
Proof.
  intros Htrans Hc Hh w. specialize (Hc w).
  unfold try_except. destruct (c w) as [[a | e |] w1]; simpl in *.
  - exact Hc.
  - eapply Htrans; [exact Hc | apply Hh].
  - exact Hc.
Qed.

Lemma ends_bind {A B} (c : M A) (k : A -> M B) :
  ends c -> (forall a, ends (k a)) -> ends (c ≫= k).
Proof.
  intros Hc Hk w. specialize (Hc w).
  unfold mbind, M_bind. destruct (c w) as [[a | e |] w1]; simpl in *.
  - apply Hk.
  - discriminate.
  - contradiction.
Qed.

Lemma ends_try {A} (c : M A) (h : Exn -> M A) :
  ends c -> (forall e, ends (h e)) -> ends (try_except c h).
Proof.
  intros Hc Hh w. specialize (Hc w).
  unfold try_except. destruct (c w) as [[a | e |] w1]; simpl in *.
  - discriminate.
  - apply Hh.
  - contradiction.
Qed.

Section WithEnv.

Variable E : Env.

Lemma bind_flag {A B} (c : M A) (k : A -> M B) :
  respects flag_step c -> (forall a, respects flag_step (k a)) ->
  respects flag_step (c ≫= k).
Proof.
  apply respects_bind; [apply flag_step_refl | apply flag_step_trans].
Qed.

Lemma get_flag {A} (f : World -> A) : respects flag_step (get f).
Proof. flag_prim. Qed.

Lemma now_flag : respects flag_step (now E).
Proof. flag_prim. Qed.

Lemma ret_flag {A} (a : A) : respects flag_step (ret a).
Proof. flag_prim. Qed.

Lemma raise_flag {A} (e : Exn) : respects flag_step (@raise A e).
Proof. flag_prim. Qed.

Lemma lift_flag {A} (o : outcome A) : respects flag_step (lift o).
Proof. flag_prim. Qed.

Lemma trigger_alert_flag (ty msg : string) :
  respects flag_step (trigger_alert E ty msg).
Proof. flag_prim. Qed.

Lemma switch_to_grok_flag (reason : string) :
  respects flag_step (switch_to_grok E reason).
Proof.
  intros [m p li ug c al ts tk]. unfold flag_step.
  destruct ug, li; simpl; tauto.
Qed.

Lemma on_health_alert_flag (a : Health.Alert) :
  respects flag_step (on_health_alert E a).
Proof.
  intros [m p li ug c al ts tk]. unfold flag_step.
  destruct a as [et em | old new]; [|destruct new];
    destruct ug, li; simpl; tauto.
Qed.

Lemma dispatch_flag (al : list Health.Alert) :
  respects flag_step (dispatch E al).
Proof.
  induction al as [|a al IH]; simpl; [apply ret_flag|].
  apply bind_flag; [apply on_health_alert_flag | intros _; exact IH].
Qed.

Lemma record_failure_flag (et em : string) :
  respects flag_step (record_failure E et em).
Proof.
  intros w. rewrite record_failure_run. unfold reads. cbv zeta iota beta.
  eapply flag_step_trans; [|apply dispatch_flag].
  unfold flag_step. simpl. tauto.
Qed.

Lemma record_success_flag (rt : Q) :
  respects flag_step (record_success E rt).
Proof.
  intros w. rewrite record_success_run. unfold reads. cbv zeta iota beta.
  eapply flag_step_trans; [|apply dispatch_flag].
  unfold flag_step. simpl. tauto.
Qed.

Lemma get_current_client_flag : respects flag_step (get_current_client E).
Proof.
  intros w. rewrite get_current_client_run. unfold flag_step. simpl. tauto.
Qed.

Lemma search_queries_flag (c : Pool.Client) (tf : Z) (queries : list string)
    (all_tweets : list Tweet) :
  respects flag_step (search_queries E c tf queries all_tweets).
Proof.
  revert all_tweets. induction queries as [|q rest IH]; intros all_tweets.
  - apply ret_flag.
  - simpl. apply bind_flag; [|intros a; apply IH].
    intros w. destruct (search_query_caught E c tf q all_tweets w)
      as (w' & H & Hm & Hp & Hg & Hu & _). rewrite H. simpl.
    unfold flag_step. rewrite Hg, Hu. tauto.
Qed.

Lemma attempt_flag (key : string) (queries : list string) (tf st : Z) :
  respects flag_step (attempt E key queries tf st).
Proof.
  unfold attempt. apply bind_flag; [apply get_flag | intros ug].
  apply bind_flag.
  - destruct ug.
    + apply bind_flag; [apply lift_flag | intros r; apply ret_flag].
    + apply bind_flag; [apply get_current_client_flag | intros [c|]].
      * apply bind_flag; [apply search_queries_flag | intros t; apply ret_flag].
      * apply raise_flag.
  - intros result. apply bind_flag; [apply now_flag | intros t].
    apply bind_flag; [apply record_success_flag | intros _].
    apply bind_flag; [flag_prim | intros _; apply ret_flag].
Qed.

Lemma handle_failure_flag (retry : M SearchResult) (e : Exn) :
  respects flag_step retry -> respects flag_step (handle_failure E retry e).
Proof.
  intros Hr. unfold handle_failure.
  apply bind_flag; [apply record_failure_flag | intros _].
  apply bind_flag; [flag_prim | intros _].
  apply bind_flag; [apply get_flag | intros sf].
  apply bind_flag; [apply get_flag | intros ug].
  destruct (sf && negb ug).
  - apply bind_flag; [apply switch_to_grok_flag | intros _; exact Hr].
  - apply raise_flag.
Qed.

Lemma search_token_flag (fuel : nat) (queries : list string) (tf : Z) :
  respects flag_step (search_token E fuel queries tf).
Proof.
  induction fuel as [|fuel IH]; [apply lift_flag|].
  rewrite search_token_unfold.
  apply bind_flag; [apply get_flag | intros [r|]]; [apply ret_flag|].
  apply bind_flag; [apply now_flag | intros st].
  apply respects_try; [apply flag_step_trans | apply attempt_flag |].
  intros e. now apply handle_failure_flag.
Qed.

(** X17: the provider flag and the fallback's key.  A request never
    changes whether the fallback is configured, never clears the provider
    flag, and sets it only if the fallback is configured: if the flag
    implies a configured fallback before search_token, it does so after,
    whatever the providers do and however deep the recursion goes. *)
Theorem flag_only_with_configured_fallback (fuel : nat)
    (queries : list string) (tf : Z) (w : World) :
  (use_grok w = true -> grok_logged_in w = true) ->
  grok_logged_in (snd (search_token E fuel queries tf w)) = grok_logged_in w /\
  (use_grok w = true ->
   use_grok (snd (search_token E fuel queries tf w)) = true) /\
  (use_grok (snd (search_token E fuel queries tf w)) = true ->
   grok_logged_in w = true).
Proof.
  intros Hinv.
  destruct (search_token_flag fuel queries tf w) as (Hg & Hm & Hs).
  split; [exact Hg | split; [exact Hm |]].
  intros H. destruct (Hs H) as [H1 | H1]; [now apply Hinv | exact H1].
Qed.

Lemma record_failure_ok (et em : string) (w : World) :
  exists w1, record_failure E et em w = (Ok tt, w1) /\
             hm w1 = fst (Health.record_failure et em
                            (clock E (ticks w)) (clock E (S (ticks w)))
                            (clock E (S (S (ticks w)))) (hm w)) /\
             frame w w1 /\ flag_step w w1.
Proof.
  pose proof (record_failure_frame E et em w) as H.
  unfold reads in H. cbv zeta iota beta in H.
  destruct H as (w1 & H1 & Hm & Hf).
  exists w1. split; [exact H1 | split; [exact Hm | split; [exact Hf |]]].
  pose proof (record_failure_flag et em w) as Hfl.
  rewrite H1 in Hfl. exact Hfl.
Qed.

Lemma record_success_ok (rt : Q) (w : World) :
  exists w1, record_success E rt w = (Ok tt, w1) /\
             hm w1 = fst (Health.record_success rt
                            (clock E (ticks w)) (clock E (S (ticks w)))
                            (clock E (S (S (ticks w)))) (hm w)) /\
             frame w w1 /\ flag_step w w1.
Proof.
  pose proof (record_success_frame E rt w) as H.
  unfold reads in H. cbv zeta iota beta in H.
  destruct H as (w1 & H1 & Hm & Hf).
  exists w1. split; [exact H1 | split; [exact Hm | split; [exact Hf |]]].
  pose proof (record_success_flag rt w) as Hfl.
  rewrite H1 in Hfl. exact Hfl.
Qed.

(** The handler of [search_token], step by step. *)
Lemma handle_failure_cases (retry : M SearchResult) (e : Exn) (w : World) :
  exists w1,
    record_failure E (exn_type e) (exn_msg e) w = (Ok tt, w1) /\
    handle_failure E retry e w =
    (if should_failover (hm w1) && negb (use_grok w1)
     then (switch_to_grok E ("连续失败: " ++ exn_type e)%string ;; retry)
            (with_pool (Pool.mark_current_failed (pool w1)) w1)
     else (Raise e, with_pool (Pool.mark_current_failed (pool w1)) w1)).
Proof.
  destruct (record_failure_ok (exn_type e) (exn_msg e) w) as (w1 & H1 & _).
  exists w1. split; [exact H1|].
  unfold handle_failure. rewrite (bind_run _ _ _ _ _ H1).
  unfold mbind at 1, M_bind at 1, modify at 1.
  unfold mbind at 1, M_bind at 1, get at 1.
  unfold mbind at 1, M_bind at 1, get at 1.
  simpl. destruct (should_failover (hm w1) && negb (use_grok w1)); reflexivity.
Qed.

Lemma ends_get {A} (f : World -> A) : ends (get f).
Proof. intros w. discriminate. Qed.

Lemma ends_ret {A} (a : A) : ends (ret a).
Proof. intros w. discriminate. Qed.

Lemma ends_raise {A} (e : Exn) : ends (@raise A e).
Proof. intros w. discriminate. Qed.

Lemma ends_now : ends (now E).
Proof. intros w. discriminate. Qed.

Lemma ends_modify (f : World -> World) : ends (modify f).
Proof. intros w. discriminate. Qed.

Lemma ends_await {A} (r : result A) : ends (await r).
Proof. intros w. destruct r; discriminate. Qed.

Lemma attempt_ends (key : string) (queries : list string) (tf st : Z) :
  ends (attempt E key queries tf st).
Proof.
  unfold attempt. apply ends_bind; [apply ends_get | intros ug].
  apply ends_bind.
  - destruct ug.
    + apply ends_bind; [apply ends_await | intros r; apply ends_ret].
    + apply ends_bind.
      * intros w. rewrite get_current_client_run. discriminate.
      * intros [c|]; [|apply ends_raise].
        apply ends_bind; [|intros t; apply ends_ret].
        intros w. destruct (search_queries_nothing E c tf queries w)
          as (w' & H & _). rewrite H. discriminate.
  - intros result. apply ends_bind; [apply ends_now | intros t].
    apply ends_bind.
    + intros w. destruct (record_success_ok
                            (inject_Z (t - st) / inject_Z 1000000)%Q w)
        as (w1 & H & _). rewrite H. discriminate.
    + intros _. apply ends_bind; [apply ends_modify | intros _; apply ends_ret].
Qed.

(** On the fallback path a request that is not answered from the cache
    makes one attempt. *)
Lemma on_fallback_ends (fuel : nat) (queries : list string) (tf : Z)
    (w : World) :
  use_grok w = true ->
  fst (search_token E (S fuel) queries tf w) <> OutOfFuel.
Proof.
  intros Hug. rewrite search_token_unfold.
  unfold mbind at 1, M_bind at 1, get at 1.
  destruct (cache w !! cache_key queries tf) as [r|]; [discriminate|].
  unfold mbind at 1, M_bind at 1, now at 1. unfold try_except.
  pose proof (attempt_ends (cache_key queries tf) queries tf
                (clock E (ticks w)) (tick w)) as Hend.
  pose proof (attempt_flag (cache_key queries tf) queries tf
                (clock E (ticks w)) (tick w)) as (_ & Hmono & _).
  destruct (attempt E _ queries tf _ (tick w)) as [[r | e |] w2];
    cbn [fst snd] in *; [discriminate | | contradiction].
  destruct (handle_failure_cases (search_token E fuel queries tf) e w2)
    as (w3 & H3 & Heq).
  rewrite Heq.
  pose proof (record_failure_flag (exn_type e) (exn_msg e) w2)
    as (_ & Hmono3 & _).
  rewrite H3 in Hmono3. simpl in Hmono3.
  rewrite (Hmono3 (Hmono Hug)), andb_false_r. discriminate.
Qed.

(** X18: with the fallback configured a request ends after one retry at
    most.  Whatever the providers do, search_token returns or raises
    within two nested calls when the fallback has its key, and within one
    call when the fallback is already active. *)
Theorem one_retry_at_most (fuel : nat) (queries : list string) (tf : Z)
    (w : World) :
  (grok_logged_in w = true ->
   fst (search_token E (S (S fuel)) queries tf w) <> OutOfFuel) /\
  (use_grok w = true ->
   fst (search_token E (S fuel) queries tf w) <> OutOfFuel).
Proof.
  split; [|apply on_fallback_ends].
  intros Hli. rewrite search_token_unfold.
  unfold mbind at 1, M_bind at 1, get at 1.
  destruct (cache w !! cache_key queries tf) as [r|]; [discriminate|].
  unfold mbind at 1, M_bind at 1, now at 1. unfold try_except.
  pose proof (attempt_ends (cache_key queries tf) queries tf
                (clock E (ticks w)) (tick w)) as Hend.
  pose proof (attempt_flag (cache_key queries tf) queries tf
                (clock E (ticks w)) (tick w)) as (Hg2 & _ & _).
  destruct (attempt E _ queries tf _ (tick w)) as [[r | e |] w2];
    cbn [fst snd] in *; [discriminate | | contradiction].
  destruct (handle_failure_cases (search_token E (S fuel) queries tf) e w2)
    as (w3 & H3 & Heq).
  rewrite Heq.
  pose proof (record_failure_flag (exn_type e) (exn_msg e) w2)
    as (Hg3 & _ & _).
  rewrite H3 in Hg3. simpl in Hg3.
  destruct (should_failover (hm w3) && negb (use_grok w3)) eqn:Ec;
    [|discriminate].
  apply andb_true_iff in Ec as [_ Hug3]. apply negb_true_iff in Hug3.
  set (w4 := with_pool (Pool.mark_current_failed (pool w3)) w3).
  destruct (switch_to_grok_frame E ("连续失败: " ++ exn_type e)%string w4)
    as (w5 & H5 & _ & _ & Hset).
  rewrite (bind_run _ _ _ _ _ H5).
  apply on_fallback_ends, Hset; [exact Hug3|].
  unfold w4. simpl. rewrite Hg3, Hg2. exact Hli.
Qed.

Lemma attempt_on_fallback (key : string) (queries : list string) (tf st : Z)
    (w : World) :
  use_grok w = true ->
  match grok_search_token E queries tf with
  | Raises e => attempt E key queries tf st w = (Raise e, w)
  | Returns r =>
      exists w2,
        record_success E
          (inject_Z (clock E (ticks w) - st) / inject_Z 1000000)%Q (tick w)
          = (Ok tt, w2) /\
        attempt E key queries tf st w =
        (Ok (set_source "grok_api" r),
         with_cache (<[key := set_source "grok_api" r]> (cache w2)) w2)
  end.
Proof.
  intros Hug.
  destruct (grok_search_token E queries tf) as [r | e] eqn:Eg.
  - destruct (record_success_ok
                (inject_Z (clock E (ticks w) - st) / inject_Z 1000000)%Q
                (tick w)) as (w2 & H2 & _).
    exists w2. split; [exact H2|].
    unfold attempt.
    unfold mbind at 1, M_bind at 1, get at 1. rewrite Hug, Eg.
    unfold await, lift.
    unfold mbind at 1, M_bind at 1. simpl.
    unfold mbind at 1, M_bind at 1, now at 1.
    rewrite (bind_run _ _ _ _ _ H2). reflexivity.
  - unfold attempt.
    unfold mbind at 1, M_bind at 1, get at 1. rewrite Hug, Eg.
    reflexivity.
Qed.

Lemma record_failure_counts (et em : string) (t1 t2 t3 : Z)
    (m : TwitterHealthMonitor) :
  failed_requests (metrics (fst (Health.record_failure et em t1 t2 t3 m)))
    = failed_requests (metrics m) + 1 /\
  successful_requests (metrics (fst (Health.record_failure et em t1 t2 t3 m)))
    = successful_requests (metrics m).
Proof.
  pose proof (HealthMore.step_metrics m (RecordFailure et em t1 t2 t3)) as H.
  simpl in H. rewrite H. split; reflexivity.
Qed.

Lemma fallback_request (fuel : nat) (queries : list string) (tf : Z)
    (w : World) :
  use_grok w = true -> cache w !! cache_key queries tf = None ->
  match grok_search_token E queries tf with
  | Returns r =>
      exists w',
        search_token E (S fuel) queries tf w
          = (Ok (set_source "grok_api" r), w') /\
        successful_requests (metrics (hm w'))
          = successful_requests (metrics (hm w)) + 1 /\
        cache w' !! cache_key queries tf = Some (set_source "grok_api" r) /\
        pool w' = pool w /\ use_grok w' = true
  | Raises e =>
      exists w',
        search_token E (S fuel) queries tf w = (Raise e, w') /\
        failed_requests (metrics (hm w'))
          = failed_requests (metrics (hm w)) + 1 /\
        cache w' = cache w /\
        pool w' = Pool.mark_current_failed (pool w) /\ use_grok w' = true
  end.
Proof.
  intros Hug Hcache.
  pose proof (attempt_on_fallback (cache_key queries tf) queries tf
                (clock E (ticks w)) (tick w) Hug) as Hatt.
  destruct (grok_search_token E queries tf) as [r | e].
  - destruct Hatt as (w2 & H2 & Hatt).
    destruct (record_success_ok
                (inject_Z (clock E (ticks (tick w)) - clock E (ticks w))
                 / inject_Z 1000000)%Q (tick (tick w)))
      as (w2' & H2' & Hm & (Hp & Hg & Hc & _) & (_ & Hmono & _)).
    rewrite H2 in H2'. injection H2' as <-.
    eexists. split.
    + rewrite search_token_unfold.
      unfold mbind at 1, M_bind at 1, get at 1. rewrite Hcache.
      unfold mbind at 1, M_bind at 1, now at 1. unfold try_except.
      rewrite Hatt. reflexivity.
    + simpl. rewrite Hm.
      split; [apply record_success_counts|].
      split; [apply lookup_insert_eq|].
      split; [exact Hp | now apply Hmono].
  - destruct (handle_failure_cases (search_token E fuel queries tf) e (tick w))
      as (w3 & H3 & Heq).
    destruct (record_failure_ok (exn_type e) (exn_msg e) (tick w))
      as (w3' & H3' & Hm & (Hp & Hg & Hc & _) & (_ & Hmono & _)).
    rewrite H3 in H3'. injection H3' as <-.
    assert (Hug3 : use_grok w3 = true) by now apply Hmono.
    rewrite Hug3, andb_false_r in Heq.
    eexists. split.
    + rewrite search_token_unfold.
      unfold mbind at 1, M_bind at 1, get at 1. rewrite Hcache.
      unfold mbind at 1, M_bind at 1, now at 1. unfold try_except.
      rewrite Hatt. exact Heq.
    + simpl. rewrite Hm, Hp.
      split; [apply record_failure_counts|].
      split; [exact Hc | split; [reflexivity | exact Hug3]].
Qed.

(** X19: on the fallback path a request is one attempt.  When the
    fallback is active and the cache has no answer: if the fallback
    provider answers, search_token returns its answer tagged grok_api,
    records a success and stores the answer in the cache; if it raises,
    search_token records one failure, charges it to the current scraping
    identity (mark_current_failed), leaves the cache alone and raises the
    same error without a retry.  The fallback stays active either way. *)
Theorem fallback_path_single_attempt (fuel : nat) (queries : list string)
    (tf : Z) (w : World) :
  use_grok w = true -> cache w !! cache_key queries tf = None ->
  match grok_search_token E queries tf with
  | Returns r =>
      exists w',
        search_token E (S fuel) queries tf w
          = (Ok (set_source "grok_api" r), w') /\
        successful_requests (metrics (hm w'))
          = successful_requests (metrics (hm w)) + 1 /\
        cache w' !! cache_key queries tf = Some (set_source "grok_api" r) /\
        pool w' = pool w /\ use_grok w' = true
  | Raises e =>
      exists w',
        search_token E (S fuel) queries tf w = (Raise e, w') /\
        failed_requests (metrics (hm w'))
          = failed_requests (metrics (hm w)) + 1 /\
        cache w' = cache w /\
        pool w' = Pool.mark_current_failed (pool w) /\ use_grok w' = true
  end.
Proof. apply fallback_request. Qed.

Lemma attempt_ok_caches (key : string) (queries : list string) (tf st : Z)
    (w w' : World) (r : SearchResult) :
  attempt E key queries tf st w = (Ok r, w') -> cache w' !! key = Some r.
Proof.
  unfold attempt. intros H.
  apply bind_inv in H as (ug & w1 & _ & H).
  apply bind_inv in H as (result & w2 & _ & H).
  apply bind_inv in H as (t & w3 & _ & H).
  apply bind_inv in H as (u & w4 & _ & H).
  apply bind_inv in H as (u' & w5 & Hmod & H).
  unfold modify in Hmod. injection Hmod as _ <-.
  unfold ret, mret, M_ret in H. injection H as <- <-.
  simpl. apply lookup_insert_eq.
Qed.

Lemma search_token_caches (fuel : nat) (queries : list string) (tf : Z)
    (w w' : World) (r : SearchResult) :
  search_token E fuel queries tf w = (Ok r, w') ->
  cache w' !! cache_key queries tf = Some r.
Proof.
  revert w. induction fuel as [|fuel IH]; intros w; [discriminate|].
  rewrite search_token_unfold.
  unfold mbind at 1, M_bind at 1, get at 1.
  destruct (cache w !! cache_key queries tf) as [r0|] eqn:Ec.
  - unfold ret, mret, M_ret. intros [= <- <-]. exact Ec.
  - unfold mbind at 1, M_bind at 1, now at 1. unfold try_except.
    destruct (attempt E _ queries tf _ (tick w)) as [[r1 | e |] w2] eqn:Ea.
    + intros [= <- <-]. now apply attempt_ok_caches in Ea.
    + destruct (handle_failure_cases (search_token E fuel queries tf) e w2)
        as (w3 & _ & Heq).
      rewrite Heq.
      destruct (should_failover (hm w3) && negb (use_grok w3));
        [|discriminate].
      intros H. apply bind_inv in H as (u & w5 & _ & H).
      now apply IH in H.
    + discriminate.
Qed.

(** X20: an answered request is answered again from the cache.  A cache
    hit returns the stored result and changes nothing (no clock read, no
    record in the monitor, no use of an identity); and whenever
    search_token returns a result, the same request made next, while the
    entry is still in the cache (the cache drops it after 300 seconds,
    which is a step of the outside between two requests), returns that
    result from the cache, leaving the state as it is. *)
Theorem repeated_request_hits_cache (fuel fuel' : nat)
    (queries : list string) (tf : Z) (w w' : World) (r : SearchResult) :
  (cache w !! cache_key queries tf = Some r ->
   search_token E (S fuel) queries tf w = (Ok r, w)) /\
  (search_token E fuel queries tf w = (Ok r, w') ->
   search_token E (S fuel') queries tf w' = (Ok r, w')).
Proof.
  assert (Hhit : forall f w0 r0, cache w0 !! cache_key queries tf = Some r0 ->
                 search_token E (S f) queries tf w0 = (Ok r0, w0)).
  { intros f w0 r0 Hc. rewrite search_token_unfold.
    unfold mbind at 1, M_bind at 1, get at 1. now rewrite Hc. }
  split; [apply Hhit|].
  intros H. apply Hhit. now apply search_token_caches in H.
Qed.

Lemma update_status_quiet (m : TwitterHealthMonitor) :
  snd (update_status m) = [] \/
  exists old new, new <> FAILED /\ snd (update_status m) = [status_change old new].
Proof.
  unfold update_status.
  destruct (HealthStatus_eqb (status m) FAILED); [now left|]. simpl.
  match goal with
  | |- context [HealthStatus_eqb ?n (status m)] =>
      destruct (HealthStatus_eqb n (status m)); [now left|];
      right; exists (status m), n
  end.
  split; [|reflexivity].
  repeat match goal with
         | |- context [if ?c then _ else _] => destruct c
         end; discriminate.
Qed.

Lemma quiet_alert_keeps_flag (old new : HealthStatus) (w : World) :
  new <> FAILED ->
  use_grok (snd (on_health_alert E (status_change old new) w)) = use_grok w /\
  fst (on_health_alert E (status_change old new) w) = Ok tt.
Proof.
  intros Hn. destruct w as [m p li ug c al ts tk].
  destruct new; try contradiction; destruct ug; split; reflexivity.
Qed.

Lemma record_failure_noncritical_flag (et em : string) (w w1 : World) :
  is_critical_failure et em = false ->
  record_failure E et em w = (Ok tt, w1) -> use_grok w1 = use_grok w.
Proof.
  intros Hc. rewrite record_failure_run. unfold reads. cbv zeta iota beta.
  unfold Health.record_failure. rewrite Hc.
  match goal with
  | |- context [update_status ?x] =>
      destruct (update_status_quiet x) as [Hq | (old & new & Hn & Hq)];
      destruct (update_status x) as [m4 al]
  end; cbn [snd] in Hq; subst al; cbn [fst snd app dispatch].
  - unfold ret, mret, M_ret. intros [= <-]. reflexivity.
  - set (x := with_hm m4 (tick (tick (tick w)))).
    destruct (quiet_alert_keeps_flag old new x Hn) as [Hu Hok].
    unfold mbind, M_bind.
    destruct (on_health_alert E (status_change old new) x) as [o w2].
    cbn [fst snd] in Hu, Hok. subst o.
    unfold ret, mret, M_ret. intros [= <-]. exact Hu.
Qed.

Lemma pool_exhausted_request (fuel : nat) (queries : list string) (tf : Z)
    (w : World) :
  use_grok w = false -> grok_logged_in w = true ->
  Pool.current_account (pool w) = None ->
  cache w !! cache_key queries tf = None ->
  should_failover
    (fst (Health.record_failure "Exception" "No available Twikit accounts"
            (clock E (S (S (ticks w)))) (clock E (S (S (S (ticks w)))))
            (clock E (S (S (S (S (ticks w)))))) (hm w))) = true ->
  match grok_search_token E queries tf with
  | Returns r =>
      exists w', search_token E (S (S fuel)) queries tf w
                   = (Ok (set_source "grok_api" r), w') /\
                 use_grok w' = true
  | Raises e =>
      exists w', search_token E (S (S fuel)) queries tf w = (Raise e, w') /\
                 use_grok w' = true
  end.
Proof.
  intros Hug Hli Hcur Hcache Hsf.
  set (exn := mkExn "Exception" "No available Twikit accounts").
  set (w2 := with_pool (pool (tick w)) (tick (tick w))).
  destruct (handle_failure_cases (search_token E (S fuel) queries tf) exn w2)
    as (w3 & H3 & Heq).
  destruct (record_failure_ok (exn_type exn) (exn_msg exn) w2)
    as (w3' & H3' & Hm & (Hp & Hg & Hc & _) & _).
  rewrite H3 in H3'. injection H3' as <-.
  assert (Hug3 : use_grok w3 = false).
  { assert (Hnc : is_critical_failure (exn_type exn) (exn_msg exn) = false)
      by (vm_compute; reflexivity).
    rewrite (record_failure_noncritical_flag _ _ w2 w3 Hnc H3).
    exact Hug. }
  assert (Hsf3 : should_failover (hm w3) = true) by (rewrite Hm; exact Hsf).
  rewrite Hsf3, Hug3 in Heq. cbn [andb negb] in Heq.
  set (w4 := with_pool (Pool.mark_current_failed (pool w3)) w3) in Heq.
  destruct (switch_to_grok_frame E ("连续失败: " ++ exn_type exn)%string w4)
    as (w5 & H5 & _ & (_ & _ & Hc5 & _) & Hset).
  rewrite (bind_run _ _ _ _ _ H5) in Heq.
  assert (Hug5 : use_grok w5 = true).
  { apply Hset; [exact Hug3|]. unfold w4. simpl. rewrite Hg. exact Hli. }
  assert (Hcache5 : cache w5 !! cache_key queries tf = None).
  { rewrite Hc5. unfold w4. simpl. rewrite Hc. exact Hcache. }
  assert (Hstart : search_token E (S (S fuel)) queries tf w
                   = search_token E (S fuel) queries tf w5).
  { rewrite (search_token_unfold E (S fuel)).
    unfold mbind at 1, M_bind at 1, get at 1. rewrite Hcache.
    unfold mbind at 1, M_bind at 1, now at 1. unfold try_except.
    rewrite (attempt_no_account E _ queries tf _ (tick w) Hug Hcur).
    exact Heq. }
  rewrite Hstart.
  pose proof (fallback_request fuel queries tf w5 Hug5 Hcache5) as Hfb.
  destruct (grok_search_token E queries tf) as [r | e].
  - destruct Hfb as (w' & Hr & _ & _ & _ & Hu).
    exists w'. split; [exact Hr | exact Hu].
  - destruct Hfb as (w' & Hr & _ & _ & _ & Hu).
    exists w'. split; [exact Hr | exact Hu].
Qed.

(** X21: an exhausted pool fails over to a configured fallback.  On the
    scraping path with no current identity, the fallback configured, no
    cached answer, and a monitor that asks for failover once the failure
    is recorded: search_token switches the provider flag and the caller
    gets what the fallback provider gives for the same request, its answer
    tagged grok_api or its error. *)
Theorem exhausted_pool_fails_over (fuel : nat) (queries : list string)
    (tf : Z) (w : World) :
  use_grok w = false -> grok_logged_in w = true ->
  Pool.current_account (pool w) = None ->
  cache w !! cache_key queries tf = None ->
  should_failover
    (fst (Health.record_failure "Exception" "No available Twikit accounts"
            (clock E (S (S (ticks w)))) (clock E (S (S (S (ticks w)))))
            (clock E (S (S (S (S (ticks w)))))) (hm w))) = true ->
  match grok_search_token E queries tf with
  | Returns r =>
      exists w', search_token E (S (S fuel)) queries tf w
                   = (Ok (set_source "grok_api" r), w') /\
                 use_grok w' = true
  | Raises e =>
      exists w', search_token E (S (S fuel)) queries tf w = (Raise e, w') /\
                 use_grok w' = true
  end.
Proof. apply pool_exhausted_request. Qed.

Lemma scraping_request (fuel : nat) (queries : list string) (tf : Z)
    (w : World) :
  scraping_in_order w ->
  exists r w',
    search_token E (S fuel) queries tf w = (Ok r, w') /\
    scraping_in_order w' /\
    alerts w' = alerts w /\ tasks w' = tasks w /\
    grok_logged_in w' = grok_logged_in w /\
    failed_requests (metrics (hm w')) = failed_requests (metrics (hm w)) /\
    (cache w !! cache_key queries tf = None ->
     r = set_source "twikit" (analyze_tweets E [])).
Proof.
  intros (Hug & Hst & Hcf & i & a & c & Hcur & Hi & Hcl).
  destruct (cache w !! cache_key queries tf) as [r0|] eqn:Hcache.
  { exists r0, w. split.
    - rewrite search_token_unfold.
      unfold mbind at 1, M_bind at 1, get at 1. now rewrite Hcache.
    - split; [|repeat split; discriminate].
      split; [exact Hug | split; [exact Hst | split; [exact Hcf |]]].
      now exists i, a, c. }
  set (res := set_source "twikit" (analyze_tweets E [])).
  set (w1 := tick w).
  set (p2 := Pool.update_account (Pool.mark_used (clock E (ticks w1))) i
               (pool w)).
  assert (Hgc : get_current_client E w1 = (Ok (Some c), with_pool p2 (tick w1))).
  { rewrite get_current_client_run. change (pool w1) with (pool w).
    unfold Pool.get_current_client. rewrite Hcur, Hi. simpl.
    now rewrite Hcl. }
  set (w2 := with_pool p2 (tick w1)) in Hgc.
  destruct (search_queries_nothing E c tf queries w2)
    as (w3 & H3 & Hm3 & Hp3 & Hg3 & Hu3 & Hc3 & Ha3 & Ht3).
  assert (Hinner :
    (client ← get_current_client E;
     match client with
     | None => raise (mkExn "Exception" "No available Twikit accounts")
     | Some c =>
         all_tweets ← search_queries E c tf queries [];
         ret (set_source "twikit" (analyze_tweets E all_tweets))
     end) w1 = (Ok res, w3)).
  { rewrite (bind_run _ _ _ _ _ Hgc). rewrite (bind_run _ _ _ _ _ H3).
    reflexivity. }
  set (rt := (inject_Z (clock E (ticks w3) - clock E (ticks w))
              / inject_Z 1000000)%Q).
  set (hr := Health.record_success rt (clock E (ticks (tick w3)))
               (clock E (S (ticks (tick w3))))
               (clock E (S (S (ticks (tick w3))))) (hm w)).
  assert (Hs0 : status (hm w) <> FAILED) by (rewrite Hst; discriminate).
  destruct (HealthMore.record_success_clean rt
              (clock E (ticks (tick w3))) (clock E (S (ticks (tick w3))))
              (clock E (S (S (ticks (tick w3))))) (hm w) Hs0 Hcf)
    as (Hh1 & _ & Hh3 & Hh4).
  fold hr in Hh1, Hh3, Hh4. rewrite Hst in Hh3. simpl in Hh3.
  set (w4 := with_hm (fst hr) (tick (tick (tick (tick w3))))).
  assert (Hrs : record_success E rt (tick w3) = (Ok tt, w4)).
  { rewrite record_success_run. unfold reads. cbv zeta iota beta.
    change (hm (tick w3)) with (hm w3). rewrite Hm3.
    change (hm w2) with (hm w). fold hr. rewrite Hh3. reflexivity. }
  exists res, (with_cache (<[cache_key queries tf := res]> (cache w4)) w4).
  split.
  { rewrite search_token_unfold.
    unfold mbind at 1, M_bind at 1, get at 1. rewrite Hcache.
    unfold mbind at 1, M_bind at 1, now at 1. fold w1.
    unfold try_except, attempt.
    unfold mbind at 1, M_bind at 1, get at 1.
    change (use_grok w1) with (use_grok w). rewrite Hug.
    rewrite (bind_run _ _ _ _ _ Hinner).
    unfold mbind at 1, M_bind at 1, now at 1.
    rewrite (bind_run _ _ _ _ _ Hrs).
    reflexivity. }
  unfold w4. simpl.
  split; [|split; [exact Ha3 | split; [exact Ht3 | split; [exact Hg3 |]]]].
  - unfold scraping_in_order. simpl.
    split; [rewrite Hu3; exact Hug|].
    split; [exact Hh1 | split; [exact Hh4 |]].
    exists i, (Pool.mark_used (clock E (ticks w1)) a), c.
    rewrite Hp3. simpl. rewrite Hcur, list_lookup_alter_eq, Hi.
    repeat split. exact Hcl.
  - split; [|reflexivity].
    unfold hr. apply record_success_counts.
Qed.

(** X22: with an identity at hand the scraping path never fails.  If the
    primary provider is selected, the monitor is HEALTHY with no failure
    in its window, and the current identity holds a client, then whatever
    the scraping provider does (return tweets or raise any error for any
    query) search_token returns a result; it emits no alert, schedules no
    rotation, records no failure, and leaves all of these conditions in
    place for the next request.  When the cache has no answer the result
    is the empty neutral one tagged twikit. *)
Theorem scraping_path_never_fails (fuel : nat) (queries : list string)
    (tf : Z) (w : World) :
  scraping_in_order w ->
  exists r w',
    search_token E (S fuel) queries tf w = (Ok r, w') /\
    scraping_in_order w' /\
    alerts w' = alerts w /\ tasks w' = tasks w /\
    failed_requests (metrics (hm w')) = failed_requests (metrics (hm w)) /\
    (cache w !! cache_key queries tf = None ->
     r = set_source "twikit" (analyze_tweets E [])).
Proof.
  intros H.
  destruct (scraping_request fuel queries tf w H)
    as (r & w' & H1 & H2 & H3 & H4 & _ & H5 & H6).
  exists r, w'.
  split; [exact H1 | split; [exact H2 | split; [exact H3 |]]].
  split; [exact H4 | split; [exact H5 | exact H6]].
Qed.

(** X23: switching to the fallback and back.  With the fallback
    configured, _switch_to_grok sets the flag and keeps the monitor as it
    is; _switch_to_twikit then clears the flag and makes the monitor new
    again (HEALTHY, even if it was FAILED); pool and cache are untouched
    and the two alerts switched_to_grok and switched_to_twikit are emitted
    in that order.  Each switch does nothing when its provider is already
    selected. *)
Theorem switch_and_back (reason reason' : string) (w : World) :
  use_grok w = false -> grok_logged_in w = true ->
  exists w1 w2,
    switch_to_grok E reason w = (Ok tt, w1) /\
    use_grok w1 = true /\ hm w1 = hm w /\
    switch_to_grok E reason' w1 = (Ok tt, w1) /\
    switch_to_twikit E w1 = (Ok tt, w2) /\
    use_grok w2 = false /\ hm w2 = Health.init /\
    switch_to_twikit E w2 = (Ok tt, w2) /\
    pool w2 = pool w /\ cache w2 = cache w /\
    map alert_type (alerts w2)
      = map alert_type (alerts w) ++ ["switched_to_grok"; "switched_to_twikit"].
Proof.
  intros Hug Hli. destruct w as [m p li ug c al ts tk].
  simpl in Hug, Hli. subst ug li.
  eexists. eexists.
  split; [reflexivity|].
  split; [reflexivity|]. split; [reflexivity|].
  split; [reflexivity|]. split; [reflexivity|].
  split; [reflexivity|]. split; [reflexivity|].
  split; [reflexivity|]. split; [reflexivity|]. split; [reflexivity|].
  simpl. rewrite !map_app. simpl. now rewrite <- app_assoc.
Qed.

End WithEnv.

Lemma flag_only_with_configured_fallback_witness :
  (use_grok (init_world true) = true -> grok_logged_in (init_world true) = true) /\
  grok_logged_in
    (snd (search_token Scenario.env_suspended 2 ["$TKN"] 15 (init_world true)))
    = true.
Proof.
  assert (H : use_grok (init_world true) = true ->
              grok_logged_in (init_world true) = true)
    by (intros _; reflexivity).
  split; [exact H |].
  exact (proj1 (flag_only_with_configured_fallback Scenario.env_suspended 2
                  ["$TKN"] 15 (init_world true) H)).
Defined.

Lemma fallback_path_single_attempt_witness :
  use_grok (with_use_grok true (init_world true)) = true /\
  cache (with_use_grok true (init_world true)) !! cache_key ["$TKN"] 15 = None /\
  exists w',
    search_token Scenario.env_suspended 1 ["$TKN"] 15
      (with_use_grok true (init_world true))
      = (Ok (set_source "grok_api" Scenario.grok_result), w') /\
    successful_requests (metrics (hm w')) = 0 + 1 /\
    cache w' !! cache_key ["$TKN"] 15
      = Some (set_source "grok_api" Scenario.grok_result) /\
    pool w' = Pool.empty_pool /\ use_grok w' = true.
Proof.
  assert (H1 : use_grok (with_use_grok true (init_world true)) = true)
    by reflexivity.
  assert (H2 : cache (with_use_grok true (init_world true))
                 !! cache_key ["$TKN"] 15 = None)
    by apply lookup_empty.
  split; [exact H1 | split; [exact H2 |]].
  exact (fallback_path_single_attempt Scenario.env_suspended 0 ["$TKN"] 15
           (with_use_grok true (init_world true)) H1 H2).
Defined.

Lemma repeated_request_hits_cache_witness :
  search_token Scenario.env_suspended 1 ["$TKN"] 15 (Scenario.started true)
    = (Ok Scenario.neutral_twikit,
       snd (search_token Scenario.env_suspended 1 ["$TKN"] 15
              (Scenario.started true))) /\
  search_token Scenario.env_suspended 1 ["$TKN"] 15
    (snd (search_token Scenario.env_suspended 1 ["$TKN"] 15
            (Scenario.started true)))
    = (Ok Scenario.neutral_twikit,
       snd (search_token Scenario.env_suspended 1 ["$TKN"] 15
              (Scenario.started true))).
Proof.
  assert (H : search_token Scenario.env_suspended 1 ["$TKN"] 15
                (Scenario.started true)
              = (Ok Scenario.neutral_twikit,
                 snd (search_token Scenario.env_suspended 1 ["$TKN"] 15
                        (Scenario.started true))))
    by reflexivity.
  split; [exact H |].
  exact (proj2 (repeated_request_hits_cache Scenario.env_suspended 1 0
                  ["$TKN"] 15 (Scenario.started true) _
                  Scenario.neutral_twikit) H).
Defined.

Lemma exhausted_pool_fails_over_witness :
  use_grok (init_world true) = false /\
  grok_logged_in (init_world true) = true /\
  Pool.current_account (pool (init_world true)) = None /\
  cache (init_world true) !! cache_key ["$TKN"] 15 = None /\
  exists w',
    search_token Scenario.env_suspended 2 ["$TKN"] 15 (init_world true)
      = (Ok (set_source "grok_api" Scenario.grok_result), w') /\
    use_grok w' = true.
Proof.
  assert (H4 : cache (init_world true) !! cache_key ["$TKN"] 15 = None)
    by apply lookup_empty.
  split; [reflexivity | split; [reflexivity | split; [reflexivity |]]].
  split; [exact H4 |].
  exact (exhausted_pool_fails_over Scenario.env_suspended 0 ["$TKN"] 15
           (init_world true) eq_refl eq_refl eq_refl H4 eq_refl).
Defined.

Lemma scraping_path_never_fails_witness :
  scraping_in_order (Scenario.started true) /\
  exists r w',
    search_token Scenario.env_rate_limited 1 ["$TKN"; "0xabc"] 15
      (Scenario.started true) = (Ok r, w') /\
    scraping_in_order w' /\
    alerts w' = [] /\ tasks w' = [] /\
    failed_requests (metrics (hm w')) = 0 /\
    (cache (Scenario.started true) !! cache_key ["$TKN"; "0xabc"] 15 = None ->
     r = Scenario.neutral_twikit).
Proof.
  assert (H : scraping_in_order (Scenario.started true)).
  { split; [reflexivity | split; [reflexivity | split; [reflexivity |]]].
    exists 0%nat, Scenario.alice, 7%nat.
    split; [reflexivity | split; reflexivity]. }
  split; [exact H |].
  exact (scraping_path_never_fails Scenario.env_rate_limited 0
           ["$TKN"; "0xabc"] 15 (Scenario.started true) H).
Defined.

Lemma switch_and_back_witness :
  use_grok (init_world true) = false /\
  grok_logged_in (init_world true) = true /\
  exists w1 w2,
    switch_to_grok Scenario.env_suspended "manual_switch" (init_world true)
      = (Ok tt, w1) /\
    use_grok w1 = true /\ hm w1 = Health.init /\
    switch_to_grok Scenario.env_suspended "again" w1 = (Ok tt, w1) /\
    switch_to_twikit Scenario.env_suspended w1 = (Ok tt, w2) /\
    use_grok w2 = false /\ hm w2 = Health.init /\
    switch_to_twikit Scenario.env_suspended w2 = (Ok tt, w2) /\
    pool w2 = Pool.empty_pool /\ cache w2 = ∅ /\
    map alert_type (alerts w2) = ["switched_to_grok"; "switched_to_twikit"].
Proof.
  split; [reflexivity | split; [reflexivity |]].
  exact (switch_and_back Scenario.env_suspended "manual_switch" "again"
           (init_world true) eq_refl eq_refl).
Defined.

Lemma one_retry_at_most_witness :
  grok_logged_in (init_world true) = true /\
  fst (search_token Scenario.env_suspended 2 ["$TKN"] 15 (init_world true))
    <> OutOfFuel.
Proof.
  assert (H : grok_logged_in (init_world true) = true) by reflexivity.
  split; [exact H |].
  exact (proj1 (one_retry_at_most Scenario.env_suspended 0 ["$TKN"] 15 (init_world true)) H).
Defined.

End UnifiedMore.

(** ** validate_signal *)

Module ValidateMore.

Import Health Unified UnifiedFacts More Validate.

Lemma grok_credibility_bounds (d : SearchResult) :
  0 <= fst (grok_credibility d) <= 100.
Proof.
  unfold grok_credibility.
  destruct (20 <=? mention_count d), (10 <=? mention_count d),
    (5 <=? mention_count d), (3 <=? length (kol_mentions d))%nat,
    (1 <=? length (kol_mentions d))%nat, (1000 <=? engagement d),
    (500 <=? engagement d), (String.eqb (sentiment d) "positive"),
    (String.eqb (sentiment d) "neutral"); simpl; lia.
Qed.

Lemma twikit_credibility_bounds (d : SearchResult) :
  0 <= fst (twikit_credibility d) <= 100.
Proof.
  unfold twikit_credibility.
  destruct (20 <=? mention_count d), (10 <=? mention_count d),
    (3 <=? length (kol_mentions d))%nat,
    (1 <=? length (kol_mentions d))%nat, (1000 <=? engagement d),
    (String.eqb (sentiment d) "positive"); simpl; lia.
Qed.

Lemma credibility_gap (d : SearchResult) :
  fst (twikit_credibility d) <= fst (grok_credibility d)
    <= fst (twikit_credibility d) + 35.
Proof.
  unfold twikit_credibility, grok_credibility.
  destruct (20 <=? mention_count d), (10 <=? mention_count d),
    (5 <=? mention_count d), (3 <=? length (kol_mentions d))%nat,
    (1 <=? length (kol_mentions d))%nat, (1000 <=? engagement d) eqn:He,
    (500 <=? engagement d) eqn:He', (String.eqb (sentiment d) "positive"),
    (String.eqb (sentiment d) "neutral"); simpl; lia.
Qed.

Lemma validation_in_range (scored : Z * list string) (d : SearchResult)
    (src : string) :
  0 <= fst scored <= 100 ->
  credibility_score (validation scored d src) = fst scored /\
  0 <= credibility_score (validation scored d src) <= 100 /\
  verified (validation scored d src)
    = (50 <=? credibility_score (validation scored d src)).
Proof.
  intros H. unfold validation. simpl.
  rewrite Z.min_l by lia. repeat split; lia.
Qed.

Section WithEnv.

Variable E : Env.

Lemma grok_validate_signal_run (ca sym t : string) (w : World) :
  grok_validate_signal E ca sym t w =
  (Ok (if grok_logged_in w then
         match grok_search_token E [("$" ++ sym)%string; ca] 15 with
         | Returns d => validation (grok_credibility d) d "grok_api"
         | Raises e =>
             mkValidation 0 false [("Grok API error: " ++ exn_msg e)%string]
               None "grok_api"
         end
       else
         mkValidation 0 false ["Grok API error: XAI_API_KEY not configured"]
           None "grok_api"), w).
Proof.
  unfold grok_validate_signal, try_except, grok_client_search_token.
  unfold mbind, M_bind, get.
  destruct (grok_logged_in w); [|reflexivity].
  unfold await, lift.
  destruct (grok_search_token E _ 15) as [d | e]; reflexivity.
Qed.

Lemma validate_signal_on_fallback (fuel : nat) (ca sym t : string)
    (w : World) :
  use_grok w = true ->
  validate_signal E fuel ca sym t w = grok_validate_signal E ca sym t w.
Proof.
  intros Hug. unfold validate_signal, try_except.
  unfold mbind at 1, M_bind at 1, get at 1. rewrite Hug.
  now rewrite grok_validate_signal_run.
Qed.

Lemma validate_signal_on_scraping (fuel : nat) (ca sym t : string)
    (w : World) :
  use_grok w = false ->
  validate_signal E fuel ca sym t w =
  match search_token E fuel [("$" ++ sym)%string; ca] 15 w with
  | (Ok d, w') => (Ok (validation (twikit_credibility d) d "twikit"), w')
  | (Raise e, w') => (Raise e, w')
  | (OutOfFuel, w') => (OutOfFuel, w')
  end.
Proof.
  intros Hug. unfold validate_signal, try_except.
  unfold mbind at 1, M_bind at 1, get at 1. rewrite Hug.
  unfold mbind, M_bind.
  destruct (search_token E fuel _ 15 w) as [[d | e |] w']; reflexivity.
Qed.

(** X24: the credibility score is a score out of 100.  Whatever
    validate_signal returns, on either path and for any data, its
    credibility_score lies between 0 and 100 and verified says whether it
    is at least 50: the cap min(score, 100) never cuts, so the score
    reported is the one the verdict was taken on. *)
Theorem credibility_score_in_range (fuel : nat) (ca sym t : string)
    (w w' : World) (v : Validation) :
  validate_signal E fuel ca sym t w = (Ok v, w') ->
  0 <= credibility_score v <= 100 /\
  verified v = (50 <=? credibility_score v).
Proof.
  destruct (use_grok w) eqn:Hug.
  - rewrite validate_signal_on_fallback, grok_validate_signal_run by exact Hug.
    intros [= <- _].
    destruct (grok_logged_in w); [|simpl; split; [lia | reflexivity]].
    destruct (grok_search_token E _ 15) as [d | e];
      [|simpl; split; [lia | reflexivity]].
    apply (validation_in_range _ d "grok_api"), grok_credibility_bounds.
  - rewrite validate_signal_on_scraping by exact Hug.
    destruct (search_token E fuel _ 15 w) as [[d | e |] w1];
      [|discriminate..].
    intros [= <- _].
    apply (validation_in_range _ d "twikit"), twikit_credibility_bounds.
Qed.

(** X26: on the fallback path a validation never fails and leaves no
    trace.  With the fallback active and configured, validate_signal
    returns a dict tagged grok_api for any recursion bound, and the
    endpoint answers with it: from the provider's data when the provider
    answers, and with score 0, unverified, and the provider's error as the
    only reason when it raises.  The state is left as it was: the cache is
    neither read nor written and the monitor records nothing. *)
Theorem fallback_validation_never_fails (fuel : nat) (ca sym t : string)
    (w : World) :
  use_grok w = true -> grok_logged_in w = true ->
  exists v,
    validate_signal E fuel ca sym t w = (Ok v, w) /\
    Service.api_validate_signal E fuel ca sym t w = (Ok (Service.Body v), w) /\
    validation_source v = "grok_api" /\
    match grok_search_token E [("$" ++ sym)%string; ca] 15 with
    | Returns d => v = validation (grok_credibility d) d "grok_api"
    | Raises e =>
        credibility_score v = 0 /\ verified v = false /\
        reasons v = [("Grok API error: " ++ exn_msg e)%string] /\
        twitter_data v = None
    end.
Proof.
  intros Hug Hli.
  pose proof (validate_signal_on_fallback fuel ca sym t w Hug) as Hv.
  rewrite grok_validate_signal_run, Hli in Hv.
  eexists. split; [exact Hv|]. split.
  - unfold Service.api_validate_signal, try_except.
    now rewrite (bind_run _ _ _ _ _ Hv).
  - destruct (grok_search_token E _ 15) as [d | e]; simpl.
    + split; reflexivity.
    + repeat split.
Qed.

(** X27: on the scraping path no signal is ever verified.  With the
    scraping path in order and no cached answer for the token,
    validate_signal returns score 0, unverified, without reasons, tagged
    twikit, whatever the scraping provider finds; the path stays in order,
    and the validation repeated next, while the cache still holds the
    entry, gives the same dict. *)
Theorem scraping_validation_never_verifies (fuel fuel' : nat)
    (ca sym t t' : string) (w : World) :
  scraping_in_order w ->
  cache w !! cache_key [("$" ++ sym)%string; ca] 15 = None ->
  exists v w',
    validate_signal E (S fuel) ca sym t w = (Ok v, w') /\
    credibility_score v = 0 /\ verified v = false /\ reasons v = [] /\
    validation_source v = "twikit" /\
    scraping_in_order w' /\
    validate_signal E (S fuel') ca sym t' w' = (Ok v, w').
Proof.
  intros Hin Hc.
  destruct (UnifiedMore.scraping_request E fuel [("$" ++ sym)%string; ca] 15
              w Hin)
    as (r & w' & Hr & Hin' & _ & _ & _ & _ & Hres).
  specialize (Hres Hc). subst r.
  pose proof (UnifiedMore.search_token_caches E _ _ _ _ _ _ Hr) as Hc'.
  assert (Hr' : search_token E (S fuel') [("$" ++ sym)%string; ca] 15 w'
                = (Ok (set_source "twikit" (analyze_tweets E [])), w')).
  { rewrite search_token_unfold.
    unfold mbind at 1, M_bind at 1, get at 1. now rewrite Hc'. }
  exists (validation
            (twikit_credibility (set_source "twikit" (analyze_tweets E [])))
            (set_source "twikit" (analyze_tweets E [])) "twikit"), w'.
  split.
  { rewrite validate_signal_on_scraping by apply Hin. now rewrite Hr. }
  repeat split; try reflexivity; try apply Hin'.
  rewrite validate_signal_on_scraping by apply Hin'. now rewrite Hr'.
Qed.

End WithEnv.

(** X25: the scraping path scores the same data lower.  For any data the
    score of the scraping path is at most the score of the fallback path
    and at most 35 points below it, so what the scraping path verifies the
    fallback path verifies too; and there are data that only the fallback
    path verifies. *)
Theorem scraping_scoring_is_stricter :
  (forall d : SearchResult,
      fst (twikit_credibility d) <= fst (grok_credibility d)
        <= fst (twikit_credibility d) + 35 /\
      (verified (validation (twikit_credibility d) d "twikit") = true ->
       verified (validation (grok_credibility d) d "grok_api") = true)) /\
  (exists d : SearchResult,
      verified (validation (grok_credibility d) d "grok_api") = true /\
      verified (validation (twikit_credibility d) d "twikit") = false).
Proof.
  split.
  - intros d. pose proof (credibility_gap d) as H.
    split; [exact H|]. unfold validation. simpl. lia.
  - exists (mkResult 9 5 999 "neutral" 0 [mkKol "@kol" 20000 "gm"] [] None None).
    split; reflexivity.
Qed.

Lemma credibility_score_in_range_witness :
  validate_signal Scenario.env_suspended 1 "0xabc" "TKN" "12:00"
    (with_use_grok true (init_world true))
    = (Ok (validation (grok_credibility Scenario.grok_result)
             Scenario.grok_result "grok_api"),
       with_use_grok true (init_world true)) /\
  0 <= 35 <= 100 /\ false = (50 <=? 35).
Proof.
  assert (H : validate_signal Scenario.env_suspended 1 "0xabc" "TKN" "12:00"
                (with_use_grok true (init_world true))
              = (Ok (validation (grok_credibility Scenario.grok_result)
                       Scenario.grok_result "grok_api"),
                 with_use_grok true (init_world true))) by reflexivity.
  split; [exact H |].
  exact (credibility_score_in_range Scenario.env_suspended 1 "0xabc" "TKN"
           "12:00" _ _ _ H).
Defined.

Lemma fallback_validation_never_fails_witness :
  use_grok (with_use_grok true (init_world true)) = true /\
  grok_logged_in (with_use_grok true (init_world true)) = true /\
  exists v,
    validate_signal Scenario.env_suspended 0 "0xabc" "TKN" "12:00"
      (with_use_grok true (init_world true))
      = (Ok v, with_use_grok true (init_world true)) /\
    Service.api_validate_signal Scenario.env_suspended 0 "0xabc" "TKN" "12:00"
      (with_use_grok true (init_world true))
      = (Ok (Service.Body v), with_use_grok true (init_world true)) /\
    validation_source v = "grok_api" /\
    v = validation (grok_credibility Scenario.grok_result)
          Scenario.grok_result "grok_api".
Proof.
  split; [reflexivity | split; [reflexivity |]].
  exact (fallback_validation_never_fails Scenario.env_suspended 0 "0xabc"
           "TKN" "12:00" (with_use_grok true (init_world true))
           eq_refl eq_refl).
Defined.

Lemma scraping_validation_never_verifies_witness :
  scraping_in_order (Scenario.started true) /\
  cache (Scenario.started true) !! cache_key ["$TKN"; "0xabc"] 15 = None /\
  exists v w',
    validate_signal Scenario.env_rate_limited 1 "0xabc" "TKN" "12:00"
      (Scenario.started true) = (Ok v, w') /\
    credibility_score v = 0 /\ verified v = false /\ reasons v = [] /\
    validation_source v = "twikit" /\
    scraping_in_order w' /\
    validate_signal Scenario.env_rate_limited 1 "0xabc" "TKN" "12:05" w'
      = (Ok v, w').
Proof.
  assert (H : scraping_in_order (Scenario.started true)).
  { split; [reflexivity | split; [reflexivity | split; [reflexivity |]]].
    exists 0%nat, Scenario.alice, 7%nat.
    split; [reflexivity | split; reflexivity]. }
  assert (Hc : cache (Scenario.started true)
                 !! cache_key ["$TKN"; "0xabc"] 15 = None)
    by apply lookup_empty.
  split; [exact H | split; [exact Hc |]].
  exact (scraping_validation_never_verifies Scenario.env_rate_limited 0 0
           "0xabc" "TKN" "12:00" "12:05" (Scenario.started true) H Hc).
Defined.

End ValidateMore.

(** ** The endpoints *)

Module ServiceMore.

Import Health Unified UnifiedFacts More Service.

Lemma store_alerts_ring (emitted h : list ClientAlert) :
  (length h <= 100)%nat ->
  store_alerts emitted h = last_n 100 (h ++ emitted).
Proof.
  revert h. induction emitted as [|a emitted IH]; intros h H.
  - simpl. rewrite app_nil_r. symmetry.
    now apply HealthMore.last_n_short.
  - change (store_alerts (a :: emitted) h)
      with (store_alerts emitted (store_alert a h)).
    unfold store_alert. rewrite HealthMore.trim_last_n by exact H.
    rewrite IH by apply HealthMore.last_n_length.
    rewrite HealthMore.last_n_app. now rewrite <- app_assoc.
Qed.

Lemma last_n_last_n {A} (k n : nat) (l : list A) :
  last_n k (last_n n l) = last_n (Nat.min k n) l.
Proof.
  unfold last_n. rewrite length_skipn, skipn_skipn. f_equal. lia.
Qed.

Lemma slice_from_last {A} (limit : Z) (l : list A) :
  0 < limit -> slice_from (- limit) l = last_n (Z.to_nat limit) l.
Proof.
  intros H. unfold slice_from, last_n.
  destruct (Z.ltb_spec (- limit) 0) as [_ | Hge]; [|lia].
  f_equal. lia.
Qed.

Lemma slice_from_drop {A} (start : Z) (l : list A) :
  0 <= start -> slice_from start l = skipn (Z.to_nat start) l.
Proof.
  intros H. unfold slice_from.
  destruct (Z.ltb_spec start 0) as [Hlt | _]; [lia|].
  destruct (Z.le_gt_cases start (Z.of_nat (length l))) as [Hle | Hgt].
  - now rewrite Z.min_l by lia.
  - rewrite Z.min_r by lia. rewrite Nat2Z.id.
    rewrite !skipn_all2; [reflexivity | lia | lia].
Qed.

(** X28: the alerts endpoint serves the latest alerts.  After any sequence
    of alerts handed to store_alert, the history holds the last 100 of
    them in order; get_alerts reports its length and, for a positive
    limit, the last min(limit, 100) alerts emitted.  With limit 0 it
    returns the whole history, not an empty list, and with a negative
    limit the history without its first -limit entries. *)
Theorem alerts_endpoint_serves_the_latest (emitted : list ClientAlert)
    (limit : Z) :
  store_alerts emitted [] = last_n 100 emitted /\
  fst (get_alerts limit (store_alerts emitted []))
    = Nat.min (length emitted) 100 /\
  (0 < limit ->
   snd (get_alerts limit (store_alerts emitted []))
     = last_n (Nat.min (Z.to_nat limit) 100) emitted) /\
  (limit = 0 ->
   snd (get_alerts limit (store_alerts emitted [])) = store_alerts emitted []) /\
  (limit < 0 ->
   snd (get_alerts limit (store_alerts emitted []))
     = skipn (Z.to_nat (- limit)) (store_alerts emitted [])).
Proof.
  assert (H : store_alerts emitted [] = last_n 100 emitted)
    by (now rewrite store_alerts_ring by apply Nat.le_0_l).
  split; [exact H|]. unfold get_alerts. cbn [fst snd]. split.
  - rewrite H. unfold last_n. rewrite length_skipn. lia.
  - split; [|split].
    + intros Hl. rewrite slice_from_last by exact Hl.
      rewrite H. apply last_n_last_n.
    + intros ->. now rewrite slice_from_drop.
    + intros Hl. apply slice_from_drop. lia.
Qed.

Section WithEnv.

Variable E : Env.

(** X29: the answer of switch_provider does not tell whether the switch
    took place.  For the provider grok the endpoint always answers
    Switched to Grok API; afterwards the fallback is active only if it was
    before or is configured, and when it is neither, the only effect is a
    failover_failed alert.  For twikit the answer is Switched to Twikit
    and the primary provider is selected, with a new monitor if the
    fallback was active and no change at all otherwise.  Any other
    provider name is refused with status 400 and changes nothing. *)
Theorem switch_provider_answer_ignores_outcome (w : World) :
  (exists w',
      switch_provider E "grok" w
        = (Ok (Body ("Switched to Grok API", "grok")), w') /\
      use_grok w' = use_grok w || grok_logged_in w /\
      hm w' = hm w /\
      (use_grok w = false -> grok_logged_in w = false ->
       map alert_type (alerts w')
         = map alert_type (alerts w) ++ ["failover_failed"])) /\
  (exists w',
      switch_provider E "twikit" w
        = (Ok (Body ("Switched to Twikit", "twikit")), w') /\
      use_grok w' = false /\
      (use_grok w = true -> hm w' = Health.init) /\
      (use_grok w = false -> w' = w)) /\
  (forall provider : string,
      provider <> "grok" -> provider <> "twikit" ->
      switch_provider E provider w
        = (Ok (HTTPError
                 (mkHTTP 400 "Invalid provider. Use 'twikit' or 'grok'")), w)).
Proof.
  destruct w as [m p li ug c al ts tk].
  split; [|split].
  - destruct ug, li; eexists; (split; [reflexivity|]); simpl;
      repeat split; try discriminate; intros; try discriminate.
    now rewrite map_app.
  - destruct ug; eexists; (split; [reflexivity|]); simpl;
      repeat split; intros; try discriminate; reflexivity.
  - intros provider H1 H2. unfold switch_provider.
    apply String.eqb_neq in H1, H2. now rewrite H1, H2.
Qed.

End WithEnv.

End ServiceMore.

(** ** The cache key *)

Module CacheMore.

Import Unified UnifiedFacts More.

Lemma leb_cases (a b : string) :
  String.leb a b = true <-> OrderedTypeEx.String_as_OT.lt a b \/ a = b.
Proof.
  unfold String.leb.
  pose proof (OrderedTypeEx.String_as_OT.cmp_lt a b) as Hlt.
  pose proof (OrderedTypeEx.String_as_OT.cmp_eq a b) as Heq.
  unfold OrderedTypeEx.String_as_OT.cmp in Hlt, Heq.
  destruct (String.compare a b); split; intros H; try reflexivity.
  - right. now apply Heq.
  - left. now apply Hlt.
  - discriminate.
  - destruct H as [H | H]; [apply Hlt in H | apply Heq in H]; discriminate.
Qed.

Lemma leb_trans (a b c : string) :
  String.leb a b = true -> String.leb b c = true -> String.leb a c = true.
Proof.
  rewrite !leb_cases. intros [H1 | ->] [H2 | ->]; auto.
  left. eapply OrderedTypeEx.String_as_OT.lt_trans; eassumption.
Qed.

Lemma insert_str_perm (x : string) (l : list string) :
  Permutation (insert_str x l) (x :: l).
Proof.
  induction l as [|y l IH]; simpl; [reflexivity|].
  destruct (String.leb x y); [reflexivity|].
  rewrite IH. apply perm_swap.
Qed.

Lemma sorted_perm (l : list string) : Permutation (sorted l) l.
Proof.
  induction l as [|x l IH]; simpl; [reflexivity|].
  unfold sorted in *. simpl. rewrite insert_str_perm. now constructor.
Qed.

Lemma insert_str_sorted (x : string) (l : list string) :
  StronglySorted le_str l -> StronglySorted le_str (insert_str x l).
Proof.
  induction 1 as [|y l Hs IH Hall]; simpl.
  - constructor; constructor.
  - destruct (String.leb x y) eqn:Hxy.
    + constructor; [now constructor|].
      constructor; [exact Hxy|].
      eapply List.Forall_impl; [|exact Hall].
      intros z Hz. eapply leb_trans; eassumption.
    + constructor; [exact IH|].
      eapply Permutation_Forall; [symmetry; apply insert_str_perm|].
      constructor; [|exact Hall].
      destruct (String.leb_total x y) as [H | H]; [congruence | exact H].
Qed.

Lemma sorted_sorted (l : list string) : StronglySorted le_str (sorted l).
Proof.
  induction l as [|x l IH]; [constructor|].
  unfold sorted in *. simpl. now apply insert_str_sorted.
Qed.

Lemma sorted_unique (l1 l2 : list string) :
  StronglySorted le_str l1 -> StronglySorted le_str l2 ->
  Permutation l1 l2 -> l1 = l2.
Proof.
  intros H1. revert l2.
  induction H1 as [|x l1 Hs1 IH Hall1]; intros l2 H2 Hp.
  - now apply Permutation_nil in Hp.
  - destruct H2 as [|y l2 Hs2 Hall2].
    + symmetry in Hp. now apply Permutation_nil in Hp.
    + assert (Hxy : x = y).
      { assert (In x (y :: l2)) as [-> | Hx]
          by (eapply Permutation_in; [exact Hp | now left]); [reflexivity|].
        assert (In y (x :: l1)) as [-> | Hy]
          by (eapply Permutation_in; [symmetry; exact Hp | now left]);
          [reflexivity|].
        rewrite List.Forall_forall in Hall1, Hall2.
        apply String.leb_antisym; [now apply Hall1 | now apply Hall2]. }
      subst y. f_equal. apply IH; [exact Hs2|].
      eapply Permutation_cons_inv; exact Hp.
Qed.

Lemma sorted_permutation (l l' : list string) :
  Permutation l l' -> sorted l = sorted l'.
Proof.
  intros H. apply sorted_unique; try apply sorted_sorted.
  rewrite !sorted_perm. exact H.
Qed.

(** X30: the order of the queries does not matter to the cache.  sorted
    returns its input in ascending order, so two requests whose queries
    are the same up to order have the same cache key; once one of them was
    answered, the other is answered with the same result from the cache
    while the entry is still there. *)
Theorem query_order_does_not_matter (E : Env) (fuel fuel' : nat)
    (queries queries' : list string) (tf : Z) (w w' : World)
    (r : SearchResult) :
  Permutation queries queries' ->
  StronglySorted le_str (sorted queries) /\
  Permutation (sorted queries) queries /\
  cache_key queries tf = cache_key queries' tf /\
  (search_token E fuel queries tf w = (Ok r, w') ->
   search_token E (S fuel') queries' tf w' = (Ok r, w')).
Proof.
  intros Hp.
  assert (Hk : cache_key queries tf = cache_key queries' tf)
    by (unfold cache_key; now rewrite (sorted_permutation _ _ Hp)).
  split; [apply sorted_sorted | split; [apply sorted_perm | split]];
    [exact Hk|].
  intros H. apply UnifiedMore.search_token_caches in H.
  rewrite search_token_unfold. rewrite <- Hk.
  unfold mbind at 1, M_bind at 1, get at 1. now rewrite H.
Qed.

Lemma query_order_does_not_matter_witness :
  Permutation ["$TKN"; "0xabc"] ["0xabc"; "$TKN"] /\
  cache_key ["$TKN"; "0xabc"] 15 = cache_key ["0xabc"; "$TKN"] 15.
Proof.
  assert (H : Permutation ["$TKN"; "0xabc"] ["0xabc"; "$TKN"])
    by apply perm_swap.
  split; [exact H |].
  exact (proj1 (proj2 (proj2
           (query_order_does_not_matter Scenario.env_suspended 0 0 _ _ 15
              (init_world true) (init_world true) Scenario.neutral_twikit H)))).
Defined.

End CacheMore.
